(** * racing_game.py: a shallow embedding and its verified properties

    The development follows [src/racing_game.py]: the frozen [GameConfig],
    the [Car] class and the [RacingGame] session with its per-frame
    [handle_events] / [update] cycle.

    Modelling choices.
    - Python [int] is [Z]; [//] is floor division ([Z.div]).
    - Python [float] is IEEE-754 binary64 with round-to-nearest-even, taken
      from the Standard Library's executable specification [SpecFloat]
      (precision 53, [emax] 1024).  Mixed [int]/[float] arithmetic converts
      the integer first, comparisons between a [float] and an [int] are
      exact, as in CPython.
    - [Car] objects live in a store and are named by references: the
      obstacle list holds references, [Car.update] mutates the object, and
      [list.remove] removes the first reference identical to its argument
      ([Car] defines no [__eq__]).
    - The module [random] is a source of draws threaded through the run.
    - Exceptions the program can raise ([ZeroDivisionError], [ValueError],
      [OverflowError]) are results of the embedded functions.
    - pygame is the rendering and input library: [pygame.Rect] is a
      rectangle with integer fields, the event queue and the key state are
      inputs of every frame, drawing does not touch the session state. *)

From Stdlib Require Import ZArith Bool Lia.
From Stdlib Require Import Floats.SpecFloat.
From stdpp Require Import base list.

Local Open Scope Z_scope.

(** ** Python floats *)

Module PyFloat.

Definition float : Type := spec_float.

Definition prec : Z := 53.
Definition emax : Z := 1024.

Definition add : float -> float -> float := SFadd prec emax.
Definition sub : float -> float -> float := SFsub prec emax.
Definition mul : float -> float -> float := SFmul prec emax.
Definition div : float -> float -> float := SFdiv prec emax.
Definition ltb : float -> float -> bool := SFltb.
Definition eqb : float -> float -> bool := SFeqb.

(** The literals of the program. *)
Definition zero : float := S754_zero false.                       (* 0.0 *)
Definition one : float := S754_finite false 4503599627370496 (-52). (* 1.0 *)
Definition half : float := S754_finite false 4503599627370496 (-53). (* 0.5 *)
Definition f0_6 : float := S754_finite false 5404319552844595 (-53). (* 0.6 *)

(** The integer [z] as a sign and a magnitude with exponent 0; not
    normalised, only an operand of [div]. *)
Definition raw_int (z : Z) : float :=
  match z with
  | Z0 => S754_zero false
  | Zpos p => S754_finite false p 0
  | Zneg p => S754_finite true p 0
  end.

(** [float(z)]: the nearest binary64 number, ties to even. *)
Definition round_int (z : Z) : float := binary_normalize prec emax z 0 false.

(** Integers at or beyond this magnitude round to an infinity. *)
Definition int_limit : Z := 2 ^ 1024 - 2 ^ 970.

(** The signed mantissa of a finite float. *)
Definition signed (s : bool) (m : positive) : Z := cond_Zopp s (Zpos m).

(** Truncation toward zero of a finite float; nothing for NaN and the
    infinities. *)
Definition trunc (f : float) : option Z :=
  match f with
  | S754_zero _ => Some 0
  | S754_finite s m e => Some (cond_Zopp s (Z.shiftl (Zpos m) e))
  | S754_infinity _ | S754_nan => None
  end.

(** Exact comparison of a float with an integer. *)
Definition compare_int (f : float) (z : Z) : option comparison :=
  match f with
  | S754_nan => None
  | S754_infinity s => Some (if s then Lt else Gt)
  | S754_zero _ => Some (0 ?= z)
  | S754_finite s m e =>
      Some (match e with
            | Zneg p => signed s m ?= z * 2 ^ Zpos p
            | _ => signed s m * 2 ^ e ?= z
            end)
  end.

Definition ge_int (f : float) (z : Z) : bool :=
  match compare_int f z with
  | Some (Gt | Eq) => true
  | _ => false
  end.

Definition le_int (f : float) (z : Z) : bool :=
  match compare_int f z with
  | Some (Lt | Eq) => true
  | _ => false
  end.

Definition eq_int (f : float) (z : Z) : bool :=
  match compare_int f z with
  | Some Eq => true
  | _ => false
  end.

End PyFloat.

Abbreviation float := PyFloat.float.

(** ** Exceptions and results *)

Inductive exn : Type :=
| ZeroDivisionError
| ValueError
| OverflowError.

(** [Stuck] is not a Python outcome: it marks a dangling reference, which
    the store invariant rules out. *)
Inductive result (A : Type) : Type :=
| Ok (a : A)
| Raise (e : exn)
| Stuck.

Arguments Ok {A} a.
Arguments Raise {A} e.
Arguments Stuck {A}.

Definition rbind {A B : Type} (r : result A) (k : A -> result B) : result B :=
  match r with
  | Ok a => k a
  | Raise e => Raise e
  | Stuck => Stuck
  end.

Declare Scope result_scope.
Delimit Scope result_scope with result.
Notation "'let?' x ':=' r 'in' k" := (rbind r (fun x => k))
  (at level 10, x pattern, r at level 100, k at level 200) : result_scope.

Local Open Scope result_scope.

(** ** Python arithmetic that can raise *)

(** [float(z)] as done implicitly in mixed arithmetic. *)
Definition float_of_int (z : Z) : result float :=
  if Z.abs z <? PyFloat.int_limit then Ok (PyFloat.round_int z)
  else Raise OverflowError.

(** [a / b] on two integers: the correctly rounded quotient. *)
Definition int_truediv (a b : Z) : result float :=
  if b =? 0 then Raise ZeroDivisionError
  else match PyFloat.div (PyFloat.raw_int a) (PyFloat.raw_int b) with
       | S754_infinity _ => Raise OverflowError
       | q => Ok q
       end.

(** [x / b] with a float [x] and an integer [b]: [b] is converted, and a
    zero divisor raises (the conversion of [b] is zero exactly when [b]
    is). *)
Definition float_div_int (x : float) (b : Z) : result float :=
  let? fb := float_of_int b in
  if b =? 0 then Raise ZeroDivisionError
  else Ok (PyFloat.div x fb).

(** [int(f)]. *)
Definition py_int (f : float) : result Z :=
  match f with
  | S754_nan => Raise ValueError
  | S754_infinity _ => Raise OverflowError
  | _ => match PyFloat.trunc f with
         | Some z => Ok z
         | None => Stuck
         end
  end.

(** [list(range(start, stop, step))]. *)
Definition range_len (start stop step : Z) : nat :=
  if 0 <? step then Z.to_nat ((stop - start + step - 1) / step)
  else Z.to_nat ((start - stop - step - 1) / (- step)).

Definition py_range (start stop step : Z) : result (list Z) :=
  if step =? 0 then Raise ValueError
  else Ok (map (fun k : nat => start + Z.of_nat k * step)
               (seq 0 (range_len start stop step))).

(** ** The data model *)

(** [GameConfig], a frozen dataclass. *)
Record GameConfig : Type := mkConfig {
  width : Z;
  height : Z;
  lane_count : Z;
  border_x : Z;
  lane_marker_length : Z;
  lane_marker_gap : Z;
  fps : Z
}.

Definition default_config : GameConfig :=
  {| width := 400; height := 600; lane_count := 3; border_x := 60;
     lane_marker_length := 48; lane_marker_gap := 80; fps := 60 |}.

(** [pygame.Rect]: left, top, width, height, all integers. *)
Record Rect : Type := mkRect {
  rect_x : Z;
  rect_y : Z;
  rect_w : Z;
  rect_h : Z
}.

(** A float coordinate given to a [Rect] is truncated toward zero.  The
    conversion of NaN or an infinity is not defined by pygame (a C cast);
    the model maps them to 0. *)
Definition rect_coord (f : float) : Z :=
  match PyFloat.trunc f with
  | Some z => z
  | None => 0
  end.

(** [Rect.colliderect]: the two rectangles overlap on both axes; touching
    edges do not count, and a rectangle of zero width or height collides
    with nothing. *)
Definition colliderect (a b : Rect) : bool :=
  if (rect_w a =? 0) || (rect_h a =? 0) || (rect_w b =? 0) || (rect_h b =? 0)
  then false
  else (Z.min (rect_x a) (rect_x a + rect_w a) <? Z.max (rect_x b) (rect_x b + rect_w b))
    && (Z.min (rect_y a) (rect_y a + rect_h a) <? Z.max (rect_y b) (rect_y b + rect_h b))
    && (Z.min (rect_x b) (rect_x b + rect_w b) <? Z.max (rect_x a) (rect_x a + rect_w a))
    && (Z.min (rect_y b) (rect_y b + rect_h b) <? Z.max (rect_y a) (rect_y a + rect_h a)).

Definition Color : Type := Z * Z * Z.

Definition color_player_car : Color := (255, 0, 0).
Definition color_enemy_car : Color := (0, 100, 255).

(** [Car]: in this program [x] is always a float (it comes from
    [_lane_center]) and [y] always an integer. *)
Record Car : Type := mkCar {
  car_x : float;
  car_y : Z;
  car_width : Z;
  car_height : Z;
  car_color : Color;
  car_rect : Rect
}.

(** References to [Car] objects: positions in the store. *)
Abbreviation ref := nat.

(** The attributes of a [RacingGame] (screen, clock, fonts and colours,
    which only the renderer reads, are left out). *)
Record RacingGame : Type := mkGame {
  config : GameConfig;
  track_left : Z;
  track_right : Z;
  lane_width : float;
  car_speed : Z;
  road_scroll_speed : Z;
  obstacle_speed : Z;
  spawn_cooldown_range : Z * Z;
  player_car : ref;
  obstacles : list ref;
  lane_markers : list (Z * Z);
  score : float;
  spawn_timer : Z;
  running : bool;
  game_over : bool
}.

Definition set_obstacles (v : list ref) (g : RacingGame) : RacingGame :=
  mkGame (config g) (track_left g) (track_right g) (lane_width g) (car_speed g)
         (road_scroll_speed g) (obstacle_speed g) (spawn_cooldown_range g)
         (player_car g) v (lane_markers g) (score g) (spawn_timer g)
         (running g) (game_over g).

Definition set_lane_markers (v : list (Z * Z)) (g : RacingGame) : RacingGame :=
  mkGame (config g) (track_left g) (track_right g) (lane_width g) (car_speed g)
         (road_scroll_speed g) (obstacle_speed g) (spawn_cooldown_range g)
         (player_car g) (obstacles g) v (score g) (spawn_timer g)
         (running g) (game_over g).

Definition set_score (v : float) (g : RacingGame) : RacingGame :=
  mkGame (config g) (track_left g) (track_right g) (lane_width g) (car_speed g)
         (road_scroll_speed g) (obstacle_speed g) (spawn_cooldown_range g)
         (player_car g) (obstacles g) (lane_markers g) v (spawn_timer g)
         (running g) (game_over g).

Definition set_spawn_timer (v : Z) (g : RacingGame) : RacingGame :=
  mkGame (config g) (track_left g) (track_right g) (lane_width g) (car_speed g)
         (road_scroll_speed g) (obstacle_speed g) (spawn_cooldown_range g)
         (player_car g) (obstacles g) (lane_markers g) (score g) v
         (running g) (game_over g).

Definition set_running (v : bool) (g : RacingGame) : RacingGame :=
  mkGame (config g) (track_left g) (track_right g) (lane_width g) (car_speed g)
         (road_scroll_speed g) (obstacle_speed g) (spawn_cooldown_range g)
         (player_car g) (obstacles g) (lane_markers g) (score g) (spawn_timer g)
         v (game_over g).

Definition set_game_over (v : bool) (g : RacingGame) : RacingGame :=
  mkGame (config g) (track_left g) (track_right g) (lane_width g) (car_speed g)
         (road_scroll_speed g) (obstacle_speed g) (spawn_cooldown_range g)
         (player_car g) (obstacles g) (lane_markers g) (score g) (spawn_timer g)
         (running g) v.

(** ** Inputs *)

Inductive Key : Type :=
| K_RETURN
| K_ESCAPE
| K_LEFT
| K_RIGHT
| K_OTHER (code : Z).

Inductive Event : Type :=
| QUIT
| KEYDOWN (key : Key)
| OTHER_EVENT.

(** [pygame.key.get_pressed()], as far as the game reads it. *)
Record Keys : Type := mkKeys {
  pressed_left : bool;
  pressed_right : bool
}.

Definition no_keys : Keys := mkKeys false false.
Definition hold_right : Keys := mkKeys false true.

(** ** The random source *)

(** The two functions of [random] the game calls, on an explicit generator
    state.  The contract is the range of the result; that the draw is
    uniform over that range is the library's own guarantee. *)
Class RandomSource (G : Type) : Type := {
  randrange : Z -> G -> Z * G;
  randint : Z -> Z -> G -> Z * G;
  randrange_range : forall n g, 0 < n -> 0 <= fst (randrange n g) < n;
  randint_range : forall a b g, a <= b -> a <= fst (randint a b g) <= b
}.

(** A scripted source: the draws are read off a list, reduced into the
    requested range (an exhausted script answers the lower bound). *)
Definition scripted_randrange (n : Z) (g : list Z) : Z * list Z :=
  match g with
  | [] => (0, [])
  | r :: g' => (r mod n, g')
  end.

Definition scripted_randint (a b : Z) (g : list Z) : Z * list Z :=
  match g with
  | [] => (a, [])
  | r :: g' => (a + r mod (b - a + 1), g')
  end.

#[export] Instance scripted_source : RandomSource (list Z).
Proof.
  refine {| randrange := scripted_randrange; randint := scripted_randint |}.
  - intros n [|r g] Hn; simpl; [lia | apply Z.mod_pos_bound; lia].
  - intros a b [|r g] Hab; simpl; [lia |].
    pose proof (Z.mod_pos_bound r (b - a + 1)); lia.
Defined.

(** ** The world: session attributes, object store, generator state *)

Record World (G : Type) : Type := mkWorld {
  game : RacingGame;
  store : list Car;
  rng : G
}.

Arguments mkWorld {G} game store rng.
Arguments game {G} w.
Arguments store {G} w.
Arguments rng {G} w.

(** One frame's input: the queued events and the key state. *)
Record FrameInput : Type := mkInput {
  events : list Event;
  keys : Keys
}.

(** The first [list.remove(o)]: drops the first occurrence of [o], raises
    [ValueError] when there is none. *)
Fixpoint list_remove (o : ref) (l : list ref) : result (list ref) :=
  match l with
  | [] => Raise ValueError
  | h :: t =>
      if Nat.eqb h o then Ok t
      else let? t' := list_remove o t in Ok (h :: t')
  end.

(** ** [Car] *)

(** [Car.__init__]; the rectangle is
    [pygame.Rect(x - width // 2, y - height // 2, width, height)]. *)
Definition Car_new (x : float) (y w h : Z) (color : Color) : result Car :=
  let? hw := float_of_int (w / 2) in
  Ok (mkCar x y w h color
            (mkRect (rect_coord (PyFloat.sub x hw)) (y - h / 2) w h)).

(** The object after [Car.update(dx, dy)]: the centre moves, the rectangle's
    corner is recomputed, its size is kept. *)
Definition Car_moved (c : Car) (dx dy : Z) : result Car :=
  let? fdx := float_of_int dx in
  let x' := PyFloat.add (car_x c) fdx in
  let y' := car_y c + dy in
  let? hw := float_of_int (car_width c / 2) in
  Ok (mkCar x' y' (car_width c) (car_height c) (car_color c)
            (mkRect (rect_coord (PyFloat.sub x' hw)) (y' - car_height c / 2)
                    (rect_w (car_rect c)) (rect_h (car_rect c)))).

(** The assignments of [_reset_game] to the player's car. *)
Definition Car_placed (c : Car) (x : float) (y : Z) : result Car :=
  let? hw := float_of_int (car_width c / 2) in
  Ok (mkCar x y (car_width c) (car_height c) (car_color c)
            (mkRect (rect_coord (PyFloat.sub x hw)) (y - car_height c / 2)
                    (rect_w (car_rect c)) (rect_h (car_rect c)))).

(** [track_left + lane_width * (lane + 0.5)]. *)
Definition lane_center (tl : Z) (lw : float) (lane : Z) : result float :=
  let? fl := float_of_int lane in
  let? ftl := float_of_int tl in
  Ok (PyFloat.add ftl (PyFloat.mul lw (PyFloat.add fl PyFloat.half))).

(** [int(track_left + lane * lane_width)]. *)
Definition marker_x (tl : Z) (lw : float) (lane : Z) : result Z :=
  let? fl := float_of_int lane in
  let? ftl := float_of_int tl in
  py_int (PyFloat.add ftl (PyFloat.mul fl lw)).

Definition is_return (k : Key) : bool :=
  match k with K_RETURN => true | _ => false end.

Definition is_escape (k : Key) : bool :=
  match k with K_ESCAPE => true | _ => false end.

(** How the first loop of [_update_obstacles] ends: by [return] after a
    collision, or by running to the end with the list of obstacles to drop. *)
Inductive loop_exit : Type :=
| Returned
| Completed (obstacles_to_remove : list ref).

(** ** The monad of methods: state and exceptions *)

Section Program.

Context {G : Type} {RS : RandomSource G}.

Definition M (A : Type) : Type := World G -> result (A * World G).

Definition ret {A : Type} (a : A) : M A := fun w => Ok (a, w).

Definition bind {A B : Type} (c : M A) (k : A -> M B) : M B :=
  fun w =>
    match c w with
    | Ok (a, w') => k a w'
    | Raise e => Raise e
    | Stuck => Stuck
    end.

Definition lift {A : Type} (r : result A) : M A :=
  fun w =>
    match r with
    | Ok a => Ok (a, w)
    | Raise e => Raise e
    | Stuck => Stuck
    end.

(** Reading and writing the attributes of [self]. *)
Definition gets {A : Type} (f : RacingGame -> A) : M A :=
  fun w => Ok (f (game w), w).

Definition modify (f : RacingGame -> RacingGame) : M unit :=
  fun w => Ok (tt, mkWorld (f (game w)) (store w) (rng w)).

(** Reading, overwriting and creating [Car] objects. *)
Definition deref (r : ref) : M Car :=
  fun w =>
    match store w !! r with
    | Some c => Ok (c, w)
    | None => Stuck
    end.

Definition assign (r : ref) (c : Car) : M unit :=
  fun w =>
    match store w !! r with
    | Some _ => Ok (tt, mkWorld (game w) (<[r := c]> (store w)) (rng w))
    | None => Stuck
    end.

Definition alloc (c : Car) : M ref :=
  fun w => Ok (length (store w), mkWorld (game w) (store w ++ [c]) (rng w)).

(** One draw from the random source. *)
Definition draw {A : Type} (f : G -> A * G) : M A :=
  fun w => let '(a, g) := f (rng w) in Ok (a, mkWorld (game w) (store w) g).

Notation "'do' x <- c ;; k" := (bind c (fun x => k))
  (at level 10, x name, c at level 99, k at level 200).
Notation "c ;; k" := (bind c (fun _ => k))
  (at level 100, k at level 200, right associativity).

(** A [for] loop whose body neither breaks nor returns. *)
Fixpoint for_each {A : Type} (l : list A) (body : A -> M unit) : M unit :=
  match l with
  | [] => ret tt
  | a :: l' => body a ;; for_each l' body
  end.

(** [random.randrange(n)] and [random.randint(a, b)]: an empty range raises
    [ValueError]. *)
Definition py_randrange (n : Z) : M Z :=
  if 0 <? n then draw (randrange n) else lift (Raise ValueError).

Definition py_randint (a b : Z) : M Z :=
  if a <=? b then draw (randint a b) else lift (Raise ValueError).

(** ** [Car] methods on the store *)

Definition Car_init (x : float) (y w h : Z) (color : Color) : M ref :=
  do c <- lift (Car_new x y w h color) ;;
  alloc c.

Definition Car_update (r : ref) (dx dy : Z) : M unit :=
  do c <- deref r ;;
  do c' <- lift (Car_moved c dx dy) ;;
  assign r c'.

(** ** [RacingGame] helper methods *)

Definition _lane_center (lane : Z) : M float :=
  do tl <- gets track_left ;;
  do lw <- gets lane_width ;;
  lift (lane_center tl lw lane).

Definition _next_spawn_delay : M Z :=
  do range <- gets spawn_cooldown_range ;;
  py_randint (fst range) (snd range).

Definition _check_collision (obstacle : ref) : M bool :=
  do p <- gets player_car ;;
  do pc <- deref p ;;
  do oc <- deref obstacle ;;
  ret (colliderect (car_rect pc) (car_rect oc)).

Definition _game_over : M unit := modify (set_game_over true).

Definition _reset_game : M unit :=
  modify (set_game_over false) ;;
  modify (set_obstacles []) ;;
  modify (set_score PyFloat.zero) ;;
  do delay <- _next_spawn_delay ;;
  modify (set_spawn_timer delay) ;;
  do x <- _lane_center 1 ;;
  do cfg <- gets config ;;
  let y := height cfg - 80 in
  do p <- gets player_car ;;
  do c <- deref p ;;
  do c' <- lift (Car_placed c x y) ;;
  assign p c'.

(** ** Initialisation *)

(** The body of the outer loop of [_init_lane_markers]: the markers of one
    lane boundary. *)
Definition marker_column (cfg : GameConfig) (lane : Z) : M unit :=
  do tl <- gets track_left ;;
  do lw <- gets lane_width ;;
  do x <- lift (marker_x tl lw lane) ;;
  do ys <- lift (py_range (- lane_marker_length cfg)
                          (height cfg + lane_marker_length cfg)
                          (lane_marker_length cfg + lane_marker_gap cfg)) ;;
  for_each ys (fun y =>
    modify (fun g => set_lane_markers (lane_markers g ++ [(x, y)]) g)).

Definition _init_lane_markers : M unit :=
  do cfg <- gets config ;;
  do lanes <- lift (py_range 1 (lane_count cfg) 1) ;;
  for_each lanes (marker_column cfg).

(** [RacingGame.__init__]: [config or GameConfig()], the track, the player's
    car (the first and so far only object of the store, reference 0), the
    session variables with a first spawn delay, then the lane markers. *)
Definition RacingGame_init (config : option GameConfig) (g : G)
  : result (World G) :=
  let cfg := match config with Some c => c | None => default_config end in
  let tl := border_x cfg in
  let tr := width cfg - border_x cfg in
  let? lw := int_truediv (tr - tl) (lane_count cfg) in
  let? cw := py_int (PyFloat.mul lw PyFloat.f0_6) in
  let? cx := lane_center tl lw 1 in
  let? car := Car_new cx (height cfg - 80) cw 40 color_player_car in
  let self := mkGame cfg tl tr lw 5 3 3 (60, 120) 0%nat [] []
                     PyFloat.zero 0 true false in
  let? r :=
    (do delay <- _next_spawn_delay ;;
     modify (set_spawn_timer delay) ;;
     _init_lane_markers) (mkWorld self [car] g) in
  Ok (snd r).

(** ** The per-frame methods *)

Definition handle_event (e : Event) : M unit :=
  match e with
  | QUIT => modify (set_running false)
  | KEYDOWN key =>
      do over <- gets game_over ;;
      if is_return key && over then _reset_game
      else if is_escape key then modify (set_running false)
      else ret tt
  | OTHER_EVENT => ret tt
  end.

Definition handle_events (evs : list Event) : M unit :=
  for_each evs handle_event.

Definition _update_car (keys : Keys) : M unit :=
  do speed <- gets car_speed ;;
  let dx :=
    if pressed_left keys && negb (pressed_right keys) then - speed
    else if pressed_right keys && negb (pressed_left keys) then speed
    else 0 in
  if dx =? 0 then ret tt
  else
    do p <- gets player_car ;;
    do c <- deref p ;;
    do fdx <- lift (float_of_int dx) ;;
    let new_x := PyFloat.add (car_x c) fdx in
    do hw <- lift (float_of_int (car_width c / 2)) ;;
    do tl <- gets track_left ;;
    do tr <- gets track_right ;;
    if PyFloat.ge_int (PyFloat.sub new_x hw) tl
       && PyFloat.le_int (PyFloat.add new_x hw) tr
    then Car_update p dx 0
    else ret tt.

(** The loop over [enumerate(self.lane_markers)]: step [i] reads entry [i]
    of the list as it is then and overwrites it. *)
Fixpoint markers_loop (steps i : nat) : M unit :=
  match steps with
  | O => ret tt
  | S steps' =>
      do ms <- gets lane_markers ;;
      match ms !! i with
      | None => ret tt
      | Some (x, y) =>
          do speed <- gets road_scroll_speed ;;
          do cfg <- gets config ;;
          let new_y := y + speed in
          let new_y := if height cfg <? new_y then - lane_marker_length cfg
                       else new_y in
          modify (set_lane_markers (<[i := (x, new_y)]> ms)) ;;
          markers_loop steps' (S i)
      end
  end.

Definition _update_lane_markers : M unit :=
  do ms <- gets lane_markers ;;
  markers_loop (length ms) 0.

(** The first loop of [_update_obstacles]. *)
Fixpoint obstacles_pass (obs : list ref) (to_remove : list ref)
  : M loop_exit :=
  match obs with
  | [] => ret (Completed to_remove)
  | obstacle :: rest =>
      do speed <- gets obstacle_speed ;;
      Car_update obstacle 0 speed ;;
      do c <- deref obstacle ;;
      do cfg <- gets config ;;
      if height cfg <? car_y c
      then obstacles_pass rest (to_remove ++ [obstacle])
      else
        do hit <- _check_collision obstacle ;;
        if hit then _game_over ;; ret Returned
        else obstacles_pass rest to_remove
  end.

Definition _update_obstacles : M unit :=
  do obs <- gets obstacles ;;
  do exit <- obstacles_pass obs [] ;;
  match exit with
  | Returned => ret tt
  | Completed to_remove =>
      for_each to_remove (fun obstacle =>
        do cur <- gets obstacles ;;
        do cur' <- lift (list_remove obstacle cur) ;;
        modify (set_obstacles cur'))
  end.

Definition _maybe_spawn_obstacle : M unit :=
  do t <- gets spawn_timer ;;
  modify (set_spawn_timer (t - 1)) ;;
  do t' <- gets spawn_timer ;;
  if t' <=? 0 then
    do cfg <- gets config ;;
    do lane <- py_randrange (lane_count cfg) ;;
    do lw <- gets lane_width ;;
    do w <- lift (py_int (PyFloat.mul lw PyFloat.f0_6)) ;;
    let h := 50 in
    do x <- _lane_center lane ;;
    let y := - h in
    do obstacle <- Car_init x y w h color_enemy_car ;;
    modify (fun g => set_obstacles (obstacles g ++ [obstacle]) g) ;;
    do delay <- _next_spawn_delay ;;
    modify (set_spawn_timer delay)
  else ret tt.

Definition _update_score : M unit :=
  do s <- gets score ;;
  do cfg <- gets config ;;
  do q <- lift (float_div_int PyFloat.one (fps cfg)) ;;
  modify (set_score (PyFloat.add s q)).

Definition update (keys : Keys) : M unit :=
  do over <- gets game_over ;;
  if negb over then
    _update_car keys ;;
    _update_lane_markers ;;
    _update_obstacles ;;
    _maybe_spawn_obstacle ;;
    _update_score
  else ret tt.

(** One turn of the loop of [run]: [draw] and [clock.tick] do not touch the
    state. *)
Definition frame (i : FrameInput) : M unit :=
  handle_events (events i) ;;
  update (keys i).

(** [run] over a script of frame inputs: the loop goes on [while
    self.running]. *)
Fixpoint run (inputs : list FrameInput) : M unit :=
  match inputs with
  | [] => ret tt
  | i :: rest =>
      do on <- gets running ;;
      if on then frame i ;; run rest else ret tt
  end.

End Program.

(** ** Vocabulary of the specification *)

Section Vocabulary.

Context {G : Type} {RS : RandomSource G}.

(** The rectangle of a car is the one its centre and size determine: the
    left edge is the truncated [x - width // 2], the top edge is
    [y - height // 2], the size is the car's. *)
Definition rect_derived (c : Car) : Prop :=
  exists hw,
    float_of_int (car_width c / 2) = Ok hw /\
    rect_x (car_rect c) = rect_coord (PyFloat.sub (car_x c) hw) /\
    rect_y (car_rect c) = car_y c - car_height c / 2 /\
    rect_w (car_rect c) = car_width c /\
    rect_h (car_rect c) = car_height c.


(** The invariant of the session: references are live and not aliased,
    every car's rectangle is derived from its centre and size, the player
    sits 80 pixels above the bottom with height 40, obstacles have height
    50, and the constants of [__init__] are in place. *)
Record wf (w : World G) : Prop := mkWf {
  wf_player : (player_car (game w) < length (store w))%nat;
  wf_obstacles :
    Forall (fun r => (r < length (store w))%nat) (obstacles (game w));
  wf_nodup : NoDup (obstacles (game w));
  wf_player_apart : player_car (game w) ∉ obstacles (game w);
  wf_rects : Forall rect_derived (store w);
  wf_player_geom :
    forall c, store w !! player_car (game w) = Some c ->
              car_y c = height (config (game w)) - 80 /\ car_height c = 40;
  wf_obstacle_geom :
    forall r c, r ∈ obstacles (game w) -> store w !! r = Some c ->
                car_height c = 50;
  wf_speeds :
    car_speed (game w) = 5 /\ road_scroll_speed (game w) = 3 /\
    obstacle_speed (game w) = 3;
  wf_cooldown : spawn_cooldown_range (game w) = (60, 120);
  wf_track :
    track_left (game w) = border_x (config (game w)) /\
    track_right (game w) = width (config (game w)) - border_x (config (game w));
  wf_track_fits : Z.abs (track_left (game w)) < PyFloat.int_limit;
  wf_car_width :
    exists cw, py_int (PyFloat.mul (lane_width (game w)) PyFloat.f0_6) = Ok cw /\
               Z.abs (cw / 2) < PyFloat.int_limit
}.

Definition config_of (w : World G) : GameConfig := config (game w).

(** States at the start of a turn of the main loop. *)
Definition reachable (w : World G) : Prop :=
  exists config g inputs w0,
    RacingGame_init config g = Ok w0 /\ run inputs w0 = Ok (tt, w).

(** The rectangle obstacle [r] has once [Car.update(0, obstacle_speed)] has
    moved it, tested against the player's rectangle. *)
Definition overlaps_after_move (w : World G) (r : ref) : bool :=
  match store w !! player_car (game w), store w !! r with
  | Some pc, Some c =>
      match Car_moved c 0 (obstacle_speed (game w)) with
      | Ok c' => colliderect (car_rect pc) (car_rect c')
      | _ => false
      end
  | _, _ => false
  end.

(** Obstacle [r] has its centre below the bottom of the screen. *)
Definition centre_below (w : World G) (r : ref) : bool :=
  match store w !! r with
  | Some c => height (config (game w)) <? car_y c
  | None => false
  end.

(** Obstacle [r] has its top edge below the bottom of the screen. *)
Definition top_edge_below (w : World G) (r : ref) : bool :=
  match store w !! r with
  | Some c => height (config (game w)) <? car_y c - car_height c / 2
  | None => false
  end.

(** The horizontal move the key state asks for. *)
Definition requested_dx (g : RacingGame) (keys : Keys) : Z :=
  if pressed_left keys && negb (pressed_right keys) then - car_speed g
  else if pressed_right keys && negb (pressed_left keys) then car_speed g
  else 0.

(** The bounds test of [_update_car] on the car [c] moved by [dx]. *)
Definition move_fits (g : RacingGame) (c : Car) (dx : Z) : result bool :=
  let? fdx := float_of_int dx in
  let? hw := float_of_int (car_width c / 2) in
  let new_x := PyFloat.add (car_x c) fdx in
  Ok (PyFloat.ge_int (PyFloat.sub new_x hw) (track_left g)
      && PyFloat.le_int (PyFloat.add new_x hw) (track_right g)).

(** Obstacle [r] of [w] is the car [c'] once moved. *)
Definition moved_to (w : World G) (r : ref) (c' : Car) : Prop :=
  exists c, store w !! r = Some c /\
            Car_moved c 0 (obstacle_speed (game w)) = Ok c'.

(** A configuration the per-frame methods accept: at least one lane, a
    frame rate other than zero, both convertible to floats. *)
Definition playable (cfg : GameConfig) : Prop :=
  0 < lane_count cfg < PyFloat.int_limit /\
  fps cfg <> 0 /\ Z.abs (fps cfg) < PyFloat.int_limit.

(** The rectangle lies on the road, between the two track bounds. *)
Definition rect_in_track (g : RacingGame) (r : Rect) : Prop :=
  track_left g <= rect_x r /\ rect_x r + rect_w r <= track_right g.

(** The player's car of the default game when its centre is the integer
    [z]: 55 wide, 40 high, 80 pixels above the bottom of the screen. *)
Definition default_player (z : Z) : Car :=
  mkCar (PyFloat.round_int z) 520 55 40 color_player_car
        (mkRect (z - 27) 500 55 40).

(** The centres the default player can take: 90, 95, ..., 310. *)
Definition default_centres : list Z :=
  map (fun k : nat => 90 + 5 * Z.of_nat k) (seq 0 45).

(** A session of the default game: the configuration and the lane width of
    [__init__], the player's car on one of the centres above. *)
Definition default_session (w : World G) : Prop :=
  wf w /\
  config (game w) = default_config /\
  lane_width (game w) = S754_finite false 6567749456581973 (-46) /\
  exists z, In z default_centres /\
            store w !! player_car (game w) = Some (default_player z).

(** [w'] has the configuration, the lane width and the player's car of
    [w]. *)
Definition same_player (w w' : World G) : Prop :=
  config (game w') = config (game w) /\
  lane_width (game w') = lane_width (game w) /\
  player_car (game w') = player_car (game w) /\
  store w' !! player_car (game w) = store w !! player_car (game w).

(** The call came back with a value: no exception, no dangling reference. *)
Definition returns {A : Type} (r : result A) : bool :=
  match r with Ok _ => true | _ => false end.

(** No event of these inputs is the restart key. *)
Definition no_restart (inputs : list FrameInput) : Prop :=
  Forall (fun i => Forall (fun e => e <> KEYDOWN K_RETURN) (events i)) inputs.

(** One step of a lane marker. *)
Definition marker_step (g : RacingGame) (m : Z * Z) : Z * Z :=
  let new_y := snd m + road_scroll_speed g in
  (fst m, if height (config g) <? new_y then - lane_marker_length (config g)
          else new_y).

Definition marker_in_range (cfg : GameConfig) (m : Z * Z) : Prop :=
  - lane_marker_length cfg <= snd m <= height cfg.

End Vocabulary.

(** ** Concrete sessions, driven by a scripted random source *)

Definition blank_world : World (list Z) :=
  mkWorld (mkGame default_config 0 0 PyFloat.zero 0 0 0 (0, 0) 0%nat [] []
                  PyFloat.zero 0 false false) [] [].

Definition world_of {A : Type} (r : result (A * World (list Z)))
  : World (list Z) :=
  match r with
  | Ok (_, w) => w
  | _ => blank_world
  end.

(** The session a configuration and a script of draws start. *)
Definition start (config : option GameConfig) (script : list Z)
  : World (list Z) :=
  match RacingGame_init config script with
  | Ok w => w
  | _ => blank_world
  end.

(** [n] frames with the given keys held and no event. *)
Definition hold (k : Keys) (n : nat) : list FrameInput :=
  repeat (mkInput [] k) n.

(** The session after the frames [inputs]. *)
Definition play (config : option GameConfig) (script : list Z)
           (inputs : list FrameInput) : World (list Z) :=
  world_of (run inputs (start config script)).

(** The default game with first delays 60, 60 and 116: obstacles appear in
    the player's lane at frame 60 and in lane 0 at frame 120; the first one
    reaches the player in frame 236, when the spawn timer runs out again. *)
Definition crash_script : list Z := [0; 1; 0; 0; 56; 2; 0].

Definition before_crash : World (list Z) :=
  play None crash_script (hold no_keys 235).

Definition after_crash : World (list Z) :=
  play None crash_script (hold no_keys 236).


(** The default game with every obstacle in lane 0, a delay of 60 frames
    each time; the player stays in the middle lane. *)
Definition calm_script : list Z := [0; 0; 0; 0; 0; 0; 0; 0; 0; 0; 0; 0].

(** Frame 277 of that game: the first obstacle, spawned in frame 60, has
    its centre at 598 before the frame and at 601 after it. *)
Definition before_exit : World (list Z) :=
  play None calm_script (hold no_keys 276).

Definition after_exit : World (list Z) :=
  play None calm_script (hold no_keys 277).

Definition exit_pass : World (list Z) :=
  world_of (_update_obstacles before_exit).



(** The second and third frame of that game. *)
Definition after_two : World (list Z) :=
  play None calm_script (hold no_keys 2).

Definition after_three : World (list Z) :=
  play None calm_script (hold no_keys 3).

(** The start of that game with the score at 2^53. *)
Definition huge_score : float := S754_finite false 4503599627370496 1.

Definition late_session : World (list Z) :=
  mkWorld (set_score huge_score (game (start None calm_script)))
          (store (start None calm_script)) (rng (start None calm_script)).

Definition late_frame : World (list Z) :=
  world_of (update no_keys late_session).

(** A track 86 pixels wide, on which the player's car is 17 pixels wide. *)
Definition narrow_config : GameConfig :=
  {| width := 206; height := 600; lane_count := 3; border_x := 60;
     lane_marker_length := 48; lane_marker_gap := 80; fps := 60 |}.

(** On that track, the right key held for six and for seven frames. *)
Definition near_right_edge : World (list Z) :=
  play (Some narrow_config) calm_script (hold hold_right 6).

Definition at_right_edge : World (list Z) :=
  play (Some narrow_config) calm_script (hold hold_right 7).

(** The player's car in these two sessions: centred at x = 133 and at
    x = 138. *)
Definition near_edge_car : Car :=
  mkCar (S754_finite false 4679521487814656 (-45)) 520 17 40
        color_player_car (mkRect 125 500 17 40).

Definition edge_car : Car :=
  mkCar (S754_finite false 4855443348258816 (-45)) 520 17 40
        color_player_car (mkRect 130 500 17 40).

(** The default game with the right key held for thirty frames: after 22
    moves the player is centred at x = 310 and the next moves are
    rejected. *)
Definition right_lane_session : World (list Z) :=
  play None calm_script (hold hold_right 30).

(** Markers 130 pixels apart instead of 128. *)
Definition wide_gap_config : GameConfig :=
  {| width := 400; height := 600; lane_count := 3; border_x := 60;
     lane_marker_length := 48; lane_marker_gap := 82; fps := 60 |}.

(** ** The claims that fail, as they are stated *)

Section AsStated.

Context {G : Type} {RS : RandomSource G}.

(** A frame with a collision leaves score, spawn timer and obstacle list as
    they were. *)
Definition collision_halts_frame : Prop :=
  forall (w w' : World G) (keys : Keys),
    reachable w -> game_over (game w) = false ->
    update keys w = Ok (tt, w') -> game_over (game w') = true ->
    score (game w') = score (game w) /\
    spawn_timer (game w') = spawn_timer (game w) /\
    obstacles (game w') = obstacles (game w).

(** An obstacle leaves the list exactly when its top edge is below the
    bottom of the screen. *)
Definition removed_iff_top_edge_below : Prop :=
  forall (w w' : World G) (keys : Keys),
    reachable w -> game_over (game w) = false ->
    update keys w = Ok (tt, w') ->
    forall r, r ∈ obstacles (game w) ->
      (r ∉ obstacles (game w') <-> top_edge_below w' r = true).

(** Markers are in range right after initialisation and after every
    update. *)
Definition markers_always_in_range : Prop :=
  (forall (config : option GameConfig) (g : G) (w : World G),
     RacingGame_init config g = Ok w ->
     Forall (marker_in_range (config_of w)) (lane_markers (game w))) /\
  (forall (w w' : World G) (keys : Keys),
     reachable w -> update keys w = Ok (tt, w') ->
     Forall (marker_in_range (config_of w')) (lane_markers (game w'))).

(** In a running frame the score goes up, and the difference between the
    new and the old score is [1 / fps]. *)
Definition score_rises_by_frame_time : Prop :=
  forall (w w' : World G) (keys : Keys),
    reachable w -> game_over (game w) = false ->
    update keys w = Ok (tt, w') ->
    PyFloat.ltb (score (game w)) (score (game w')) = true /\
    float_div_int PyFloat.one (fps (config_of w))
    = Ok (PyFloat.sub (score (game w')) (score (game w))).

(** In a running frame the score goes up, whatever it was. *)
Definition score_always_rises : Prop :=
  forall (w w' : World G) (keys : Keys),
    wf w -> game_over (game w) = false ->
    update keys w = Ok (tt, w') ->
    PyFloat.ltb (score (game w)) (score (game w')) = true.


End AsStated.
(** ** Vocabulary of the session invariants *)

Section SessionVocabulary.

Context {G : Type} {RS : RandomSource G}.

(** The configuration a call of [RacingGame(config)] works with. *)
Definition config_or_default (conf : option GameConfig) : GameConfig :=
  match conf with Some c => c | None => default_config end.

(** An event that ends the main loop: closing the window or pressing
    Escape. *)
Definition is_quit (e : Event) : bool :=
  match e with
  | QUIT => true
  | KEYDOWN K_ESCAPE => true
  | _ => false
  end.

(** The rectangle of obstacle [r] overlaps the player's, as
    [_check_collision] would find now. *)
Definition overlaps_now (w : World G) (r : ref) : bool :=
  match store w !! player_car (game w), store w !! r with
  | Some pc, Some c => colliderect (car_rect pc) (car_rect c)
  | _, _ => false
  end.

(** The centre height of obstacle [r]. *)
Definition obstacle_y (w : World G) (r : ref) : Z :=
  match store w !! r with
  | Some c => car_y c
  | None => 0
  end.

(** The centre heights of the obstacles, in list order (oldest first). *)
Definition obstacle_ys (w : World G) : list Z :=
  map (obstacle_y w) (obstacles (game w)).

(** Every entry is at least [gap] above all the entries before it. *)
Fixpoint spaced (gap : Z) (ys : list Z) : Prop :=
  match ys with
  | [] => True
  | y :: rest => Forall (fun y' => y' + gap <= y) rest /\ spaced gap rest
  end.

(** The invariant behind the spacing of the obstacles.  In every state the
    obstacles are between the spawn height and the bottom of the screen and
    at least 177 pixels apart; while the game runs they are 180 apart and
    the newest one is far enough down for the next one to keep that
    distance when the timer runs out. *)
Definition spread_out (cfg : GameConfig) (w : World G) : Prop :=
  wf w /\
  config (game w) = cfg /\
  1 <= spawn_timer (game w) <= 120 /\
  spaced 177 (obstacle_ys w) /\
  Forall (fun y => - 50 <= y <= height cfg) (obstacle_ys w) /\
  (game_over (game w) = false ->
   spaced 180 (obstacle_ys w) /\
   Forall (fun y => 130 <= y + 3 * spawn_timer (game w)) (obstacle_ys w)).

(** The markers of the lane boundaries at the [xs], each with a marker at
    every height of [ys]: the list the two loops of [_init_lane_markers]
    build. *)
Definition marker_grid (xs ys : list Z) : list (Z * Z) :=
  flat_map (fun x => map (fun y => (x, y)) ys) xs.

(** The lane width of the default game, 280 / 3. *)
Definition default_lane_width : float :=
  S754_finite false 6567749456581973 (-46).




(** The attributes [__init__] sets once and for all. *)
Definition same_constants (g0 g1 : RacingGame) : Prop :=
  config g1 = config g0 /\
  track_left g1 = track_left g0 /\
  track_right g1 = track_right g0 /\
  lane_width g1 = lane_width g0 /\
  car_speed g1 = car_speed g0 /\
  road_scroll_speed g1 = road_scroll_speed g0 /\
  obstacle_speed g1 = obstacle_speed g0 /\
  spawn_cooldown_range g1 = spawn_cooldown_range g0 /\
  player_car g1 = player_car g0.

End SessionVocabulary.

(** ** More concrete sessions *)

(** Marker length and gap that add up to zero. *)
Definition zero_step_config : GameConfig :=
  {| width := 400; height := 600; lane_count := 3; border_x := 60;
     lane_marker_length := 48; lane_marker_gap := - 48; fps := 60 |}.




(** A turn in which the window is closed while the right key is held. *)
Definition closing_turn : FrameInput := mkInput [QUIT] hold_right.

(** The quiet default game after 300 frames: the first obstacle has left,
    four more are on their way. *)
Definition busy_session : World (list Z) :=
  play None calm_script (hold no_keys 300).

(** * Verified properties *)

(** ** The arithmetic agrees with CPython on the program's numbers *)

Example lit_0_6 :
  PyFloat.div (PyFloat.raw_int 6) (PyFloat.raw_int 10) = PyFloat.f0_6.
Proof. vm_compute. reflexivity. Qed.

Example lit_0_5 :
  PyFloat.div (PyFloat.raw_int 1) (PyFloat.raw_int 2) = PyFloat.half.
Proof. vm_compute. reflexivity. Qed.

Example lit_1_0 : PyFloat.round_int 1 = PyFloat.one.
Proof. vm_compute. reflexivity. Qed.

Example truediv_280_3 :
  int_truediv 280 3 = Ok (S754_finite false 6567749456581973 (-46)).
Proof. vm_compute. reflexivity. Qed.

Example car_width_default :
  py_int (PyFloat.mul (S754_finite false 6567749456581973 (-46)) PyFloat.f0_6)
  = Ok 55.
Proof. vm_compute. reflexivity. Qed.

Example range_markers :
  py_range (-48) (600 + 48) (48 + 80) = Ok [-48; 80; 208; 336; 464; 592].
Proof. vm_compute. reflexivity. Qed.

Example range_down : py_range 5 0 (-2) = Ok [5; 3; 1].
Proof. vm_compute. reflexivity. Qed.

Example range_empty : py_range 5 0 2 = Ok [].
Proof. vm_compute. reflexivity. Qed.

(** ** Running monadic code *)

Section Monad.

Context {G : Type} {RS : RandomSource G}.

Lemma bind_ok {A B : Type} (c : M A) (k : A -> M B) (w w' : World G) (b : B) :
  bind c k w = Ok (b, w') ->
  exists a w1, c w = Ok (a, w1) /\ k a w1 = Ok (b, w').
Proof.
  unfold bind. destruct (c w) as [[a w1]| |]; try discriminate.
  intros H. exists a, w1. split; [reflexivity | exact H].
Qed.

Lemma bind_eq {A B : Type} (c : M A) (k : A -> M B) (w w1 : World G) (a : A) :
  c w = Ok (a, w1) -> bind c k w = k a w1.
Proof. unfold bind. intros ->. reflexivity. Qed.

Lemma lift_ok {A : Type} (r : result A) (w w' : World G) (a : A) :
  lift r w = Ok (a, w') -> r = Ok a /\ w' = w.
Proof.
  unfold lift. destruct r; try discriminate.
  intros H. injection H as -> ->. split; reflexivity.
Qed.

Lemma deref_ok (r : ref) (w w' : World G) (c : Car) :
  deref r w = Ok (c, w') -> store w !! r = Some c /\ w' = w.
Proof.
  unfold deref. destruct (store w !! r); try discriminate.
  intros H. injection H as -> ->. split; reflexivity.
Qed.

Lemma assign_ok (r : ref) (c : Car) (w w' : World G) (u : unit) :
  assign r c w = Ok (u, w') ->
  (r < length (store w))%nat /\
  w' = mkWorld (game w) (<[r := c]> (store w)) (rng w).
Proof.
  unfold assign. destruct (store w !! r) eqn:E; try discriminate.
  intros H. injection H as _ <-. split; [| reflexivity].
  eapply lookup_lt_Some, E.
Qed.

Lemma rbind_ok {A B : Type} (r : result A) (k : A -> result B) (b : B) :
  rbind r k = Ok b -> exists a, r = Ok a /\ k a = Ok b.
Proof.
  destruct r; simpl; try discriminate. intros H. eauto.
Qed.

End Monad.

(** Symbolic execution of a successful run, one bind at a time. *)
Ltac step_prim E :=
  first
    [ apply lift_ok in E; destruct E as [E ->]
    | apply deref_ok in E; destruct E as [E ->]
    | apply assign_ok in E; destruct E as [E ->]
    | (unfold gets, modify, ret, alloc in E; injection E as <- <-)
    | idtac ].

Ltac step H :=
  let a := fresh "a" in
  let w1 := fresh "w" in
  let E := fresh "E" in
  apply bind_ok in H; destruct H as (a & w1 & E & H);
  step_prim E; cbv beta in H.

Ltac steps H := repeat step H.

(** The same, keeping the equation of the first computation under a name. *)
Ltac step_as H E :=
  let a := fresh "a" in
  let w1 := fresh "w" in
  apply bind_ok in H; destruct H as (a & w1 & E & H);
  try (match type of a with unit => destruct a end); cbv beta in H.

(** ** What each method does when it returns *)

Section Methods.

Context {G : Type} {RS : RandomSource G}.

Lemma draw_ok {A : Type} (f : G -> A * G) (w w' : World G) (a : A) :
  draw f w = Ok (a, w') ->
  exists g, f (rng w) = (a, g) /\ w' = mkWorld (game w) (store w) g.
Proof.
  unfold draw. destruct (f (rng w)) as [a0 g]. intros H.
  injection H as -> <-. exists g. split; reflexivity.
Qed.

Lemma py_randrange_ok (n : Z) (w w' : World G) (v : Z) :
  py_randrange n w = Ok (v, w') ->
  0 < n /\
  exists g, randrange n (rng w) = (v, g) /\ w' = mkWorld (game w) (store w) g.
Proof.
  unfold py_randrange. destruct (0 <? n) eqn:E.
  - intros H. apply draw_ok in H. split; [lia | exact H].
  - intros H. apply lift_ok in H. destruct H; discriminate.
Qed.

Lemma py_randint_ok (a b : Z) (w w' : World G) (v : Z) :
  py_randint a b w = Ok (v, w') ->
  a <= b /\
  exists g, randint a b (rng w) = (v, g) /\ w' = mkWorld (game w) (store w) g.
Proof.
  unfold py_randint. destruct (a <=? b) eqn:E.
  - intros H. apply draw_ok in H. split; [lia | exact H].
  - intros H. apply lift_ok in H. destruct H; discriminate.
Qed.

Lemma next_spawn_delay_ok (w w' : World G) (v : Z) :
  _next_spawn_delay w = Ok (v, w') ->
  fst (spawn_cooldown_range (game w)) <= snd (spawn_cooldown_range (game w)) /\
  exists g,
    randint (fst (spawn_cooldown_range (game w)))
            (snd (spawn_cooldown_range (game w))) (rng w) = (v, g) /\
    w' = mkWorld (game w) (store w) g.
Proof.
  unfold _next_spawn_delay. intros H. step H.
  apply py_randint_ok in H. exact H.
Qed.

Lemma lane_center_method_ok (lane : Z) (w w' : World G) (x : float) :
  _lane_center lane w = Ok (x, w') ->
  lane_center (track_left (game w)) (lane_width (game w)) lane = Ok x /\ w' = w.
Proof.
  unfold _lane_center. intros H. steps H. apply lift_ok in H. exact H.
Qed.

Lemma Car_init_ok (x : float) (y cw h : Z) (col : Color) (w w' : World G)
      (r : ref) :
  Car_init x y cw h col w = Ok (r, w') ->
  exists car, Car_new x y cw h col = Ok car /\ r = length (store w) /\
              w' = mkWorld (game w) (store w ++ [car]) (rng w).
Proof.
  unfold Car_init. intros H. step H.
  unfold alloc in H. injection H as <- <-. eauto.
Qed.

Lemma Car_update_ok (r : ref) (dx dy : Z) (w w' : World G) :
  Car_update r dx dy w = Ok (tt, w') ->
  exists c c', store w !! r = Some c /\ Car_moved c dx dy = Ok c' /\
               w' = mkWorld (game w) (<[r := c']> (store w)) (rng w).
Proof.
  unfold Car_update. intros H. steps H.
  apply assign_ok in H. destruct H as [_ ->]. eauto.
Qed.

Lemma update_score_ok (w w' : World G) :
  _update_score w = Ok (tt, w') ->
  exists q, float_div_int PyFloat.one (fps (config (game w))) = Ok q /\
            w' = mkWorld (set_score (PyFloat.add (score (game w)) q) (game w))
                         (store w) (rng w).
Proof.
  unfold _update_score. intros H. steps H.
  unfold modify in H. injection H as <-. eauto.
Qed.

(** [_maybe_spawn_obstacle]: the timer goes down by one; at zero one car is
    created from two draws and appended. *)
Lemma maybe_spawn_ok (w w' : World G) :
  _maybe_spawn_obstacle w = Ok (tt, w') ->
  let t := spawn_timer (game w) - 1 in
  let cfg := config (game w) in
  let range := spawn_cooldown_range (game w) in
  (0 < t /\ w' = mkWorld (set_spawn_timer t (game w)) (store w) (rng w)) \/
  (t <= 0 /\
   exists lane g1 cw x car delay g2,
     0 < lane_count cfg /\
     randrange (lane_count cfg) (rng w) = (lane, g1) /\
     py_int (PyFloat.mul (lane_width (game w)) PyFloat.f0_6) = Ok cw /\
     lane_center (track_left (game w)) (lane_width (game w)) lane = Ok x /\
     Car_new x (- 50) cw 50 color_enemy_car = Ok car /\
     fst range <= snd range /\
     randint (fst range) (snd range) g1 = (delay, g2) /\
     w' = mkWorld
            (set_spawn_timer delay
               (set_obstacles (obstacles (game w) ++ [length (store w)])
                  (set_spawn_timer t (game w))))
            (store w ++ [car]) g2).
Proof.
  unfold _maybe_spawn_obstacle. intros H. steps H. simpl in H.
  destruct (spawn_timer (game w) - 1 <=? 0) eqn:Et.
  - right. split; [lia |].
    step H. step_as H Elane. apply py_randrange_ok in Elane. simpl in Elane.
    destruct Elane as (Hn & g1 & Hdraw & ->).
    step H. step_as H Ecw. apply lift_ok in Ecw. destruct Ecw as [Hcw ->].
    step_as H Ex. apply lane_center_method_ok in Ex. destruct Ex as [Hx ->].
    simpl in Hx, Hcw.
    step_as H Ecar. apply Car_init_ok in Ecar.
    destruct Ecar as (car & Hcar & -> & ->).
    step H. step_as H Ed. apply next_spawn_delay_ok in Ed. simpl in Ed.
    destruct Ed as (Hr & g2 & Hd & ->).
    unfold modify in H. injection H as <-. simpl.
    eexists _, _, _, _, car, _, _.
    repeat split; eassumption.
  - left. split; [lia |].
    unfold ret in H. injection H as <-. reflexivity.
Qed.

(** The marker loop never fails and moves every marker by one step. *)
Lemma markers_loop_eq (post : list (Z * Z)) :
  forall (pre : list (Z * Z)) (w : World G),
    lane_markers (game w) = pre ++ post ->
    markers_loop (length post) (length pre) w
    = Ok (tt, mkWorld (set_lane_markers
                         (pre ++ map (marker_step (game w)) post) (game w))
                      (store w) (rng w)).
Proof.
  induction post as [|[x y] post IH]; intros pre w Hms.
  - simpl. rewrite app_nil_r in *. unfold ret.
    destruct w as [g st r]. destruct g. simpl in *. subst. reflexivity.
  - cbn [markers_loop length].
    unfold bind at 1. unfold gets at 1.
    rewrite Hms. rewrite list_lookup_middle by reflexivity.
    unfold bind at 1. unfold gets at 1.
    unfold bind at 1. unfold gets at 1.
    unfold bind at 1. unfold modify at 1.
    rewrite <- Hms.
    set (m' := (x, if height (config (game w)) <? y + road_scroll_speed (game w)
                   then - lane_marker_length (config (game w))
                   else y + road_scroll_speed (game w))).
    set (w1 := mkWorld (set_lane_markers (<[length pre := m']> (lane_markers (game w))) (game w))
                       (store w) (rng w)).
    assert (Hms1 : lane_markers (game w1) = (pre ++ [m']) ++ post).
    { subst w1. simpl. rewrite Hms.
      rewrite insert_app_r_alt by lia. rewrite Nat.sub_diag. simpl.
      rewrite <- app_assoc. reflexivity. }
    specialize (IH (pre ++ [m']) w1 Hms1).
    rewrite length_app in IH. simpl in IH. rewrite Nat.add_1_r in IH.
    rewrite IH. subst w1. simpl.
    rewrite <- app_assoc. reflexivity.
Qed.

Lemma update_lane_markers_eq (w : World G) :
  _update_lane_markers w
  = Ok (tt, mkWorld (set_lane_markers
                       (map (marker_step (game w)) (lane_markers (game w)))
                       (game w))
                    (store w) (rng w)).
Proof.
  unfold _update_lane_markers, bind, gets.
  apply (markers_loop_eq (lane_markers (game w)) [] w). reflexivity.
Qed.

(** [_update_car]: no request, a rejected request, or the car moved. *)
Lemma update_car_ok (keys : Keys) (w w' : World G) :
  _update_car keys w = Ok (tt, w') ->
  let dx := requested_dx (game w) keys in
  (dx = 0 /\ w' = w) \/
  (dx <> 0 /\
   exists c, store w !! player_car (game w) = Some c /\
     ((move_fits (game w) c dx = Ok false /\ w' = w) \/
      (move_fits (game w) c dx = Ok true /\
       exists c', Car_moved c dx 0 = Ok c' /\
         w' = mkWorld (game w) (<[player_car (game w) := c']> (store w))
                      (rng w)))).
Proof.
  unfold _update_car. intros H. step H. fold (requested_dx (game w) keys) in H.
  simpl. destruct (requested_dx (game w) keys =? 0) eqn:Edx.
  - left. unfold ret in H. injection H as <-. split; [lia | reflexivity].
  - right. split; [lia |].
    step H. step_as H Ec. apply deref_ok in Ec. destruct Ec as [Hc ->].
    step_as H Ef. apply lift_ok in Ef. destruct Ef as [Hf ->].
    step_as H Eh. apply lift_ok in Eh. destruct Eh as [Hh ->].
    steps H. eexists. split; [exact Hc |].
    unfold move_fits. rewrite Hf, Hh. simpl.
    destruct (PyFloat.ge_int _ _ && PyFloat.le_int _ _).
    + right. split; [reflexivity |].
      apply Car_update_ok in H. destruct H as (c & c' & Hc' & Hm & ->).
      rewrite Hc in Hc'. injection Hc' as <-. eauto.
    + left. unfold ret in H. injection H as <-. split; reflexivity.
Qed.

(** One turn of the first loop of [_update_obstacles]. *)
Lemma obstacles_pass_step (o : ref) (rest tr : list ref) (w w' : World G)
      (ex : loop_exit) :
  obstacles_pass (o :: rest) tr w = Ok (ex, w') ->
  exists c', moved_to w o c' /\
    let w1 := mkWorld (game w) (<[o := c']> (store w)) (rng w) in
    if height (config (game w)) <? car_y c'
    then obstacles_pass rest (tr ++ [o]) w1 = Ok (ex, w')
    else exists pc, store w1 !! player_car (game w) = Some pc /\
      if colliderect (car_rect pc) (car_rect c')
      then ex = Returned /\
           w' = mkWorld (set_game_over true (game w)) (store w1) (rng w)
      else obstacles_pass rest tr w1 = Ok (ex, w').
Proof.
  cbn [obstacles_pass]. intros H. step H.
  step_as H Eu. apply Car_update_ok in Eu.
  destruct Eu as (c & c' & Hc & Hm & ->).
  step_as H Ed. apply deref_ok in Ed. destruct Ed as [Hd ->].
  simpl in Hd. rewrite list_lookup_insert_eq in Hd
    by (eapply lookup_lt_Some; exact Hc).
  injection Hd as <-.
  step H. simpl in H. exists c'. split; [exists c; split; assumption |].
  simpl. destruct (height (config (game w)) <? car_y c').
  - exact H.
  - step_as H Ehit. unfold _check_collision in Ehit.
    step Ehit. step_as Ehit Ep. apply deref_ok in Ep. destruct Ep as [Hp ->].
    step_as Ehit Eo. apply deref_ok in Eo. destruct Eo as [Ho ->].
    unfold ret in Ehit. injection Ehit as <- <-.
    simpl in Hp, Ho. rewrite list_lookup_insert_eq in Ho
      by (eapply lookup_lt_Some; exact Hc).
    injection Ho as <-.
    eexists. split; [exact Hp |].
    destruct (colliderect _ (car_rect c')).
    + step H. unfold ret in H. injection H as <- <-. split; reflexivity.
    + exact H.
Qed.

Lemma moved_to_frame (w1 w : World G) (r : ref) (c' : Car) :
  store w1 !! r = store w !! r ->
  obstacle_speed (game w1) = obstacle_speed (game w) ->
  moved_to w1 r c' -> moved_to w r c'.
Proof.
  intros Hs Hv (c & Hc & Hm). exists c. rewrite <- Hs, <- Hv. split; assumption.
Qed.

Lemma overlaps_frame (w1 w : World G) (r : ref) :
  store w1 !! r = store w !! r ->
  player_car (game w1) = player_car (game w) ->
  store w1 !! player_car (game w) = store w !! player_car (game w) ->
  obstacle_speed (game w1) = obstacle_speed (game w) ->
  overlaps_after_move w1 r = overlaps_after_move w r.
Proof.
  intros Hr Hp Hpc Hv. unfold overlaps_after_move.
  rewrite Hp, Hpc, Hr, Hv. reflexivity.
Qed.

Lemma centre_below_eq (w : World G) (r : ref) (c : Car) :
  store w !! r = Some c ->
  centre_below w r = (height (config (game w)) <? car_y c).
Proof. unfold centre_below. intros ->. reflexivity. Qed.

Lemma overlaps_eq (w : World G) (r : ref) (pc c' : Car) :
  store w !! player_car (game w) = Some pc ->
  moved_to w r c' ->
  overlaps_after_move w r = colliderect (car_rect pc) (car_rect c').
Proof.
  intros Hp (c & Hc & Hm). unfold overlaps_after_move.
  rewrite Hp, Hc, Hm. reflexivity.
Qed.

(** The first loop of [_update_obstacles], from a list of distinct
    references that does not hold the player's car. *)
Lemma obstacles_pass_ok (obs : list ref) :
  forall (tr : list ref) (w w' : World G) (ex : loop_exit),
    NoDup obs -> player_car (game w) ∉ obs ->
    obstacles_pass obs tr w = Ok (ex, w') ->
    rng w' = rng w /\
    length (store w') = length (store w) /\
    (forall q, q ∉ obs -> store w' !! q = store w !! q) /\
    match ex with
    | Completed tr' =>
        game w' = game w /\
        tr' = tr ++ List.filter (centre_below w') obs /\
        forall r, r ∈ obs ->
          exists c', moved_to w r c' /\ store w' !! r = Some c' /\
            (centre_below w' r = false -> overlaps_after_move w r = false)
    | Returned =>
        game w' = set_game_over true (game w) /\
        exists pre r post, obs = pre ++ r :: post /\
          (forall q, q ∈ pre ++ [r] ->
             exists c', moved_to w q c' /\ store w' !! q = Some c') /\
          (forall q, q ∈ pre ->
             centre_below w' q = true \/ overlaps_after_move w q = false) /\
          centre_below w' r = false /\
          overlaps_after_move w r = true /\
          (forall q, q ∈ post -> store w' !! q = store w !! q)
    end.
Proof.
  induction obs as [|o rest IH]; intros tr w w' ex Hnd Hp H.
  - simpl in H. unfold ret in H. injection H as <- <-.
    repeat split; try reflexivity.
    + simpl. rewrite app_nil_r. reflexivity.
    + intros r Hr. inversion Hr.
  - apply obstacles_pass_step in H. destruct H as (c' & Hmo & H).
    apply NoDup_cons in Hnd. destruct Hnd as [Ho Hnd].
    apply not_elem_of_cons in Hp. destruct Hp as [Hpo Hp].
    set (w1 := mkWorld (game w) (<[o := c']> (store w)) (rng w)) in *.
    assert (Holt : (o < length (store w))%nat).
    { destruct Hmo as (c & Hc & _). eapply lookup_lt_Some, Hc. }
    assert (Hw1o : store w1 !! o = Some c').
    { subst w1. simpl. apply list_lookup_insert_eq. exact Holt. }
    assert (Hw1ne : forall q, q <> o -> store w1 !! q = store w !! q).
    { intros q Hq. subst w1. simpl. apply list_lookup_insert_ne. congruence. }
    assert (Hrest : forall q, q ∈ rest -> q <> o).
    { intros q Hq ->. contradiction. }
    assert (Hlen1 : length (store w1) = length (store w)).
    { subst w1. simpl. apply length_insert. }
    cbv zeta in H.
    destruct (height (config (game w)) <? car_y c') eqn:Eflag.
    + (* flagged for removal, the collision test is skipped *)
      apply IH in H; [| assumption | assumption].
      destruct H as (Hrng & Hlen & Hfr & Hex).
      assert (Hw'o : store w' !! o = Some c') by (rewrite Hfr; assumption).
      split; [exact Hrng |]. split; [congruence |].
      split.
      { intros q Hq. apply not_elem_of_cons in Hq. destruct Hq as [Hqo Hq].
        rewrite Hfr by assumption. apply Hw1ne. assumption. }
      destruct ex as [|tr'].
      * destruct Hex as (Hg & pre & r & post & -> & Hmv & Hpre & Hr & Hov & Hpost).
        split; [exact Hg |].
        assert (Hcb : centre_below w' o = true).
        { rewrite (centre_below_eq _ _ _ Hw'o), Hg. exact Eflag. }
        exists (o :: pre), r, post. split; [reflexivity |].
        split; [| split; [| split; [| split]]].
        -- intros q Hq. simpl in Hq. apply elem_of_cons in Hq.
           destruct Hq as [-> | Hq]; [exists c'; split; assumption |].
           destruct (Hmv q Hq) as (c2 & Hm2 & Hs2). exists c2. split; [| exact Hs2].
           apply (moved_to_frame w1); [| reflexivity | exact Hm2].
           apply Hw1ne, Hrest. rewrite elem_of_app in Hq.
           rewrite elem_of_app. destruct Hq as [Hq | Hq]; [left; exact Hq |].
           right. rewrite elem_of_cons. left. apply list_elem_of_singleton in Hq.
           exact Hq.
        -- intros q Hq. apply elem_of_cons in Hq.
           destruct Hq as [-> | Hq]; [left; exact Hcb |].
           destruct (Hpre q Hq) as [Hq1 | Hq1]; [left; exact Hq1 | right].
           rewrite <- Hq1. symmetry. apply overlaps_frame; try reflexivity.
           ++ apply Hw1ne, Hrest. rewrite elem_of_app. left. exact Hq.
           ++ apply Hw1ne. congruence.
        -- exact Hr.
        -- rewrite <- Hov. symmetry. apply overlaps_frame; try reflexivity.
           ++ apply Hw1ne, Hrest. rewrite elem_of_app. right.
              rewrite elem_of_cons. left. reflexivity.
           ++ apply Hw1ne. congruence.
        -- intros q Hq. rewrite Hpost by assumption. apply Hw1ne, Hrest.
           rewrite elem_of_app. right. rewrite elem_of_cons. right. exact Hq.
      * destruct Hex as (Hg & Htr & Hall).
        split; [exact Hg |].
        assert (Hcb : centre_below w' o = true).
        { rewrite (centre_below_eq _ _ _ Hw'o), Hg. exact Eflag. }
        split.
        { simpl. rewrite Hcb, Htr, <- app_assoc. reflexivity. }
        intros r Hr. apply elem_of_cons in Hr. destruct Hr as [-> | Hr].
        -- exists c'. split; [exact Hmo |]. split; [exact Hw'o |].
           intros Hf. congruence.
        -- destruct (Hall r Hr) as (c2 & Hm2 & Hs2 & Hno).
           exists c2. split; [| split; [exact Hs2 |]].
           ++ apply (moved_to_frame w1); [| reflexivity | exact Hm2].
              apply Hw1ne, Hrest, Hr.
           ++ intros Hf. rewrite <- (Hno Hf). symmetry.
              apply overlaps_frame; try reflexivity.
              ** apply Hw1ne, Hrest, Hr.
              ** apply Hw1ne. congruence.
    + destruct H as (pc & Hpc & H).
      assert (Hpc0 : store w !! player_car (game w) = Some pc).
      { rewrite <- Hw1ne by congruence. exact Hpc. }
      assert (Hovo : overlaps_after_move w o = colliderect (car_rect pc) (car_rect c')).
      { apply overlaps_eq; assumption. }
      destruct (colliderect (car_rect pc) (car_rect c')) eqn:Ehit.
      * (* collision: the method returns *)
        destruct H as [-> ->]. simpl.
        split; [reflexivity |]. split; [apply length_insert |].
        split.
        { intros q Hq. apply not_elem_of_cons in Hq. destruct Hq as [Hqo Hq].
          apply list_lookup_insert_ne. congruence. }
        split; [reflexivity |].
        exists [], o, rest. split; [reflexivity |].
        split; [| split; [| split; [| split]]].
        -- intros q Hq. simpl in Hq. apply list_elem_of_singleton in Hq. subst q.
           exists c'. split; [exact Hmo | exact Hw1o].
        -- intros q Hq. inversion Hq.
        -- unfold centre_below. simpl. subst w1. simpl in Hw1o.
           rewrite Hw1o. exact Eflag.
        -- exact Hovo.
        -- intros q Hq. apply list_lookup_insert_ne.
           specialize (Hrest q Hq). congruence.
      * apply IH in H; [| assumption | assumption].
        destruct H as (Hrng & Hlen & Hfr & Hex).
        assert (Hw'o : store w' !! o = Some c') by (rewrite Hfr; assumption).
        split; [exact Hrng |]. split; [congruence |].
        split.
        { intros q Hq. apply not_elem_of_cons in Hq. destruct Hq as [Hqo Hq].
          rewrite Hfr by assumption. apply Hw1ne. assumption. }
        destruct ex as [|tr'].
        -- destruct Hex as (Hg & pre & r & post & -> & Hmv & Hpre & Hr & Hov & Hpost).
           split; [exact Hg |].
           exists (o :: pre), r, post. split; [reflexivity |].
           split; [| split; [| split; [| split]]].
           ++ intros q Hq. simpl in Hq. apply elem_of_cons in Hq.
              destruct Hq as [-> | Hq]; [exists c'; split; assumption |].
              destruct (Hmv q Hq) as (c2 & Hm2 & Hs2). exists c2.
              split; [| exact Hs2].
              apply (moved_to_frame w1); [| reflexivity | exact Hm2].
              apply Hw1ne, Hrest. rewrite elem_of_app in Hq.
              rewrite elem_of_app. destruct Hq as [Hq | Hq]; [left; exact Hq |].
              right. rewrite elem_of_cons. left.
              apply list_elem_of_singleton in Hq. exact Hq.
           ++ intros q Hq. apply elem_of_cons in Hq.
              destruct Hq as [-> | Hq]; [right; exact Hovo |].
              destruct (Hpre q Hq) as [Hq1 | Hq1]; [left; exact Hq1 | right].
              rewrite <- Hq1. symmetry. apply overlaps_frame; try reflexivity.
              ** apply Hw1ne, Hrest. rewrite elem_of_app. left. exact Hq.
              ** apply Hw1ne. congruence.
           ++ exact Hr.
           ++ rewrite <- Hov. symmetry. apply overlaps_frame; try reflexivity.
              ** apply Hw1ne, Hrest. rewrite elem_of_app. right.
                 rewrite elem_of_cons. left. reflexivity.
              ** apply Hw1ne. congruence.
           ++ intros q Hq. rewrite Hpost by assumption. apply Hw1ne, Hrest.
              rewrite elem_of_app. right. rewrite elem_of_cons. right. exact Hq.
        -- destruct Hex as (Hg & Htr & Hall).
           split; [exact Hg |].
           assert (Hcb : centre_below w' o = false).
           { rewrite (centre_below_eq _ _ _ Hw'o), Hg. exact Eflag. }
           split.
           { simpl. rewrite Hcb. exact Htr. }
           intros r Hr. apply elem_of_cons in Hr. destruct Hr as [-> | Hr].
           ++ exists c'. split; [exact Hmo |]. split; [exact Hw'o |].
              intros _. exact Hovo.
           ++ destruct (Hall r Hr) as (c2 & Hm2 & Hs2 & Hno).
              exists c2. split; [| split; [exact Hs2 |]].
              ** apply (moved_to_frame w1); [| reflexivity | exact Hm2].
                 apply Hw1ne, Hrest, Hr.
              ** intros Hf. rewrite <- (Hno Hf). symmetry.
                 apply overlaps_frame; try reflexivity.
                 --- apply Hw1ne, Hrest, Hr.
                 --- apply Hw1ne. congruence.
Qed.

(** [list.remove] on a list without repetition. *)
Lemma list_remove_ok (o : ref) (l l' : list ref) :
  list_remove o l = Ok l' -> NoDup l ->
  o ∈ l /\ l' = List.filter (fun r => negb (Nat.eqb r o)) l.
Proof.
  revert l'. induction l as [|h t IH]; intros l' H Hnd; simpl in H.
  - discriminate.
  - apply NoDup_cons in Hnd. destruct Hnd as [Hh Hnd]. simpl.
    destruct (Nat.eqb h o) eqn:E.
    + apply Nat.eqb_eq in E. subst h. injection H as <-.
      split; [apply elem_of_cons; left; reflexivity |]. simpl.
      symmetry. apply List.forallb_filter_id. apply List.forallb_forall.
      intros x Hx. apply negb_true_iff, Nat.eqb_neq. intros ->.
      apply Hh. apply list_elem_of_In. exact Hx.
    + apply rbind_ok in H. destruct H as (t' & Ht & H). injection H as <-.
      destruct (IH _ Ht Hnd) as [Hin ->]. simpl.
      split; [apply elem_of_cons; right; exact Hin | reflexivity].
Qed.

Lemma NoDup_filter_bool (f : ref -> bool) (l : list ref) :
  NoDup l -> NoDup (List.filter f l).
Proof.
  intros H. apply NoDup_ListNoDup. apply List.NoDup_filter.
  apply NoDup_ListNoDup. exact H.
Qed.

Lemma filter_filter_bool (f g : ref -> bool) (l : list ref) :
  List.filter f (List.filter g l) = List.filter (fun r => g r && f r) l.
Proof.
  induction l as [|h t IH]; simpl; [reflexivity |].
  destruct (g h); simpl; [destruct (f h) |]; rewrite IH; reflexivity.
Qed.

(** The second loop of [_update_obstacles]: every listed reference is
    dropped from the obstacle list. *)
Lemma remove_loop_ok (tr : list ref) :
  forall (w w' : World G),
    NoDup (obstacles (game w)) ->
    for_each tr (fun obstacle =>
      bind (gets obstacles) (fun cur =>
      bind (lift (list_remove obstacle cur)) (fun cur' =>
      modify (set_obstacles cur')))) w = Ok (tt, w') ->
    w' = mkWorld (set_obstacles
                    (List.filter (fun r => negb (existsb (Nat.eqb r) tr))
                                 (obstacles (game w)))
                    (game w))
                 (store w) (rng w).
Proof.
  induction tr as [|o tr IH]; intros w w' Hnd H.
  - simpl in H. unfold ret in H. injection H as <-. simpl.
    rewrite List.forallb_filter_id by (apply List.forallb_forall; reflexivity).
    destruct w as [g st r]. destruct g. reflexivity.
  - cbn [for_each] in H. step_as H E1. step E1.
    step_as E1 E2. apply lift_ok in E2. destruct E2 as [Hrm ->].
    unfold modify in E1. injection E1 as <-.
    apply list_remove_ok in Hrm; [| exact Hnd]. destruct Hrm as [_ ->].
    apply IH in H; [| simpl; apply NoDup_filter_bool; exact Hnd].
    subst w'. simpl. rewrite filter_filter_bool.
    rewrite (List.filter_ext _ (fun r => negb (existsb (Nat.eqb r) (o :: tr)))).
    + reflexivity.
    + intros r. simpl. destruct (Nat.eqb r o); reflexivity.
Qed.

Lemma existsb_filter_member (f : ref -> bool) (l : list ref) (r : ref) :
  r ∈ l -> existsb (Nat.eqb r) (List.filter f l) = f r.
Proof.
  intros Hr. destruct (f r) eqn:E.
  - apply existsb_exists. exists r. split; [| apply Nat.eqb_refl].
    apply List.filter_In. split; [apply list_elem_of_In; exact Hr | exact E].
  - apply not_true_is_false. intros Hex. apply existsb_exists in Hex.
    destruct Hex as (x & Hx & Hxr). apply Nat.eqb_eq in Hxr. subst x.
    apply List.filter_In in Hx. destruct Hx as [_ Hx]. congruence.
Qed.

(** [_update_obstacles] as a whole: either a collision made it return, and
    the list is as it was, or the pass completed and the obstacles with the
    centre below the screen are gone. *)
Lemma update_obstacles_ok (w w' : World G) :
  NoDup (obstacles (game w)) ->
  player_car (game w) ∉ obstacles (game w) ->
  _update_obstacles w = Ok (tt, w') ->
  rng w' = rng w /\
  length (store w') = length (store w) /\
  (forall q, q ∉ obstacles (game w) -> store w' !! q = store w !! q) /\
  ((game w' = set_obstacles
                (List.filter (fun r => negb (centre_below w' r))
                             (obstacles (game w)))
                (game w) /\
    forall r, r ∈ obstacles (game w) ->
      exists c', moved_to w r c' /\ store w' !! r = Some c' /\
        (centre_below w' r = false -> overlaps_after_move w r = false))
   \/
   (game w' = set_game_over true (game w) /\
    exists pre r post, obstacles (game w) = pre ++ r :: post /\
      (forall q, q ∈ pre ++ [r] ->
         exists c', moved_to w q c' /\ store w' !! q = Some c') /\
      (forall q, q ∈ pre ->
         centre_below w' q = true \/ overlaps_after_move w q = false) /\
      centre_below w' r = false /\
      overlaps_after_move w r = true /\
      (forall q, q ∈ post -> store w' !! q = store w !! q))).
Proof.
  intros Hnd Hp H. unfold _update_obstacles in H.
  step H. step_as H Epass.
  match type of Epass with _ = Ok (?e, _) => destruct e as [|tr] end;
    (apply obstacles_pass_ok in Epass; [| assumption | assumption]);
    destruct Epass as (Hrng & Hlen & Hfr & Hex).
  - unfold ret in H. injection H as <-.
    split; [exact Hrng |]. split; [exact Hlen |]. split; [exact Hfr |].
    right. exact Hex.
  - destruct Hex as (Hg & Htr & Hall). simpl in Htr.
    apply remove_loop_ok in H; [| rewrite Hg; exact Hnd].
    subst w'. simpl. rewrite Hg.
    split; [exact Hrng |]. split; [exact Hlen |]. split; [exact Hfr |].
    left. split.
    + f_equal. apply List.filter_ext_in. intros r Hr.
      rewrite Htr. rewrite existsb_filter_member
        by (apply list_elem_of_In; exact Hr).
      unfold centre_below. simpl. rewrite Hg. reflexivity.
    + intros r Hr. destruct (Hall r Hr) as (c' & Hm & Hs & Hno).
      exists c'. split; [exact Hm |]. split; [exact Hs |].
      intros Hf. apply Hno. unfold centre_below in *. simpl in Hf.
      rewrite Hg. exact Hf.
Qed.

Lemma reset_game_ok (w w' : World G) :
  _reset_game w = Ok (tt, w') ->
  let range := spawn_cooldown_range (game w) in
  exists delay g1 x c c',
    fst range <= snd range /\
    randint (fst range) (snd range) (rng w) = (delay, g1) /\
    lane_center (track_left (game w)) (lane_width (game w)) 1 = Ok x /\
    store w !! player_car (game w) = Some c /\
    Car_placed c x (height (config (game w)) - 80) = Ok c' /\
    w' = mkWorld
           (set_spawn_timer delay
              (set_score PyFloat.zero
                 (set_obstacles [] (set_game_over false (game w)))))
           (<[player_car (game w) := c']> (store w)) g1.
Proof.
  unfold _reset_game. intros H. do 3 step H.
  step_as H Ed. apply next_spawn_delay_ok in Ed. simpl in Ed.
  destruct Ed as (Hr & g1 & Hd & ->).
  step H. step_as H Ex. apply lane_center_method_ok in Ex. simpl in Ex.
  destruct Ex as [Hx ->].
  step H. step H. step_as H Ec. apply deref_ok in Ec. simpl in Ec.
  destruct Ec as [Hc ->].
  step_as H Ep. apply lift_ok in Ep. simpl in Ep. destruct Ep as [Hp ->].
  apply assign_ok in H. simpl in H. destruct H as [_ ->].
  simpl. eexists _, _, _, _, _. repeat split; eassumption.
Qed.

Lemma handle_event_return_running (w : World G) :
  game_over (game w) = false ->
  handle_event (KEYDOWN K_RETURN) w = Ok (tt, w).
Proof.
  intros Hover. unfold handle_event, bind, gets. rewrite Hover. reflexivity.
Qed.

Lemma handle_event_return_over (w : World G) :
  game_over (game w) = true ->
  handle_event (KEYDOWN K_RETURN) w = _reset_game w.
Proof.
  intros Hover. unfold handle_event, bind, gets. rewrite Hover. reflexivity.
Qed.

(** An event other than the restart key changes nothing but [running]. *)
Lemma handle_event_other (e : Event) (w : World G) :
  e <> KEYDOWN K_RETURN ->
  exists b, handle_event e w
            = Ok (tt, mkWorld (set_running b (game w)) (store w) (rng w)).
Proof.
  intros He.
  assert (Hid : Ok (tt, w)
                = Ok (tt, mkWorld (set_running (running (game w)) (game w))
                                  (store w) (rng w))).
  { destruct w as [g st r]. destruct g. reflexivity. }
  destruct e as [|k|]; simpl.
  - exists false. reflexivity.
  - destruct k; try contradiction; unfold bind, gets; simpl.
    + exists false. reflexivity.
    + exists (running (game w)). exact Hid.
    + exists (running (game w)). exact Hid.
    + exists (running (game w)). exact Hid.
  - exists (running (game w)). exact Hid.
Qed.

Lemma update_over (keys : Keys) (w : World G) :
  game_over (game w) = true -> update keys w = Ok (tt, w).
Proof.
  intros Hover. unfold update, bind, gets. rewrite Hover. reflexivity.
Qed.

Lemma update_running_ok (keys : Keys) (w w' : World G) :
  game_over (game w) = false ->
  update keys w = Ok (tt, w') ->
  exists w1 w2 w3 w4,
    _update_car keys w = Ok (tt, w1) /\
    _update_lane_markers w1 = Ok (tt, w2) /\
    _update_obstacles w2 = Ok (tt, w3) /\
    _maybe_spawn_obstacle w3 = Ok (tt, w4) /\
    _update_score w4 = Ok (tt, w').
Proof.
  intros Hover H. unfold update in H. step H. rewrite Hover in H. simpl in H.
  step_as H E1. step_as H E2. step_as H E3. step_as H E4.
  eexists _, _, _, _. repeat split; eassumption.
Qed.

End Methods.

(** ** The session invariant *)

Section Invariant.

Context {G : Type} {RS : RandomSource G}.

Lemma Car_new_ok (x : float) (y cw h : Z) (col : Color) (c : Car) :
  Car_new x y cw h col = Ok c ->
  rect_derived c /\ car_x c = x /\ car_y c = y /\ car_width c = cw /\
  car_height c = h /\ car_color c = col.
Proof.
  unfold Car_new. intros H. apply rbind_ok in H. destruct H as (hw & Hhw & H).
  injection H as <-. simpl. repeat split.
  exists hw. simpl. repeat split. exact Hhw.
Qed.

Lemma Car_moved_ok (c c' : Car) (dx dy : Z) :
  rect_derived c -> Car_moved c dx dy = Ok c' ->
  rect_derived c' /\ car_y c' = car_y c + dy /\ car_width c' = car_width c /\
  car_height c' = car_height c /\ car_color c' = car_color c /\
  exists fdx, float_of_int dx = Ok fdx /\ car_x c' = PyFloat.add (car_x c) fdx.
Proof.
  intros (hw0 & Hhw0 & Hx & Hy & Hw & Hh) H. unfold Car_moved in H.
  apply rbind_ok in H. destruct H as (fdx & Hfdx & H).
  apply rbind_ok in H. destruct H as (hw & Hhw & H).
  injection H as <-. simpl. repeat split.
  - exists hw. simpl. repeat split; assumption.
  - exists fdx. split; [exact Hfdx | reflexivity].
Qed.

Lemma Car_placed_ok (c c' : Car) (x : float) (y : Z) :
  rect_derived c -> Car_placed c x y = Ok c' ->
  rect_derived c' /\ car_x c' = x /\ car_y c' = y /\
  car_width c' = car_width c /\ car_height c' = car_height c.
Proof.
  intros (hw0 & Hhw0 & Hx & Hy & Hw & Hh) H. unfold Car_placed in H.
  apply rbind_ok in H. destruct H as (hw & Hhw & H).
  injection H as <-. simpl. repeat split.
  exists hw. simpl. repeat split; assumption.
Qed.

(** The invariant only reads the store and the attributes that never
    change after [__init__], the player's reference and the obstacle
    list. *)
Lemma wf_pointwise (w w' : World G) :
  wf w ->
  length (store w') = length (store w) ->
  (forall q c', store w' !! q = Some c' ->
     exists c, store w !! q = Some c /\
       (c' = c \/
        (rect_derived c' /\ car_height c' = car_height c /\
         (q = player_car (game w) -> car_y c' = car_y c)))) ->
  config (game w') = config (game w) ->
  track_left (game w') = track_left (game w) ->
  track_right (game w') = track_right (game w) ->
  lane_width (game w') = lane_width (game w) ->
  car_speed (game w') = car_speed (game w) ->
  road_scroll_speed (game w') = road_scroll_speed (game w) ->
  obstacle_speed (game w') = obstacle_speed (game w) ->
  spawn_cooldown_range (game w') = spawn_cooldown_range (game w) ->
  player_car (game w') = player_car (game w) ->
  NoDup (obstacles (game w')) ->
  (forall r, r ∈ obstacles (game w') -> r ∈ obstacles (game w)) ->
  wf w'.
Proof.
  intros Hwf Hlen Hst Hcfg Htl Htr Hlw Hcs Hrs Hos Hrange Hp Hnd Hsub.
  destruct Hwf. constructor.
  - rewrite Hp, Hlen. assumption.
  - apply Forall_forall. intros r Hr. rewrite Hlen.
    rewrite Forall_forall in wf_obstacles0. apply wf_obstacles0, Hsub, Hr.
  - exact Hnd.
  - rewrite Hp. intros Hin. apply wf_player_apart0, Hsub, Hin.
  - apply Forall_lookup. intros q c' Hq.
    destruct (Hst q c' Hq) as (c & Hc & [-> | (Hd & _)]); [| exact Hd].
    rewrite Forall_lookup in wf_rects0. eapply wf_rects0, Hc.
  - rewrite Hp, Hcfg. intros c' Hq.
    destruct (Hst _ c' Hq) as (c & Hc & [-> | (_ & Hh & Hy)]).
    + apply wf_player_geom0, Hc.
    + destruct (wf_player_geom0 c Hc) as [Hy0 Hh0].
      rewrite Hh, Hy by reflexivity. split; assumption.
  - intros r c' Hr Hq.
    destruct (Hst _ c' Hq) as (c & Hc & [-> | (_ & Hh & _)]).
    + eapply wf_obstacle_geom0; [apply Hsub, Hr | exact Hc].
    + rewrite Hh. eapply wf_obstacle_geom0; [apply Hsub, Hr | exact Hc].
  - rewrite Hcs, Hrs, Hos. assumption.
  - rewrite Hrange. assumption.
  - rewrite Htl, Htr, Hcfg. assumption.
  - rewrite Htl. assumption.
  - rewrite Hlw. assumption.
Qed.

Lemma wf_update_car (keys : Keys) (w w' : World G) :
  wf w -> _update_car keys w = Ok (tt, w') -> wf w'.
Proof.
  intros Hwf H. apply update_car_ok in H. cbv zeta in H.
  destruct H as [[_ ->] | (_ & c & Hc & [[_ ->] | (_ & c' & Hm & ->)])];
    try exact Hwf.
  assert (Hd : rect_derived c).
  { destruct Hwf. rewrite Forall_lookup in wf_rects0. eapply wf_rects0, Hc. }
  destruct (Car_moved_ok _ _ _ _ Hd Hm) as (Hd' & Hy & _ & Hh & _).
  apply (wf_pointwise w); try reflexivity; try exact Hwf.
  - simpl. apply length_insert.
  - simpl. intros q c2 Hq.
    destruct (decide (q = player_car (game w))) as [-> | Hne].
    + rewrite list_lookup_insert_eq in Hq by (eapply lookup_lt_Some, Hc).
      injection Hq as <-. exists c. split; [exact Hc |]. right.
      split; [exact Hd' |]. split; [exact Hh |]. intros _. lia.
    + rewrite list_lookup_insert_ne in Hq by congruence.
      exists c2. split; [exact Hq | left; reflexivity].
  - simpl. apply Hwf.
  - simpl. intros r Hr. exact Hr.
Qed.

Lemma wf_update_lane_markers (w w' : World G) :
  wf w -> _update_lane_markers w = Ok (tt, w') -> wf w'.
Proof.
  intros Hwf H. rewrite update_lane_markers_eq in H. injection H as <-.
  apply (wf_pointwise w); try reflexivity; try exact Hwf; simpl.
  - intros q c' Hq. exists c'. split; [exact Hq | left; reflexivity].
  - apply Hwf.
  - intros r Hr. exact Hr.
Qed.

Lemma wf_update_score (w w' : World G) :
  wf w -> _update_score w = Ok (tt, w') -> wf w'.
Proof.
  intros Hwf H. apply update_score_ok in H. destruct H as (q & _ & ->).
  apply (wf_pointwise w); try reflexivity; try exact Hwf; simpl.
  - intros r c' Hq. exists c'. split; [exact Hq | left; reflexivity].
  - apply Hwf.
  - intros r Hr. exact Hr.
Qed.

Lemma moved_to_derived (w : World G) (r : ref) (c' : Car) :
  wf w -> moved_to w r c' ->
  exists c, store w !! r = Some c /\ rect_derived c' /\
            car_height c' = car_height c /\
            car_y c' = car_y c + obstacle_speed (game w).
Proof.
  intros Hwf (c & Hc & Hm). exists c. split; [exact Hc |].
  assert (Hd : rect_derived c).
  { destruct Hwf. rewrite Forall_lookup in wf_rects0. eapply wf_rects0, Hc. }
  destruct (Car_moved_ok _ _ _ _ Hd Hm) as (Hd' & Hy & _ & Hh & _).
  repeat split; assumption.
Qed.

Lemma wf_update_obstacles (w w' : World G) :
  wf w -> _update_obstacles w = Ok (tt, w') -> wf w'.
Proof.
  intros Hwf H.
  pose proof (wf_nodup _ Hwf) as Hnd.
  pose proof (wf_player_apart _ Hwf) as Hp.
  apply update_obstacles_ok in H; [| assumption | assumption].
  destruct H as (_ & Hlen & Hfr & [[Hg Hall] | (Hg & pre & r & post & Hobs & Hmv & _ & _ & _ & Hpost)]).
  - apply (wf_pointwise w); try (rewrite Hg; reflexivity); try assumption.
    + intros q c' Hq.
      destruct (decide (q ∈ obstacles (game w))) as [Hin | Hout].
      * destruct (Hall q Hin) as (c2 & Hm & Hs & _).
        rewrite Hs in Hq. injection Hq as <-.
        destruct (moved_to_derived _ _ _ Hwf Hm) as (c & Hc & Hd & Hh & _).
        exists c. split; [exact Hc |]. right.
        split; [exact Hd |]. split; [exact Hh |].
        intros ->. contradiction.
      * rewrite Hfr in Hq by assumption.
        exists c'. split; [exact Hq | left; reflexivity].
    + rewrite Hg. simpl. apply NoDup_filter_bool. exact Hnd.
    + rewrite Hg. simpl. intros r Hr. apply list_elem_of_In in Hr.
      apply List.filter_In in Hr. apply list_elem_of_In. apply Hr.
  - apply (wf_pointwise w); try (rewrite Hg; reflexivity); try assumption.
    + intros q c' Hq.
      destruct (decide (q ∈ pre ++ [r])) as [Hin | Hout].
      * destruct (Hmv q Hin) as (c2 & Hm & Hs).
        rewrite Hs in Hq. injection Hq as <-.
        destruct (moved_to_derived _ _ _ Hwf Hm) as (c & Hc & Hd & Hh & _).
        exists c. split; [exact Hc |]. right.
        split; [exact Hd |]. split; [exact Hh |].
        intros ->. exfalso. apply Hp. rewrite Hobs.
        rewrite elem_of_app in Hin. rewrite elem_of_app, elem_of_cons.
        destruct Hin as [Hin | Hin]; [left; exact Hin |].
        apply list_elem_of_singleton in Hin. right. left. exact Hin.
      * destruct (decide (q ∈ post)) as [Hin | Hout2].
        -- rewrite Hpost in Hq by assumption.
           exists c'. split; [exact Hq | left; reflexivity].
        -- rewrite Hfr in Hq.
           ++ exists c'. split; [exact Hq | left; reflexivity].
           ++ rewrite Hobs. intros Hin. apply elem_of_app in Hin.
              rewrite elem_of_cons in Hin. rewrite elem_of_app in Hout.
              rewrite list_elem_of_singleton in Hout. tauto.
    + rewrite Hg. simpl. exact Hnd.
    + rewrite Hg. simpl. intros q Hq. exact Hq.
Qed.

Lemma wf_maybe_spawn (w w' : World G) :
  wf w -> _maybe_spawn_obstacle w = Ok (tt, w') -> wf w'.
Proof.
  intros Hwf H. apply maybe_spawn_ok in H. cbv zeta in H.
  destruct H as [[_ ->] | (_ & lane & g1 & cw & x & car & delay & g2 & _ & _
                             & Hcw & _ & Hcar & _ & _ & ->)].
  - apply (wf_pointwise w); try reflexivity; try exact Hwf; simpl.
    + intros r c' Hq. exists c'. split; [exact Hq | left; reflexivity].
    + apply Hwf.
    + intros r Hr. exact Hr.
  - apply Car_new_ok in Hcar. destruct Hcar as (Hd & _ & _ & _ & Hh & _).
    destruct Hwf. constructor; simpl.
    + rewrite length_app. simpl. lia.
    + apply Forall_app. split.
      * eapply Forall_impl; [exact wf_obstacles0 |].
        simpl. intros r Hr. rewrite length_app. simpl. lia.
      * apply Forall_singleton. rewrite length_app. simpl. lia.
    + apply NoDup_app. split; [exact wf_nodup0 |]. split.
      * intros r Hr Hr1. apply list_elem_of_singleton in Hr1. subst r.
        rewrite Forall_forall in wf_obstacles0.
        specialize (wf_obstacles0 _ Hr). lia.
      * apply NoDup_singleton.
    + intros Hin. apply elem_of_app in Hin. destruct Hin as [Hin | Hin].
      * contradiction.
      * apply list_elem_of_singleton in Hin. lia.
    + apply Forall_app. split; [exact wf_rects0 |].
      apply Forall_singleton. exact Hd.
    + intros c Hc. rewrite lookup_app_l in Hc by assumption.
      apply wf_player_geom0, Hc.
    + intros r c Hr Hc. apply elem_of_app in Hr. destruct Hr as [Hr | Hr].
      * rewrite Forall_forall in wf_obstacles0.
        rewrite lookup_app_l in Hc by (apply wf_obstacles0, Hr).
        eapply wf_obstacle_geom0; eassumption.
      * apply list_elem_of_singleton in Hr. subst r.
        rewrite list_lookup_middle in Hc by reflexivity.
        injection Hc as <-. exact Hh.
    + assumption.
    + assumption.
    + assumption.
    + assumption.
    + assumption.
Qed.

Lemma wf_reset_game (w w' : World G) :
  wf w -> _reset_game w = Ok (tt, w') -> wf w'.
Proof.
  intros Hwf H. apply reset_game_ok in H. cbv zeta in H.
  destruct H as (delay & g1 & x & c & c' & _ & _ & _ & Hc & Hpl & ->).
  assert (Hd : rect_derived c).
  { destruct Hwf. rewrite Forall_lookup in wf_rects0. eapply wf_rects0, Hc. }
  destruct (Car_placed_ok _ _ _ _ Hd Hpl) as (Hd' & _ & Hy & _ & Hh).
  apply (wf_pointwise w); try reflexivity; try exact Hwf; simpl.
  - apply length_insert.
  - intros q c2 Hq.
    destruct (decide (q = player_car (game w))) as [-> | Hne].
    + rewrite list_lookup_insert_eq in Hq by (eapply lookup_lt_Some, Hc).
      injection Hq as <-. exists c. split; [exact Hc |]. right.
      split; [exact Hd' |]. split; [exact Hh |]. intros _.
      rewrite Hy. symmetry. eapply wf_player_geom; eassumption.
    + rewrite list_lookup_insert_ne in Hq by congruence.
      exists c2. split; [exact Hq | left; reflexivity].
  - apply NoDup_nil. trivial.
  - intros r Hr. inversion Hr.
Qed.

Lemma wf_handle_event (e : Event) (w w' : World G) :
  wf w -> handle_event e w = Ok (tt, w') -> wf w'.
Proof.
  intros Hwf H.
  assert (He : e = KEYDOWN K_RETURN \/ e <> KEYDOWN K_RETURN).
  { destruct e as [|k|]; [right | destruct k; [left | right ..] | right];
      congruence. }
  destruct He as [-> | Hne].
  - destruct (game_over (game w)) eqn:Hover.
    + rewrite handle_event_return_over in H by assumption.
      eapply wf_reset_game; eassumption.
    + rewrite handle_event_return_running in H by assumption.
      injection H as <-. exact Hwf.
  - destruct (handle_event_other e w Hne) as (b & Hb).
    rewrite Hb in H. injection H as <-.
    apply (wf_pointwise w); try reflexivity; try exact Hwf; simpl.
    + intros r c' Hq. exists c'. split; [exact Hq | left; reflexivity].
    + apply Hwf.
    + intros r Hr. exact Hr.
Qed.

Lemma wf_handle_events (evs : list Event) :
  forall (w w' : World G),
    wf w -> handle_events evs w = Ok (tt, w') -> wf w'.
Proof.
  unfold handle_events.
  induction evs as [|e evs IH]; intros w w' Hwf H.
  - simpl in H. unfold ret in H. injection H as <-. exact Hwf.
  - cbn [for_each] in H. step_as H E.
    eapply IH; [| exact H]. eapply wf_handle_event; eassumption.
Qed.

Lemma wf_update (keys : Keys) (w w' : World G) :
  wf w -> update keys w = Ok (tt, w') -> wf w'.
Proof.
  intros Hwf H. destruct (game_over (game w)) eqn:Hover.
  - rewrite update_over in H by assumption. injection H as <-. exact Hwf.
  - apply update_running_ok in H; [| assumption].
    destruct H as (w1 & w2 & w3 & w4 & H1 & H2 & H3 & H4 & H5).
    eapply wf_update_score; [| exact H5].
    eapply wf_maybe_spawn; [| exact H4].
    eapply wf_update_obstacles; [| exact H3].
    eapply wf_update_lane_markers; [| exact H2].
    eapply wf_update_car; [| exact H1]. exact Hwf.
Qed.

Lemma wf_frame (i : FrameInput) (w w' : World G) :
  wf w -> frame i w = Ok (tt, w') -> wf w'.
Proof.
  intros Hwf H. unfold frame in H. step_as H E.
  eapply wf_update; [| exact H]. eapply wf_handle_events; eassumption.
Qed.

Lemma wf_run (inputs : list FrameInput) :
  forall (w w' : World G), wf w -> run inputs w = Ok (tt, w') -> wf w'.
Proof.
  induction inputs as [|i rest IH]; intros w w' Hwf H.
  - simpl in H. unfold ret in H. injection H as <-. exact Hwf.
  - cbn [run] in H. step H. destruct (running (game w)).
    + step_as H E. eapply IH; [| exact H]. eapply wf_frame; eassumption.
    + unfold ret in H. injection H as <-. exact Hwf.
Qed.

(** The elements of an ascending [range]. *)
Lemma py_range_bounds (a b st : Z) (ys : list Z) :
  0 < st -> py_range a b st = Ok ys ->
  forall y, y ∈ ys -> a <= y < b.
Proof.
  intros Hst H y Hy. unfold py_range in H.
  destruct (st =? 0) eqn:E; [lia |]. injection H as <-.
  apply list_elem_of_In in Hy. apply List.in_map_iff in Hy.
  destruct Hy as (k & <- & Hk). apply List.in_seq in Hk.
  unfold range_len in Hk. destruct (0 <? st) eqn:E2; [| lia].
  destruct Hk as [_ Hk]. simpl in Hk.
  assert (Hq : 0 <= (b - a + st - 1) `div` st \/ (b - a + st - 1) `div` st < 0) by lia.
  destruct Hq as [Hq | Hq]; [| rewrite Z2Nat.nonpos in Hk by lia; lia ].
  assert (Hk' : Z.of_nat k < (b - a + st - 1) `div` st) by lia.
  pose proof (Z.mul_div_le (b - a + st - 1) st Hst).
  split; [nia |]. nia.
Qed.

Lemma marker_rows_eq (x : Z) (ys : list Z) :
  forall (w : World G),
    for_each ys (fun y =>
      modify (fun g => set_lane_markers (lane_markers g ++ [(x, y)]) g)) w
    = Ok (tt, mkWorld (set_lane_markers
                         (lane_markers (game w) ++ map (fun y => (x, y)) ys)
                         (game w))
                      (store w) (rng w)).
Proof.
  induction ys as [|y ys IH]; intros w.
  - simpl. rewrite app_nil_r. unfold ret.
    destruct w as [g st r]. destruct g. reflexivity.
  - cbn [for_each]. unfold bind at 1. unfold modify at 1.
    rewrite IH. simpl. rewrite <- app_assoc. reflexivity.
Qed.

(** [_init_lane_markers] only appends markers whose [y] is taken from the
    range of the inner loop. *)
Lemma marker_columns_ok (cfg : GameConfig) (lanes : list Z) :
  forall (w w' : World G),
    for_each lanes (marker_column cfg) w = Ok (tt, w') ->
    exists ms,
      w' = mkWorld (set_lane_markers (lane_markers (game w) ++ ms) (game w))
                   (store w) (rng w) /\
      forall m, m ∈ ms ->
        exists ys, py_range (- lane_marker_length cfg)
                            (height cfg + lane_marker_length cfg)
                            (lane_marker_length cfg + lane_marker_gap cfg)
                   = Ok ys /\ snd m ∈ ys.
Proof.
  induction lanes as [|lane lanes IH]; intros w w' H.
  - simpl in H. unfold ret in H. injection H as <-. exists [].
    split; [| intros m Hm; inversion Hm].
    rewrite app_nil_r. destruct w as [g st r]. destruct g. reflexivity.
  - cbn [for_each] in H. step_as H E. unfold marker_column in E.
    do 2 step E. step_as E Ex. apply lift_ok in Ex. destruct Ex as [Hx ->].
    step_as E Ey. apply lift_ok in Ey. destruct Ey as [Hys ->].
    rewrite marker_rows_eq in E. injection E as <-.
    apply IH in H. destruct H as (ms & -> & Hms). simpl.
    eexists (map _ _ ++ ms). split.
    + rewrite <- app_assoc. reflexivity.
    + intros m Hm. apply elem_of_app in Hm. destruct Hm as [Hm | Hm].
      * apply list_elem_of_fmap in Hm. destruct Hm as (y & -> & Hy).
        eexists. split; [exact Hys | exact Hy].
      * apply Hms, Hm.
Qed.

Lemma init_lane_markers_ok (w w' : World G) :
  _init_lane_markers w = Ok (tt, w') ->
  let cfg := config (game w) in
  exists ms,
    w' = mkWorld (set_lane_markers (lane_markers (game w) ++ ms) (game w))
                 (store w) (rng w) /\
    forall m, m ∈ ms ->
      exists ys, py_range (- lane_marker_length cfg)
                          (height cfg + lane_marker_length cfg)
                          (lane_marker_length cfg + lane_marker_gap cfg)
                 = Ok ys /\ snd m ∈ ys.
Proof.
  unfold _init_lane_markers. intros H. step H.
  step_as H E. apply lift_ok in E. destruct E as [_ ->].
  apply marker_columns_ok in H. exact H.
Qed.

(** What [__init__] builds. *)
Lemma RacingGame_init_ok (config : option GameConfig) (g : G) (w : World G) :
  RacingGame_init config g = Ok w ->
  let cfg := match config with Some c => c | None => default_config end in
  let tl := border_x cfg in
  let tr := width cfg - border_x cfg in
  exists lw cw cx car delay g1 ms,
    int_truediv (tr - tl) (lane_count cfg) = Ok lw /\
    py_int (PyFloat.mul lw PyFloat.f0_6) = Ok cw /\
    lane_center tl lw 1 = Ok cx /\
    Car_new cx (height cfg - 80) cw 40 color_player_car = Ok car /\
    randint 60 120 g = (delay, g1) /\
    (forall m, m ∈ ms ->
       exists ys, py_range (- lane_marker_length cfg)
                           (height cfg + lane_marker_length cfg)
                           (lane_marker_length cfg + lane_marker_gap cfg)
                  = Ok ys /\ snd m ∈ ys) /\
    w = mkWorld (mkGame cfg tl tr lw 5 3 3 (60, 120) 0%nat [] ms
                        PyFloat.zero delay true false)
                [car] g1.
Proof.
  unfold RacingGame_init. intros H. cbv zeta in H.
  apply rbind_ok in H. destruct H as (lw & Hlw & H).
  apply rbind_ok in H. destruct H as (cw & Hcw & H).
  apply rbind_ok in H. destruct H as (cx & Hcx & H).
  apply rbind_ok in H. destruct H as (car & Hcar & H).
  apply rbind_ok in H. destruct H as ([u w1] & Hrun & H).
  injection H as <-. destruct u.
  step_as Hrun Ed. apply next_spawn_delay_ok in Ed. simpl in Ed.
  destruct Ed as (_ & g1 & Hd & ->).
  step Hrun. apply init_lane_markers_ok in Hrun. simpl in Hrun.
  destruct Hrun as (ms & -> & Hms).
  exists lw, cw, cx, car, a, g1, ms. repeat split; assumption.
Qed.

Lemma wf_init (config : option GameConfig) (g : G) (w : World G) :
  RacingGame_init config g = Ok w -> wf w.
Proof.
  intros H. apply RacingGame_init_ok in H. cbv zeta in H.
  destruct H as (lw & cw & cx & car & delay & g1 & ms & Hlw & Hcw & Hcx
                 & Hcar & Hd & Hms & ->).
  pose proof (Car_new_ok _ _ _ _ _ _ Hcar) as (Hder & _ & Hy & Hw & Hh & _).
  constructor; simpl.
  - lia.
  - constructor.
  - apply NoDup_nil. trivial.
  - intros Hin. inversion Hin.
  - apply Forall_singleton. exact Hder.
  - intros c Hc. injection Hc as <-. split; assumption.
  - intros r c Hr. inversion Hr.
  - repeat split.
  - reflexivity.
  - split; reflexivity.
  - unfold lane_center in Hcx.
    apply rbind_ok in Hcx. destruct Hcx as (f1 & _ & Hcx).
    apply rbind_ok in Hcx. destruct Hcx as (ftl & Hftl & _).
    unfold float_of_int in Hftl.
    destruct (Z.abs _ <? PyFloat.int_limit) eqn:E; [| discriminate].
    apply Z.ltb_lt in E. exact E.
  - exists cw. split; [exact Hcw |].
    destruct Hder as (hw & Hhw & _). rewrite Hw in Hhw.
    unfold float_of_int in Hhw.
    destruct (Z.abs _ <? PyFloat.int_limit) eqn:E; [| discriminate].
    apply Z.ltb_lt in E. exact E.
Qed.

Lemma wf_reachable (w : World G) : reachable w -> wf w.
Proof.
  intros (config & g & inputs & w0 & Hinit & Hrun).
  eapply wf_run; [| exact Hrun]. eapply wf_init. exact Hinit.
Qed.

End Invariant.

(** ** The methods return *)

Section Totality.

Context {G : Type} {RS : RandomSource G}.

Lemma float_of_int_fits (z : Z) :
  Z.abs z < PyFloat.int_limit -> float_of_int z = Ok (PyFloat.round_int z).
Proof.
  intros H. unfold float_of_int.
  destruct (Z.abs z <? PyFloat.int_limit) eqn:E; [reflexivity |].
  apply Z.ltb_ge in E. lia.
Qed.

Lemma small_fits (z : Z) : Z.abs z < 2 ^ 31 -> Z.abs z < PyFloat.int_limit.
Proof.
  intros H. apply (Z.lt_trans _ _ _ H). vm_compute. reflexivity.
Qed.

Lemma Car_moved_runs (c : Car) (dx dy : Z) :
  rect_derived c -> Z.abs dx < PyFloat.int_limit ->
  exists c', Car_moved c dx dy = Ok c'.
Proof.
  intros (hw & Hhw & _) Hdx. unfold Car_moved.
  rewrite (float_of_int_fits _ Hdx). cbn [rbind]. rewrite Hhw. cbn [rbind].
  eexists. reflexivity.
Qed.

Lemma Car_update_runs (r : ref) (dx dy : Z) (w : World G) (c : Car) :
  store w !! r = Some c -> rect_derived c ->
  Z.abs dx < PyFloat.int_limit ->
  exists c', Car_moved c dx dy = Ok c' /\
    Car_update r dx dy w
    = Ok (tt, mkWorld (game w) (<[r := c']> (store w)) (rng w)).
Proof.
  intros Hc Hd Hdx. destruct (Car_moved_runs c dx dy Hd Hdx) as (c' & Hm).
  exists c'. split; [exact Hm |].
  unfold Car_update, bind, deref, lift, assign. rewrite Hc, Hm, Hc.
  reflexivity.
Qed.

Lemma update_car_runs (keys : Keys) (w : World G) :
  wf w -> exists w', _update_car keys w = Ok (tt, w').
Proof.
  intros Hwf.
  destruct (lookup_lt_is_Some_2 _ _ (wf_player _ Hwf)) as (pc & Hpc).
  assert (Hd : rect_derived pc).
  { pose proof (wf_rects _ Hwf) as Hall. rewrite Forall_lookup in Hall.
    eapply Hall, Hpc. }
  destruct (wf_speeds _ Hwf) as (Hspeed & _).
  assert (Hdx : Z.abs (requested_dx (game w) keys) < PyFloat.int_limit).
  { apply small_fits. unfold requested_dx. rewrite Hspeed.
    destruct (pressed_left keys && negb (pressed_right keys));
      [vm_compute; reflexivity |].
    destruct (pressed_right keys && negb (pressed_left keys));
      vm_compute; reflexivity. }
  destruct (Car_update_runs (player_car (game w)) (requested_dx (game w) keys)
                            0 w pc Hpc Hd Hdx) as (c' & _ & Hup).
  destruct Hd as (hw & Hhw & _).
  unfold _update_car. unfold bind at 1. unfold gets at 1.
  fold (requested_dx (game w) keys).
  destruct (requested_dx (game w) keys =? 0); [eexists; reflexivity |].
  unfold bind at 1. unfold gets at 1.
  unfold bind at 1. unfold deref at 1. rewrite Hpc.
  unfold bind at 1. unfold lift at 1. rewrite (float_of_int_fits _ Hdx).
  unfold bind at 1. unfold lift at 1. rewrite Hhw.
  unfold bind at 1. unfold gets at 1.
  unfold bind at 1. unfold gets at 1.
  destruct (_ && _).
  - rewrite Hup. eexists. reflexivity.
  - eexists. reflexivity.
Qed.

(** The first loop goes through whenever the references it meets are live
    and the cars behind them have a derived rectangle. *)
Lemma obstacles_pass_runs (obs : list ref) :
  forall (tr : list ref) (w : World G),
    Forall rect_derived (store w) ->
    (player_car (game w) < length (store w))%nat ->
    Forall (fun r => (r < length (store w))%nat) obs ->
    exists ex w', obstacles_pass obs tr w = Ok (ex, w').
Proof.
  induction obs as [|o rest IH]; intros tr w Hall Hp Hobs.
  - eexists _, _. reflexivity.
  - apply Forall_cons in Hobs. destruct Hobs as [Ho Hrest].
    destruct (lookup_lt_is_Some_2 _ _ Ho) as (c & Hc).
    assert (Hd : rect_derived c).
    { rewrite Forall_lookup in Hall. eapply Hall, Hc. }
    assert (H0 : Z.abs 0 < PyFloat.int_limit) by (vm_compute; reflexivity).
    destruct (Car_update_runs o 0 (obstacle_speed (game w)) w c Hc Hd H0)
      as (c' & Hm & Hup).
    destruct (Car_moved_ok _ _ _ _ Hd Hm) as (Hd' & _).
    set (w1 := mkWorld (game w) (<[o := c']> (store w)) (rng w)) in *.
    assert (Hall1 : Forall rect_derived (store w1)).
    { subst w1. simpl. apply Forall_insert; assumption. }
    assert (Hlen1 : length (store w1) = length (store w)).
    { subst w1. simpl. apply length_insert. }
    assert (Hw1o : store w1 !! o = Some c').
    { subst w1. simpl. apply list_lookup_insert_eq. exact Ho. }
    assert (Hp1 : (player_car (game w1) < length (store w1))%nat).
    { rewrite Hlen1. exact Hp. }
    destruct (lookup_lt_is_Some_2 _ _ Hp1) as (pc & Hpc).
    assert (Hrest1 : Forall (fun r => (r < length (store w1))%nat) rest).
    { rewrite Hlen1. exact Hrest. }
    cbn [obstacles_pass]. unfold bind at 1. unfold gets at 1.
    unfold bind at 1. rewrite Hup. fold w1.
    unfold bind at 1. unfold deref at 1. rewrite Hw1o.
    unfold bind at 1. unfold gets at 1.
    destruct (height (config (game w1)) <? car_y c').
    + apply IH; assumption.
    + unfold bind at 1. unfold _check_collision.
      unfold bind at 1. unfold gets at 1.
      unfold bind at 1. unfold deref at 1. rewrite Hpc.
      unfold bind at 1. unfold deref at 1. rewrite Hw1o.
      unfold ret at 1.
      destruct (colliderect (car_rect pc) (car_rect c')).
      * eexists _, _. reflexivity.
      * apply IH; assumption.
Qed.

Lemma list_remove_runs (o : ref) (l : list ref) :
  o ∈ l -> exists l', list_remove o l = Ok l'.
Proof.
  induction l as [|h t IH]; intros Hin.
  - inversion Hin.
  - simpl. destruct (Nat.eqb h o) eqn:E; [eexists; reflexivity |].
    apply elem_of_cons in Hin. destruct Hin as [-> | Hin].
    + rewrite Nat.eqb_refl in E. discriminate.
    + destruct (IH Hin) as (t' & ->). eexists. reflexivity.
Qed.

Lemma remove_loop_runs (tr : list ref) :
  forall (w : World G),
    NoDup tr -> NoDup (obstacles (game w)) ->
    (forall r, r ∈ tr -> r ∈ obstacles (game w)) ->
    exists w',
      for_each tr (fun obstacle =>
        bind (gets obstacles) (fun cur =>
        bind (lift (list_remove obstacle cur)) (fun cur' =>
        modify (set_obstacles cur')))) w = Ok (tt, w').
Proof.
  induction tr as [|o tr IH]; intros w Hnd Hndl Hsub.
  - eexists. reflexivity.
  - apply NoDup_cons in Hnd. destruct Hnd as [Ho Hnd].
    assert (Hin : o ∈ obstacles (game w)).
    { apply Hsub. apply elem_of_cons. left. reflexivity. }
    destruct (list_remove_runs _ _ Hin) as (l' & Hl').
    destruct (list_remove_ok _ _ _ Hl' Hndl) as [_ Hl'eq].
    cbn [for_each]. unfold bind at 1. unfold bind at 1. unfold gets at 1.
    unfold bind at 1. unfold lift at 1. rewrite Hl'. unfold modify at 1.
    apply IH; simpl.
    + exact Hnd.
    + rewrite Hl'eq. apply NoDup_filter_bool. exact Hndl.
    + intros r Hr. rewrite Hl'eq. apply list_elem_of_In. apply List.filter_In.
      split.
      * apply list_elem_of_In. apply Hsub. apply elem_of_cons. right. exact Hr.
      * apply negb_true_iff, Nat.eqb_neq. intros ->. contradiction.
Qed.

Lemma update_obstacles_runs (w : World G) :
  wf w -> exists w', _update_obstacles w = Ok (tt, w').
Proof.
  intros Hwf.
  destruct (obstacles_pass_runs (obstacles (game w)) [] w
              (wf_rects _ Hwf) (wf_player _ Hwf) (wf_obstacles _ Hwf))
    as (ex & w1 & Hpass).
  unfold _update_obstacles. unfold bind at 1. unfold gets at 1.
  unfold bind at 1. rewrite Hpass.
  destruct ex as [|tr]; [eexists; reflexivity |].
  apply obstacles_pass_ok in Hpass;
    [| exact (wf_nodup _ Hwf) | exact (wf_player_apart _ Hwf)].
  destruct Hpass as (_ & _ & _ & Hg & Htr & _). simpl in Htr.
  apply remove_loop_runs.
  - rewrite Htr. apply NoDup_filter_bool. exact (wf_nodup _ Hwf).
  - rewrite Hg. exact (wf_nodup _ Hwf).
  - intros r Hr. rewrite Hg. rewrite Htr in Hr.
    apply list_elem_of_In in Hr. apply List.filter_In in Hr.
    apply list_elem_of_In. apply Hr.
Qed.

Lemma maybe_spawn_runs (w : World G) :
  wf w ->
  0 < lane_count (config (game w)) < PyFloat.int_limit ->
  exists w', _maybe_spawn_obstacle w = Ok (tt, w').
Proof.
  intros Hwf Hlanes.
  destruct (wf_car_width _ Hwf) as (cw & Hcw & Hcwfit).
  unfold _maybe_spawn_obstacle.
  unfold bind at 1. unfold gets at 1.
  unfold bind at 1. unfold modify at 1.
  unfold bind at 1. unfold gets at 1.
  cbn [game store rng spawn_timer set_spawn_timer].
  destruct (spawn_timer (game w) - 1 <=? 0); [| eexists; reflexivity].
  unfold bind at 1. unfold gets at 1.
  cbn [game config set_spawn_timer].
  unfold bind at 1. unfold py_randrange.
  destruct (0 <? lane_count (config (game w))) eqn:E;
    [| apply Z.ltb_ge in E; lia].
  unfold draw. cbn [game store rng].
  pose proof (randrange_range (lane_count (config (game w))) (rng w)
                              (proj1 Hlanes)) as Hlane.
  destruct (randrange (lane_count (config (game w))) (rng w)) as [lane g1].
  simpl in Hlane.
  unfold bind at 1. unfold gets at 1. cbn [game lane_width set_spawn_timer].
  unfold bind at 1. unfold lift at 1. rewrite Hcw.
  unfold bind at 1. unfold _lane_center.
  unfold bind at 1. unfold gets at 1.
  unfold bind at 1. unfold gets at 1.
  cbn [game track_left lane_width set_spawn_timer].
  unfold lane_center.
  rewrite (float_of_int_fits lane) by lia. cbn [rbind].
  rewrite (float_of_int_fits _ (wf_track_fits _ Hwf)). cbn [rbind lift].
  unfold bind at 1. unfold Car_init.
  unfold bind at 1. unfold Car_new.
  rewrite (float_of_int_fits _ Hcwfit). cbn [rbind lift].
  unfold alloc at 1. cbn [game store rng].
  unfold bind at 1. unfold modify at 1. cbn [game store rng].
  unfold bind at 1. unfold _next_spawn_delay.
  unfold bind at 1. unfold gets at 1.
  cbn [game spawn_cooldown_range set_obstacles set_spawn_timer].
  rewrite (wf_cooldown _ Hwf). cbn [fst snd]. unfold py_randint.
  change (60 <=? 120) with true. cbv iota. unfold draw. cbn [rng].
  destruct (randint 60 120 g1) as [delay g2].
  eexists. reflexivity.
Qed.

Lemma update_score_runs (w : World G) :
  fps (config (game w)) <> 0 ->
  Z.abs (fps (config (game w))) < PyFloat.int_limit ->
  exists w', _update_score w = Ok (tt, w').
Proof.
  intros Hnz Hfit. unfold _update_score.
  unfold bind at 1. unfold gets at 1.
  unfold bind at 1. unfold gets at 1.
  unfold bind at 1. unfold float_div_int.
  rewrite (float_of_int_fits _ Hfit). cbn [rbind].
  destruct (fps (config (game w)) =? 0) eqn:E; [lia |].
  eexists. reflexivity.
Qed.

(** [_reset_game] goes through from every state of a session. *)
Lemma reset_game_runs (w : World G) :
  wf w -> exists w', _reset_game w = Ok (tt, w').
Proof.
  intros Hwf.
  destruct (lookup_lt_is_Some_2 _ _ (wf_player _ Hwf)) as (pc & Hpc).
  assert (Hd : rect_derived pc).
  { pose proof (wf_rects _ Hwf) as Hall. rewrite Forall_lookup in Hall.
    eapply Hall, Hpc. }
  destruct Hd as (hw & Hhw & _).
  assert (H1 : float_of_int 1 = Ok (PyFloat.round_int 1)).
  { apply float_of_int_fits, small_fits. vm_compute. reflexivity. }
  pose proof (float_of_int_fits _ (wf_track_fits _ Hwf)) as Htl.
  unfold _reset_game, _next_spawn_delay, _lane_center, py_randint, draw,
    bind, modify, gets, deref, assign, lift.
  cbn [game store rng spawn_cooldown_range set_game_over set_obstacles
       set_score set_spawn_timer player_car track_left lane_width config].
  rewrite (wf_cooldown _ Hwf). cbn [fst snd].
  change (60 <=? 120) with true. cbv iota.
  cbn [game store rng].
  destruct (randint 60 120 (rng w)) as [delay g1].
  cbn [game store rng spawn_cooldown_range set_game_over set_obstacles
       set_score set_spawn_timer player_car track_left lane_width config].
  unfold lane_center. rewrite H1. cbn [rbind]. rewrite Htl. cbn [rbind].
  cbn [game store rng set_game_over set_obstacles set_score set_spawn_timer
       player_car].
  rewrite Hpc. unfold Car_placed. rewrite Hhw. cbn [rbind].
  cbn [game store rng set_game_over set_obstacles set_score set_spawn_timer
       player_car].
  rewrite Hpc. eexists. reflexivity.
Qed.

End Totality.
(** ** The player's car and the track bounds *)

Section Track.

Context {G : Type} {RS : RandomSource G}.

(** A float at or above an integer truncates to an integer at or above
    it. *)
Lemma ge_int_trunc (v : float) (z t : Z) :
  PyFloat.ge_int v z = true -> PyFloat.trunc v = Some t -> z <= t.
Proof.
  unfold PyFloat.ge_int, PyFloat.compare_int, PyFloat.trunc.
  destruct v as [s | s | | s m e]; try discriminate.
  - intros H [= <-]. destruct (0 ?= z) eqn:E; try discriminate.
    + apply Z.compare_eq in E. lia.
    + apply Z.compare_gt_iff in E. lia.
  - intros H [= <-]. unfold PyFloat.signed in H.
    destruct e as [|p|p].
    + rewrite Z.shiftl_0_r.
      destruct (cond_Zopp s (Z.pos m) * 2 ^ 0 ?= z) eqn:E; try discriminate.
      * apply Z.compare_eq in E. lia.
      * apply Z.compare_gt_iff in E. lia.
    + rewrite Z.shiftl_mul_pow2 by lia.
      assert (Hs : cond_Zopp s (Z.pos m * 2 ^ Z.pos p)
                   = cond_Zopp s (Z.pos m) * 2 ^ Z.pos p).
      { destruct s; simpl; lia. }
      rewrite Hs.
      destruct (cond_Zopp s (Z.pos m) * 2 ^ Z.pos p ?= z) eqn:E;
        try discriminate.
      * apply Z.compare_eq in E. lia.
      * apply Z.compare_gt_iff in E. lia.
    + change (Z.shiftl (Z.pos m) (Z.neg p))
        with (Z.shiftr (Z.pos m) (Z.pos p)).
      rewrite Z.shiftr_div_pow2 by lia.
      assert (Hpow : 0 < 2 ^ Z.pos p) by (apply Z.pow_pos_nonneg; lia).
      assert (Hge : z * 2 ^ Z.pos p <= cond_Zopp s (Z.pos m)).
      { destruct (cond_Zopp s (Z.pos m) ?= z * 2 ^ Z.pos p) eqn:E;
          try discriminate.
        - apply Z.compare_eq in E. lia.
        - apply Z.compare_gt_iff in E. lia. }
      destruct s; simpl in Hge |- *.
      * assert (Z.pos m `div` 2 ^ Z.pos p <= - z); [| lia].
        apply Z.div_le_upper_bound; [exact Hpow | lia].
      * apply Z.div_le_lower_bound; [exact Hpow | lia].
Qed.

Lemma default_centres_bounds (z : Z) :
  In z default_centres -> 90 <= z <= 310.
Proof.
  unfold default_centres. intros H. apply List.in_map_iff in H.
  destruct H as (k & <- & Hk). apply List.in_seq in Hk. lia.
Qed.

Lemma default_centre_200 : In 200 default_centres.
Proof.
  unfold default_centres. apply List.in_map_iff. exists 22%nat.
  split; [reflexivity |]. apply List.in_seq. lia.
Qed.

(** In the default game a move of the player that passes the bounds test
    leads from one of the centres to another. *)
Lemma default_move (z dx : Z) (g : RacingGame) (c' : Car) :
  In z default_centres -> dx = 5 \/ dx = - 5 ->
  track_left g = 60 -> track_right g = 340 ->
  move_fits g (default_player z) dx = Ok true ->
  Car_moved (default_player z) dx 0 = Ok c' ->
  c' = default_player (z + dx) /\ In (z + dx) default_centres.
Proof.
  intros Hz Hdx Htl Htr. unfold move_fits. rewrite Htl, Htr.
  vm_compute in Hz.
  repeat (destruct Hz as [<- | Hz];
          [ destruct Hdx as [-> | ->]; vm_compute;
            (intros H; discriminate H)
            || (intros _ [= <-]; split;
                [ reflexivity | repeat first [left; reflexivity | right] ])
          | ]).
  destruct Hz.
Qed.

Lemma same_player_refl (w : World G) : same_player w w.
Proof. repeat split. Qed.

Lemma same_player_trans (w1 w2 w3 : World G) :
  same_player w1 w2 -> same_player w2 w3 -> same_player w1 w3.
Proof.
  intros (Hc & Hl & Hp & Hs) (Hc' & Hl' & Hp' & Hs').
  rewrite Hp in Hs'. unfold same_player. repeat split; congruence.
Qed.

Lemma default_session_same (w w' : World G) :
  default_session w -> wf w' -> same_player w w' -> default_session w'.
Proof.
  intros (_ & Hcfg & Hlw & z & Hz & Hp) Hwf (Hc & Hl & Hpc & Hs).
  split; [exact Hwf |]. split; [congruence |]. split; [congruence |].
  exists z. split; [exact Hz |]. rewrite Hpc. congruence.
Qed.

Lemma default_session_track (w : World G) :
  default_session w ->
  track_left (game w) = 60 /\ track_right (game w) = 340 /\
  car_speed (game w) = 5.
Proof.
  intros (Hwf & Hcfg & _). destruct (wf_track _ Hwf) as [Htl Htr].
  destruct (wf_speeds _ Hwf) as (Hs & _). rewrite Hcfg in Htl, Htr.
  repeat split; assumption.
Qed.

(** [_update_car] keeps a default session one. *)
Lemma default_update_car (keys : Keys) (w w' : World G) :
  default_session w -> _update_car keys w = Ok (tt, w') -> default_session w'.
Proof.
  intros Hd H. pose proof Hd as (Hwf & Hcfg & Hlw & z & Hz & Hp).
  pose proof (wf_update_car _ _ _ Hwf H) as Hwf'.
  destruct (default_session_track _ Hd) as (Htl & Htr & Hspeed).
  apply update_car_ok in H. cbv zeta in H.
  destruct H as [[_ ->] | (Hdx & c & Hc & [[_ ->] | (Hfit & c' & Hm & ->)])];
    try exact Hd.
  rewrite Hp in Hc. injection Hc as <-.
  assert (Hcases : requested_dx (game w) keys = 5
                   \/ requested_dx (game w) keys = - 5).
  { revert Hdx. unfold requested_dx. rewrite Hspeed.
    destruct (pressed_left keys && negb (pressed_right keys));
      [intros _; right; reflexivity |].
    destruct (pressed_right keys && negb (pressed_left keys));
      [intros _; left; reflexivity | intros Hne; contradiction]. }
  destruct (default_move _ _ _ _ Hz Hcases Htl Htr Hfit Hm) as [-> Hz'].
  split; [exact Hwf' |]. split; [exact Hcfg |]. split; [exact Hlw |].
  exists (z + requested_dx (game w) keys). split; [exact Hz' |].
  apply list_lookup_insert_eq. apply (wf_player _ Hwf).
Qed.

Lemma same_player_update_lane_markers (w w' : World G) :
  _update_lane_markers w = Ok (tt, w') -> same_player w w'.
Proof.
  rewrite update_lane_markers_eq. intros [= <-]. repeat split.
Qed.

Lemma same_player_update_obstacles (w w' : World G) :
  wf w -> _update_obstacles w = Ok (tt, w') -> same_player w w'.
Proof.
  intros Hwf H.
  apply update_obstacles_ok in H;
    [| apply (wf_nodup _ Hwf) | apply (wf_player_apart _ Hwf)].
  destruct H as (_ & _ & Hst & [[Hg _] | [Hg _]]);
    unfold same_player; rewrite Hg; simpl; repeat split;
    apply Hst; apply (wf_player_apart _ Hwf).
Qed.

Lemma same_player_maybe_spawn (w w' : World G) :
  wf w -> _maybe_spawn_obstacle w = Ok (tt, w') -> same_player w w'.
Proof.
  intros Hwf H. apply maybe_spawn_ok in H. cbv zeta in H.
  destruct H as [[_ ->] | (_ & lane & g1 & cw & x & car & delay & g2 & _
                           & _ & _ & _ & _ & _ & _ & ->)];
    unfold same_player; simpl; repeat split.
  apply lookup_app_l. apply (wf_player _ Hwf).
Qed.

Lemma same_player_update_score (w w' : World G) :
  _update_score w = Ok (tt, w') -> same_player w w'.
Proof.
  intros H. apply update_score_ok in H. destruct H as (q & _ & ->).
  repeat split.
Qed.

Lemma default_update (keys : Keys) (w w' : World G) :
  default_session w -> update keys w = Ok (tt, w') -> default_session w'.
Proof.
  intros Hd H. destruct (game_over (game w)) eqn:Hover.
  - rewrite update_over in H by assumption. injection H as <-. exact Hd.
  - pose proof Hd as (Hwf & _).
    pose proof (wf_update _ _ _ Hwf H) as Hwf'.
    apply update_running_ok in H; [| assumption].
    destruct H as (w1 & w2 & w3 & w4 & H1 & H2 & H3 & H4 & H5).
    pose proof (default_update_car _ _ _ Hd H1) as Hd1.
    pose proof Hd1 as (Hwf1 & _).
    pose proof (wf_update_lane_markers _ _ Hwf1 H2) as Hwf2.
    pose proof (wf_update_obstacles _ _ Hwf2 H3) as Hwf3.
    pose proof (wf_maybe_spawn _ _ Hwf3 H4) as Hwf4.
    apply (default_session_same w1); [exact Hd1 | exact Hwf' |].
    eapply same_player_trans;
      [apply same_player_update_lane_markers; exact H2 |].
    eapply same_player_trans;
      [apply same_player_update_obstacles; [exact Hwf2 | exact H3] |].
    eapply same_player_trans;
      [apply same_player_maybe_spawn; [exact Hwf3 | exact H4] |].
    apply same_player_update_score. exact H5.
Qed.

(** [_reset_game] puts the default player back on the centre 200. *)
Lemma default_reset_game (w w' : World G) :
  default_session w -> _reset_game w = Ok (tt, w') -> default_session w'.
Proof.
  intros Hd H. pose proof Hd as (Hwf & Hcfg & Hlw & z & Hz & Hp).
  pose proof (wf_reset_game _ _ Hwf H) as Hwf'.
  destruct (default_session_track _ Hd) as (Htl & _ & _).
  apply reset_game_ok in H. cbv zeta in H.
  destruct H as (delay & g1 & x & c & c' & _ & _ & Hx & Hc & Hpl & ->).
  rewrite Hp in Hc. injection Hc as <-.
  rewrite Htl, Hlw in Hx. rewrite Hcfg in Hpl.
  assert (Hx' : lane_center 60 (S754_finite false 6567749456581973 (-46)) 1
                = Ok (PyFloat.round_int 200)) by (vm_compute; reflexivity).
  assert (x = PyFloat.round_int 200) by congruence. subst x.
  assert (Hpl' : Car_placed (default_player z) (PyFloat.round_int 200)
                            (height default_config - 80)
                 = Ok (default_player 200)) by (vm_compute; reflexivity).
  assert (c' = default_player 200) by congruence. subst c'.
  split; [exact Hwf' |]. split; [exact Hcfg |]. split; [exact Hlw |].
  exists 200. split; [exact default_centre_200 |].
  apply list_lookup_insert_eq. apply (wf_player _ Hwf).
Qed.

Lemma default_handle_event (e : Event) (w w' : World G) :
  default_session w -> handle_event e w = Ok (tt, w') -> default_session w'.
Proof.
  intros Hd H.
  assert (He : e = KEYDOWN K_RETURN \/ e <> KEYDOWN K_RETURN).
  { destruct e as [|k|]; [right | destruct k; [left | right ..] | right];
      congruence. }
  destruct He as [-> | Hne].
  - destruct (game_over (game w)) eqn:Hover.
    + rewrite handle_event_return_over in H by assumption.
      eapply default_reset_game; eassumption.
    + rewrite handle_event_return_running in H by assumption.
      injection H as <-. exact Hd.
  - destruct (handle_event_other e w Hne) as (b & Hb).
    rewrite Hb in H. injection H as <-.
    destruct Hd as (Hwf & Hcfg & Hlw & z & Hz & Hp).
    split.
    + eapply wf_handle_event; [exact Hwf | exact Hb].
    + simpl. split; [exact Hcfg |]. split; [exact Hlw |].
      exists z. split; assumption.
Qed.

Lemma default_handle_events (evs : list Event) :
  forall (w w' : World G),
    default_session w -> handle_events evs w = Ok (tt, w') ->
    default_session w'.
Proof.
  unfold handle_events.
  induction evs as [|e evs IH]; intros w w' Hd H.
  - simpl in H. unfold ret in H. injection H as <-. exact Hd.
  - cbn [for_each] in H. step_as H E.
    eapply IH; [| exact H]. eapply default_handle_event; eassumption.
Qed.

Lemma default_run (inputs : list FrameInput) :
  forall (w w' : World G),
    default_session w -> run inputs w = Ok (tt, w') -> default_session w'.
Proof.
  induction inputs as [|i rest IH]; intros w w' Hd H.
  - simpl in H. unfold ret in H. injection H as <-. exact Hd.
  - cbn [run] in H. step H. destruct (running (game w)).
    + step_as H E. eapply IH; [| exact H].
      unfold frame in E. step_as E E1.
      eapply default_update; [| exact E].
      eapply default_handle_events; eassumption.
    + unfold ret in H. injection H as <-. exact Hd.
Qed.

(** [RacingGame()] starts a default session, the player on the centre
    200. *)
Lemma default_init (g : G) (w : World G) :
  RacingGame_init None g = Ok w -> default_session w.
Proof.
  intros H. pose proof (wf_init _ _ _ H) as Hwf.
  apply RacingGame_init_ok in H. cbv zeta in H.
  destruct H as (lw & cw & cx & car & delay & g1 & ms & Hlw & Hcw & Hcx
                 & Hcar & _ & _ & ->).
  assert (Hlw' : int_truediv
                   (width default_config - border_x default_config
                    - border_x default_config) (lane_count default_config)
                 = Ok (S754_finite false 6567749456581973 (-46)))
    by (vm_compute; reflexivity).
  assert (lw = S754_finite false 6567749456581973 (-46)) by congruence.
  subst lw.
  assert (Hcw' : py_int (PyFloat.mul
                           (S754_finite false 6567749456581973 (-46))
                           PyFloat.f0_6) = Ok 55) by (vm_compute; reflexivity).
  assert (cw = 55) by congruence. subst cw.
  assert (Hcx' : lane_center (border_x default_config)
                             (S754_finite false 6567749456581973 (-46)) 1
                 = Ok (PyFloat.round_int 200)) by (vm_compute; reflexivity).
  assert (cx = PyFloat.round_int 200) by congruence. subst cx.
  assert (Hcar' : Car_new (PyFloat.round_int 200)
                          (height default_config - 80) 55 40 color_player_car
                  = Ok (default_player 200)) by (vm_compute; reflexivity).
  assert (car = default_player 200) by congruence. subst car.
  split; [exact Hwf |]. split; [reflexivity |]. split; [reflexivity |].
  exists 200. split; [exact default_centre_200 | reflexivity].
Qed.

(** X2. A move request that fails the bounds test changes nothing at all:
    [_update_car] returns and the session is the one it was. *)
Theorem rejected_move_changes_nothing (keys : Keys) (w : World G) (c : Car) :
  store w !! player_car (game w) = Some c ->
  move_fits (game w) c (requested_dx (game w) keys) = Ok false ->
  _update_car keys w = Ok (tt, w).
Proof.
  intros Hc Hfit.
  change (_update_car keys w)
    with ((if requested_dx (game w) keys =? 0 then ret tt
           else
             bind (gets player_car) (fun p =>
             bind (deref p) (fun c =>
             bind (lift (float_of_int (requested_dx (game w) keys)))
                  (fun fdx =>
             bind (lift (float_of_int (car_width c / 2))) (fun hw =>
             bind (gets track_left) (fun tl =>
             bind (gets track_right) (fun tr =>
             if PyFloat.ge_int (PyFloat.sub (PyFloat.add (car_x c) fdx) hw) tl
                && PyFloat.le_int (PyFloat.add (PyFloat.add (car_x c) fdx) hw)
                                  tr
             then Car_update p (requested_dx (game w) keys) 0
             else ret tt))))))) w).
  destruct (requested_dx (game w) keys =? 0); [reflexivity |].
  unfold move_fits in Hfit. unfold bind, gets, deref. rewrite Hc.
  destruct (float_of_int (requested_dx (game w) keys)) as [fdx | |];
    try discriminate.
  destruct (float_of_int (car_width c / 2)) as [hw | |]; try discriminate.
  cbn [rbind] in Hfit. injection Hfit as Hfit. unfold lift.
  rewrite Hfit. reflexivity.
Qed.

(** X3. A move that passes the bounds test leaves the left edge of the player's
    rectangle at or right of [track_left], as long as the new left
    coordinate is a finite float. *)
Theorem accepted_move_keeps_left_edge
        (g : RacingGame) (c c' : Car) (dx t : Z) (hw : float) :
  move_fits g c dx = Ok true ->
  Car_moved c dx 0 = Ok c' ->
  float_of_int (car_width c / 2) = Ok hw ->
  PyFloat.trunc (PyFloat.sub (car_x c') hw) = Some t ->
  track_left g <= rect_x (car_rect c').
Proof.
  unfold move_fits, Car_moved. intros Hfit Hm Hhw Ht.
  destruct (float_of_int dx) as [fdx | |]; try discriminate.
  rewrite Hhw in Hfit, Hm. cbn [rbind] in Hfit, Hm.
  injection Hm as <-. cbn [car_x car_rect rect_x] in Ht |- *.
  injection Hfit as Hfit. apply andb_true_iff in Hfit. destruct Hfit as [Hge _].
  unfold rect_coord. rewrite Ht. eapply ge_int_trunc; eassumption.
Qed.

(** X1. In a game with the default configuration the player's rectangle is on
    the road at the start of every turn of the main loop: it spans at most
    [63, 338) of the track [60, 340]. *)
Theorem default_player_stays_in_track
        (g : G) (inputs : list FrameInput) (w0 w : World G) (c : Car) :
  RacingGame_init None g = Ok w0 ->
  run inputs w0 = Ok (tt, w) ->
  store w !! player_car (game w) = Some c ->
  rect_in_track (game w) (car_rect c).
Proof.
  intros Hinit Hrun Hc.
  pose proof (default_run _ _ _ (default_init _ _ Hinit) Hrun) as Hd.
  destruct (default_session_track _ Hd) as (Htl & Htr & _).
  destruct Hd as (_ & _ & _ & z & Hz & Hp).
  rewrite Hp in Hc. injection Hc as <-.
  apply default_centres_bounds in Hz.
  unfold rect_in_track. rewrite Htl, Htr. simpl. lia.
Qed.

End Track.


(** ** Collisions *)

Section Collisions.

Context {G : Type} {RS : RandomSource G}.

(** How the first loop ends decides the flag: [return] comes right after
    [_game_over()], with an obstacle of the list on the player. *)
Lemma obstacles_pass_exit (obs : list ref) :
  forall (tr : list ref) (w w' : World G) (ex : loop_exit),
    obstacles_pass obs tr w = Ok (ex, w') ->
    match ex with
    | Returned =>
        game w' = set_game_over true (game w) /\
        exists r pc c,
          r ∈ obs /\ store w' !! player_car (game w) = Some pc /\
          store w' !! r = Some c /\
          colliderect (car_rect pc) (car_rect c) = true
    | Completed _ => game w' = game w
    end.
Proof.
  induction obs as [|o rest IH]; intros tr w w' ex H.
  - simpl in H. unfold ret in H. injection H as <- <-. reflexivity.
  - apply obstacles_pass_step in H. destruct H as (c' & Hmo & H).
    cbv zeta in H.
    assert (Holt : (o < length (store w))%nat).
    { destruct Hmo as (c & Hc & _). eapply lookup_lt_Some, Hc. }
    assert (Hnext : forall tr1,
      obstacles_pass rest tr1
        (mkWorld (game w) (<[o := c']> (store w)) (rng w)) = Ok (ex, w') ->
      match ex with
      | Returned =>
          game w' = set_game_over true (game w) /\
          exists r pc c,
            r ∈ o :: rest /\ store w' !! player_car (game w) = Some pc /\
            store w' !! r = Some c /\
            colliderect (car_rect pc) (car_rect c) = true
      | Completed _ => game w' = game w
      end).
    { intros tr1 H1. apply IH in H1. destruct ex as [|tr']; [| exact H1].
      destruct H1 as (Hg & r & pc & c & Hr & Hpc & Hc & Hhit).
      split; [exact Hg |]. exists r, pc, c.
      split; [apply elem_of_cons; right; exact Hr |].
      repeat split; assumption. }
    destruct (height (config (game w)) <? car_y c'); [eapply Hnext, H |].
    destruct H as (pc & Hpc & H).
    destruct (colliderect (car_rect pc) (car_rect c')) eqn:Ehit;
      [| eapply Hnext, H].
    destruct H as [-> ->]. simpl. split; [reflexivity |].
    exists o, pc, c'. split; [apply elem_of_cons; left; reflexivity |].
    split; [exact Hpc |]. split; [| exact Ehit].
    apply list_lookup_insert_eq. exact Holt.
Qed.



Lemma update_car_frame (keys : Keys) (w w1 : World G) :
  _update_car keys w = Ok (tt, w1) ->
  game w1 = game w /\ rng w1 = rng w /\
  length (store w1) = length (store w) /\
  forall q, q <> player_car (game w) -> store w1 !! q = store w !! q.
Proof.
  intros H. apply update_car_ok in H. cbv zeta in H.
  destruct H as [[_ ->] | (_ & c & Hc & [[_ ->] | (_ & c' & Hm & ->)])];
    try (repeat split; reflexivity).
  simpl. repeat split.
  - apply length_insert.
  - intros q Hq. apply list_lookup_insert_ne. congruence.
Qed.

(** An obstacle whose centre is below the screen cannot touch the player,
    who sits 80 pixels above the bottom. *)
Lemma below_screen_clear (w : World G) (r : ref) (c' : Car) :
  wf w -> r ∈ obstacles (game w) -> moved_to w r c' ->
  (height (config (game w)) <? car_y c') = true ->
  overlaps_after_move w r = false.
Proof.
  intros Hwf Hr Hm Hflag.
  destruct (lookup_lt_is_Some_2 _ _ (wf_player _ Hwf)) as (pc & Hpc).
  rewrite (overlaps_eq _ _ _ _ Hpc Hm).
  destruct (moved_to_derived _ _ _ Hwf Hm) as (c & Hc & Hd' & Hh & _).
  pose proof (wf_obstacle_geom _ Hwf _ _ Hr Hc) as Hh50.
  destruct (wf_player_geom _ Hwf _ Hpc) as [Hpy Hph].
  assert (Hdp : rect_derived pc).
  { pose proof (wf_rects _ Hwf) as Hall. rewrite Forall_lookup in Hall.
    eapply Hall, Hpc. }
  destruct Hdp as (_ & _ & _ & Hry & _ & Hrh).
  destruct Hd' as (_ & _ & _ & Hry' & _ & Hrh').
  apply Z.ltb_lt in Hflag.
  unfold colliderect.
  destruct (_ || _ || _ || _); [reflexivity |].
  apply andb_false_iff. right. apply Z.ltb_ge.
  rewrite Hry, Hrh, Hry', Hrh', Hpy, Hph, Hh, Hh50.
  change (40 `div` 2) with 20. change (50 `div` 2) with 25. lia.
Qed.

Lemma handle_events_no_restart (evs : list Event) :
  forall (w : World G),
    Forall (fun e => e <> KEYDOWN K_RETURN) evs ->
    exists b, handle_events evs w
              = Ok (tt, mkWorld (set_running b (game w)) (store w) (rng w)).
Proof.
  unfold handle_events.
  induction evs as [|e evs IH]; intros w Hevs.
  - exists (running (game w)). simpl. unfold ret.
    destruct w as [g st r]. destruct g. reflexivity.
  - apply Forall_cons in Hevs. destruct Hevs as [He Hevs].
    destruct (handle_event_other e w He) as (b1 & Hb1).
    destruct (IH (mkWorld (set_running b1 (game w)) (store w) (rng w)) Hevs)
      as (b2 & Hb2).
    exists b2. cbn [for_each]. unfold bind at 1. rewrite Hb1.
    rewrite Hb2. reflexivity.
Qed.

(** Once the game is over the loop changes nothing but [running], as long
    as no restart key arrives. *)
Lemma run_halted (inputs : list FrameInput) :
  forall (w : World G),
    game_over (game w) = true -> no_restart inputs ->
    exists b, run inputs w
              = Ok (tt, mkWorld (set_running b (game w)) (store w) (rng w)).
Proof.
  assert (Hid : forall w : World G,
    Ok (tt, w) = Ok (tt, mkWorld (set_running (running (game w)) (game w))
                                 (store w) (rng w))).
  { intros [g st r]. destruct g. reflexivity. }
  induction inputs as [|i rest IH]; intros w Hover Hno.
  - exists (running (game w)). simpl. unfold ret. apply Hid.
  - apply Forall_cons in Hno. destruct Hno as [Hi Hno].
    cbn [run]. unfold bind at 1. unfold gets at 1.
    destruct (running (game w)) eqn:Hon.
    + destruct (handle_events_no_restart (events i) w Hi) as (b1 & Hb1).
      set (w1 := mkWorld (set_running b1 (game w)) (store w) (rng w)) in *.
      destruct (IH w1 Hover Hno) as (b2 & Hb2).
      exists b2. unfold frame. unfold bind at 1. unfold bind at 1.
      rewrite Hb1. rewrite (update_over (keys i) w1 Hover).
      rewrite Hb2. reflexivity.
    + exists false. unfold ret. rewrite <- Hon. apply Hid.
Qed.

(** C1, amended. When an obstacle overlaps the player the session is over
    at once: the obstacle pass stops at the first obstacle on the player,
    the obstacles behind it in the list are not touched and none is
    removed.  The remaining two steps of that frame still run: the spawn
    timer goes down (a new obstacle appears if it runs out) and the score
    gets its increment.  From the next frame on nothing changes until a
    restart: obstacles, score, timer, markers and player stay as they
    are. *)
Theorem collision_frame_effects (w w' : World G) (keys : Keys) :
  wf w ->
  game_over (game w) = false ->
  update keys w = Ok (tt, w') ->
  game_over (game w') = true ->
  (exists w1 pre r post,
     _update_car keys w = Ok (tt, w1) /\
     obstacles (game w) = pre ++ r :: post /\
     (forall q, q ∈ pre -> overlaps_after_move w1 q = false) /\
     overlaps_after_move w1 r = true /\
     (forall q, q ∈ post -> store w' !! q = store w !! q)) /\
  (exists q, float_div_int PyFloat.one (fps (config (game w))) = Ok q /\
             score (game w') = PyFloat.add (score (game w)) q) /\
  (0 < spawn_timer (game w) - 1 ->
     spawn_timer (game w') = spawn_timer (game w) - 1 /\
     obstacles (game w') = obstacles (game w)) /\
  (spawn_timer (game w) - 1 <= 0 ->
     60 <= spawn_timer (game w') <= 120 /\
     obstacles (game w') = obstacles (game w) ++ [length (store w)]) /\
  (forall inputs, no_restart inputs ->
     exists b, run inputs w'
               = Ok (tt, mkWorld (set_running b (game w')) (store w') (rng w'))).
Proof.
  intros Hwf Hrun H Hover.
  apply update_running_ok in H; [| assumption].
  destruct H as (w1 & w2 & w3 & w4 & H1 & H2 & H3 & H4 & H5).
  pose proof (wf_update_car _ _ _ Hwf H1) as Hwf1.
  pose proof (wf_update_lane_markers _ _ Hwf1 H2) as Hwf2.
  destruct (update_car_frame _ _ _ H1) as (Hg1 & Hr1 & Hl1 & Hs1).
  rewrite update_lane_markers_eq in H2. injection H2 as <-.
  apply update_score_ok in H5. destruct H5 as (q & Hq & ->).
  simpl in Hover.
  assert (Hover3 : game_over (game w3) = true).
  { apply maybe_spawn_ok in H4. cbv zeta in H4.
    destruct H4 as [[_ ->] | (_ & lane & g1 & cw & x & car & delay & g2 & _
                               & _ & _ & _ & _ & _ & _ & ->)];
      simpl in Hover; exact Hover. }
  pose proof H3 as H3'.
  apply update_obstacles_ok in H3';
    [| exact (wf_nodup _ Hwf2) | exact (wf_player_apart _ Hwf2)].
  simpl in H3'.
  destruct H3' as (Hr3 & Hl3 & Hfr3 & [[Hg3 _] | (Hg3 & pre & r & post & Hobs
                                                  & Hmv & Hpre & Hcb & Hov & Hpost)]).
  { rewrite Hg3 in Hover3. simpl in Hover3. rewrite Hg1 in Hover3. congruence. }
  assert (Hobs0 : obstacles (game w) = pre ++ r :: post).
  { rewrite <- Hobs, Hg1. reflexivity. }
  assert (Hov12 : forall x,
    overlaps_after_move
      (mkWorld (set_lane_markers
                  (map (marker_step (game w1)) (lane_markers (game w1)))
                  (game w1)) (store w1) (rng w1)) x
    = overlaps_after_move w1 x).
  { intros x. reflexivity. }
  assert (Hin3 : forall x, x ∈ obstacles (game w) ->
                           (x < length (store w3))%nat).
  { intros x Hx. rewrite Hl3, Hl1.
    pose proof (wf_obstacles _ Hwf) as Hall. rewrite Forall_forall in Hall.
    apply Hall, Hx. }
  assert (Hne : forall x, x ∈ obstacles (game w) -> x <> player_car (game w)).
  { intros x Hx ->. exact (wf_player_apart _ Hwf Hx). }
  apply maybe_spawn_ok in H4. cbv zeta in H4.
  split; [| split; [| split; [| split]]].
  - exists w1, pre, r, post. split; [exact H1 |]. split; [exact Hobs0 |].
    split; [| split].
    + intros x Hx. rewrite <- Hov12.
      destruct (Hpre x Hx) as [Hb | Hc]; [| exact Hc].
      destruct (Hmv x) as (c' & Hm & Hs').
      { rewrite elem_of_app. left. exact Hx. }
      eapply below_screen_clear; [exact Hwf2 | | exact Hm |].
      * simpl. rewrite Hobs. rewrite elem_of_app. left. exact Hx.
      * unfold centre_below in Hb. rewrite Hs' in Hb. rewrite Hg3 in Hb.
        exact Hb.
    + rewrite <- Hov12. exact Hov.
    + intros x Hx.
      assert (Hx0 : x ∈ obstacles (game w)).
      { rewrite Hobs0. rewrite elem_of_app, elem_of_cons. right. right.
        exact Hx. }
      assert (Hx3 : store w3 !! x = store w !! x).
      { rewrite (Hpost x Hx). apply Hs1, Hne, Hx0. }
      destruct H4 as [[_ ->] | (_ & lane & g1 & cw & x1 & car & delay & g2 & _
                                 & _ & _ & _ & _ & _ & _ & ->)]; simpl.
      * exact Hx3.
      * rewrite lookup_app_l by (apply Hin3, Hx0). exact Hx3.
  - exists q. split.
    + destruct H4 as [[_ ->] | (_ & lane & g1 & cw & x1 & car & delay & g2 & _
                                 & _ & _ & _ & _ & _ & _ & ->)];
        simpl in Hq; rewrite Hg3 in Hq; simpl in Hq; rewrite Hg1 in Hq;
        exact Hq.
    + destruct H4 as [[_ ->] | (_ & lane & g1 & cw & x1 & car & delay & g2 & _
                                 & _ & _ & _ & _ & _ & _ & ->)];
        simpl; rewrite Hg3; simpl; rewrite Hg1; reflexivity.
  - intros Ht.
    destruct H4 as [[_ ->] | (Hle & _)].
    + simpl. rewrite Hg3. simpl. rewrite Hg1. split; reflexivity.
    + rewrite Hg3 in Hle. simpl in Hle. rewrite Hg1 in Hle. lia.
  - intros Ht.
    destruct H4 as [[Hlt _] | (_ & lane & g1 & cw & x1 & car & delay & g2 & _
                                & _ & _ & _ & _ & Hle & Hd & ->)].
    + rewrite Hg3 in Hlt. simpl in Hlt. rewrite Hg1 in Hlt. lia.
    + simpl. rewrite Hg3 in Hd, Hle |- *. simpl in Hd, Hle |- *.
      rewrite Hg1 in Hd, Hle |- *.
      rewrite (wf_cooldown _ Hwf) in Hd, Hle. simpl in Hd, Hle.
      pose proof (randint_range 60 120 g1 Hle) as Hrange.
      rewrite Hd in Hrange. simpl in Hrange.
      split; [exact Hrange |]. rewrite Hl3, Hl1. reflexivity.
  - intros inputs Hno. apply run_halted; [| exact Hno]. exact Hover.
Qed.

End Collisions.


(** ** The life of an obstacle *)

Section Lifecycle.

Context {G : Type} {RS : RandomSource G}.


(** The two ways [_update_obstacles] ends, told apart by the flag. *)
Lemma update_obstacles_cases (w w' : World G) :
  wf w -> game_over (game w) = false ->
  _update_obstacles w = Ok (tt, w') ->
  (game_over (game w') = false /\
   game w' = set_obstacles
               (List.filter (fun r => negb (centre_below w' r))
                            (obstacles (game w)))
               (game w) /\
   forall r, r ∈ obstacles (game w) ->
     overlaps_after_move w r = false /\
     exists c', moved_to w r c' /\ store w' !! r = Some c')
  \/
  (game_over (game w') = true /\
   game w' = set_game_over true (game w) /\
   exists pre r post, obstacles (game w) = pre ++ r :: post /\
     (forall q, q ∈ pre -> overlaps_after_move w q = false) /\
     overlaps_after_move w r = true /\
     (forall q, q ∈ pre ++ [r] ->
        exists c', moved_to w q c' /\ store w' !! q = Some c') /\
     (forall q, q ∈ post -> store w' !! q = store w !! q)).
Proof.
  intros Hwf Hrun H.
  apply update_obstacles_ok in H;
    [| exact (wf_nodup _ Hwf) | exact (wf_player_apart _ Hwf)].
  destruct H as (_ & _ & _ & [[Hg Hall] | (Hg & pre & r & post & Hobs & Hmv
                                           & Hpre & Hcb & Hov & Hpost)]).
  - left. split; [rewrite Hg; exact Hrun |]. split; [exact Hg |].
    intros r Hr. destruct (Hall r Hr) as (c' & Hm & Hs & Hno).
    split; [| exists c'; split; assumption].
    destruct (centre_below w' r) eqn:Ecb; [| apply Hno; reflexivity].
    eapply below_screen_clear; [exact Hwf | exact Hr | exact Hm |].
    unfold centre_below in Ecb. rewrite Hs, Hg in Ecb. exact Ecb.
  - right. split; [rewrite Hg; reflexivity |]. split; [exact Hg |].
    exists pre, r, post. split; [exact Hobs |].
    split; [| split; [exact Hov | split; [exact Hmv | exact Hpost]]].
    intros q Hq. destruct (Hpre q Hq) as [Hb | Hc]; [| exact Hc].
    destruct (Hmv q) as (c' & Hm & Hs).
    { rewrite elem_of_app. left. exact Hq. }
    eapply below_screen_clear; [exact Hwf | | exact Hm |].
    + rewrite Hobs. rewrite elem_of_app. left. exact Hq.
    + unfold centre_below in Hb. rewrite Hs, Hg in Hb. exact Hb.
Qed.

(** C3, amended. In a frame whose obstacle update finds no collision, an
    obstacle leaves the list if and only if its centre, once moved down, is
    below the bottom of the screen (its top edge may still be visible); the
    others keep their order.  In a frame with a collision none leaves. *)
Theorem obstacle_removed_iff_centre_below (w w' : World G) :
  wf w ->
  game_over (game w) = false ->
  _update_obstacles w = Ok (tt, w') ->
  (game_over (game w') = false ->
     obstacles (game w')
     = List.filter (fun r => negb (centre_below w' r)) (obstacles (game w)) /\
     forall r, r ∈ obstacles (game w) ->
       exists c', moved_to w r c' /\ store w' !! r = Some c') /\
  (game_over (game w') = true -> obstacles (game w') = obstacles (game w)) /\
  (forall r, r ∈ obstacles (game w) ->
     (r ∉ obstacles (game w') <->
      game_over (game w') = false /\ centre_below w' r = true)).
Proof.
  intros Hwf Hrun H.
  destruct (update_obstacles_cases _ _ Hwf Hrun H)
    as [(Hover & Hg & Hall) | (Hover & Hg & _)].
  - split; [| split].
    + intros _. split; [rewrite Hg; reflexivity |].
      intros r Hr. apply Hall, Hr.
    + intros Ht. congruence.
    + intros r Hr. rewrite Hg at 1. simpl. split.
      * intros Hout. split; [exact Hover |].
        destruct (centre_below w' r) eqn:E; [reflexivity |].
        exfalso. apply Hout. apply list_elem_of_In. apply List.filter_In.
        split; [apply list_elem_of_In; exact Hr |]. rewrite E. reflexivity.
      * intros [_ Hb] Hin. apply list_elem_of_In in Hin.
        apply List.filter_In in Hin. destruct Hin as [_ Hin].
        rewrite Hb in Hin. discriminate.
  - split; [| split].
    + intros Hf. congruence.
    + intros _. rewrite Hg. reflexivity.
    + intros r Hr. split.
      * intros Hout. exfalso. apply Hout. rewrite Hg. exact Hr.
      * intros [Hf _]. congruence.
Qed.


End Lifecycle.

(** ** Restart *)

Section Restart.

Context {G : Type} {RS : RandomSource G}.



End Restart.

(** ** Spawning *)

Section Spawning.

Context {G : Type} {RS : RandomSource G}.


End Spawning.

(** ** Vehicles and their rectangles *)

Section Vehicles.

Context {G : Type} {RS : RandomSource G}.


End Vehicles.

(** ** Score *)

Section Scoring.

Context {G : Type} {RS : RandomSource G}.

(** The second loop of [_update_obstacles] only writes the list. *)
Lemma remove_loop_frame (tr : list ref) :
  forall (w w' : World G),
    for_each tr (fun obstacle =>
      bind (gets obstacles) (fun cur =>
      bind (lift (list_remove obstacle cur)) (fun cur' =>
      modify (set_obstacles cur')))) w = Ok (tt, w') ->
    exists l, w' = mkWorld (set_obstacles l (game w)) (store w) (rng w).
Proof.
  induction tr as [|o tr IH]; intros w w' H.
  - simpl in H. unfold ret in H. injection H as <-.
    exists (obstacles (game w)). destruct w as [g st r]. destruct g.
    reflexivity.
  - cbn [for_each] in H. step_as H E1. step E1.
    step_as E1 E2. apply lift_ok in E2. destruct E2 as [_ ->].
    unfold modify in E1. injection E1 as <-.
    apply IH in H. destruct H as (l & ->). exists l. reflexivity.
Qed.

(** [_update_obstacles] writes nothing of the session but the obstacle list
    and the flag. *)
Lemma update_obstacles_attrs (w w' : World G) :
  _update_obstacles w = Ok (tt, w') ->
  exists l b, game w' = set_game_over b (set_obstacles l (game w)).
Proof.
  intros H. unfold _update_obstacles in H. step H. step_as H Epass.
  match type of Epass with _ = Ok (?e, _) => destruct e as [|tr] end;
    apply obstacles_pass_exit in Epass.
  - unfold ret in H. injection H as <-. destruct Epass as (Hg & _).
    exists (obstacles (game w)), true. rewrite Hg.
    destruct (game w). reflexivity.
  - apply remove_loop_frame in H. destruct H as (l & ->). simpl.
    exists l, (game_over (game w)). rewrite Epass.
    destruct (game w). reflexivity.
Qed.

(** The attributes [update] leaves alone in a running frame, and what it
    does to markers and score. *)
Lemma update_running_attrs (keys : Keys) (w w' : World G) :
  game_over (game w) = false ->
  update keys w = Ok (tt, w') ->
  config (game w') = config (game w) /\
  road_scroll_speed (game w') = road_scroll_speed (game w) /\
  lane_markers (game w')
  = map (marker_step (game w)) (lane_markers (game w)) /\
  exists q, float_div_int PyFloat.one (fps (config (game w))) = Ok q /\
            score (game w') = PyFloat.add (score (game w)) q.
Proof.
  intros Hrun H. apply update_running_ok in H; [| assumption].
  destruct H as (w1 & w2 & w3 & w4 & H1 & H2 & H3 & H4 & H5).
  destruct (update_car_frame _ _ _ H1) as (Hg1 & _).
  rewrite update_lane_markers_eq in H2. injection H2 as <-.
  apply update_obstacles_attrs in H3. destruct H3 as (l & b & Hg3).
  simpl in Hg3. rewrite Hg1 in Hg3.
  apply update_score_ok in H5. destruct H5 as (q & Hq & ->). simpl.
  apply maybe_spawn_ok in H4. cbv zeta in H4.
  destruct H4 as [[_ ->] | (_ & lane & g1 & cw & x & car & delay & g2 & _ & _
                            & _ & _ & _ & _ & _ & ->)];
    simpl in *; rewrite Hg3 in *; simpl in *;
    (split; [reflexivity |]); (split; [reflexivity |]);
    (split; [reflexivity |]); exists q; (split; [exact Hq | reflexivity]).
Qed.

(** C8, amended. In every frame processed in the running state the score
    becomes the binary64 sum of the old score and the binary64 quotient
    [1.0 / fps]: an increase by [1 / fps] up to the rounding of that sum.
    In the game-over state [update] changes nothing, and a whole frame
    without the restart key leaves the score as it is. *)
Theorem score_step :
  (forall (w w' : World G) (keys : Keys),
     game_over (game w) = false ->
     update keys w = Ok (tt, w') ->
     exists q, float_div_int PyFloat.one (fps (config (game w))) = Ok q /\
               score (game w') = PyFloat.add (score (game w)) q) /\
  (forall (w : World G) (keys : Keys),
     game_over (game w) = true -> update keys w = Ok (tt, w)) /\
  (forall (w : World G) (i : FrameInput),
     game_over (game w) = true ->
     Forall (fun e => e <> KEYDOWN K_RETURN) (events i) ->
     exists w', frame i w = Ok (tt, w') /\
                score (game w') = score (game w) /\
                game_over (game w') = true).
Proof.
  split; [| split].
  - intros w w' keys Hrun H.
    apply (update_running_attrs _ _ _ Hrun H).
  - intros w keys Hover. apply update_over. exact Hover.
  - intros w i Hover Hev.
    destruct (handle_events_no_restart (events i) w Hev) as (b & Hb).
    eexists. split.
    + unfold frame, bind. rewrite Hb. apply update_over. exact Hover.
    + split; [reflexivity | exact Hover].
Qed.

End Scoring.

(** ** Lane markers *)

Section Markers.

Context {G : Type} {RS : RandomSource G}.

Lemma marker_step_in_range (g : RacingGame) (m : Z * Z) :
  road_scroll_speed g = 3 ->
  - lane_marker_length (config g) <= height (config g) ->
  - lane_marker_length (config g) <= snd m ->
  marker_in_range (config g) (marker_step g m).
Proof.
  intros Hs Hcfg Hm. unfold marker_in_range, marker_step. simpl.
  rewrite Hs. destruct (height (config g) <? snd m + 3) eqn:E.
  - lia.
  - apply Z.ltb_ge in E. lia.
Qed.

(** Events never touch markers, configuration or scroll speed, and cannot
    end the game. *)
Lemma handle_event_attrs (e : Event) (w w' : World G) :
  handle_event e w = Ok (tt, w') ->
  lane_markers (game w') = lane_markers (game w) /\
  config (game w') = config (game w) /\
  road_scroll_speed (game w') = road_scroll_speed (game w) /\
  (game_over (game w) = false -> game_over (game w') = false).
Proof.
  intros H.
  assert (He : e = KEYDOWN K_RETURN \/ e <> KEYDOWN K_RETURN).
  { destruct e as [|k|]; [right | destruct k; [left | right ..] | right];
      congruence. }
  destruct He as [-> | Hne].
  - destruct (game_over (game w)) eqn:Hover.
    + rewrite handle_event_return_over in H by assumption.
      apply reset_game_ok in H. cbv zeta in H.
      destruct H as (delay & g1 & x & c & c' & _ & _ & _ & _ & _ & ->).
      simpl. repeat split.
    + rewrite handle_event_return_running in H by assumption.
      injection H as <-. repeat split. intros _. exact Hover.
  - destruct (handle_event_other e w Hne) as (b & Hb).
    rewrite Hb in H. injection H as <-. simpl. repeat split.
    intros Hf. exact Hf.
Qed.

Lemma handle_events_attrs (evs : list Event) :
  forall (w w' : World G),
    handle_events evs w = Ok (tt, w') ->
    lane_markers (game w') = lane_markers (game w) /\
    config (game w') = config (game w) /\
    road_scroll_speed (game w') = road_scroll_speed (game w) /\
    (game_over (game w) = false -> game_over (game w') = false).
Proof.
  unfold handle_events.
  induction evs as [|e evs IH]; intros w w' H.
  - simpl in H. unfold ret in H. injection H as <-. repeat split.
    intros Hf. exact Hf.
  - cbn [for_each] in H. step_as H E.
    apply handle_event_attrs in E. destruct E as (Em & Ec & Es & Eo).
    apply IH in H. destruct H as (Hm & Hc & Hs & Ho).
    rewrite Hm, Hc, Hs. repeat split; try assumption.
    intros Hf. apply Ho, Eo, Hf.
Qed.

(** One frame keeps markers that are in range in range, and brings markers
    that are only above the lower bound into range if the game is not
    over. *)
Lemma frame_markers (i : FrameInput) (w w' : World G) :
  road_scroll_speed (game w) = 3 ->
  - lane_marker_length (config (game w)) <= height (config (game w)) ->
  frame i w = Ok (tt, w') ->
  config (game w') = config (game w) /\
  road_scroll_speed (game w') = 3 /\
  (Forall (marker_in_range (config (game w))) (lane_markers (game w)) ->
   Forall (marker_in_range (config (game w))) (lane_markers (game w'))) /\
  (game_over (game w) = false ->
   Forall (fun m => - lane_marker_length (config (game w)) <= snd m)
          (lane_markers (game w)) ->
   Forall (marker_in_range (config (game w))) (lane_markers (game w'))).
Proof.
  intros Hs Hcfg H. unfold frame in H. step_as H E.
  apply handle_events_attrs in E. destruct E as (Em & Ec & Es & Eo).
  assert (Hstep : Forall (fun m => - lane_marker_length (config (game w)) <= snd m)
                         (lane_markers (game w)) ->
                  game_over (game w0) = false ->
                  Forall (marker_in_range (config (game w)))
                         (lane_markers (game w'))).
  { intros Hlow Hrun.
    destruct (update_running_attrs _ _ _ Hrun H) as (_ & _ & Hm & _).
    rewrite Hm, Em. apply Forall_fmap. eapply Forall_impl; [exact Hlow |].
    intros m Hm0. simpl. rewrite <- Ec.
    apply marker_step_in_range; rewrite ?Es, ?Ec; assumption. }
  destruct (game_over (game w0)) eqn:Hover.
  - rewrite update_over in H by assumption. injection H as <-.
    rewrite Em, Ec, Es. repeat split; try assumption.
    + intros Hin. exact Hin.
    + intros Hf. apply Eo in Hf. congruence.
  - destruct (update_running_attrs _ _ _ Hover H) as (Hc & Hsp & _ & _).
    rewrite Hc, Hsp, Ec, Es. repeat split; try assumption.
    + intros Hin. apply Hstep; [| reflexivity].
      eapply Forall_impl; [exact Hin |]. intros m [Hlo _]. exact Hlo.
    + intros _ Hlow. apply Hstep; [exact Hlow | reflexivity].
Qed.

Lemma run_markers (inputs : list FrameInput) :
  forall (w w' : World G),
    road_scroll_speed (game w) = 3 ->
    - lane_marker_length (config (game w)) <= height (config (game w)) ->
    Forall (marker_in_range (config (game w))) (lane_markers (game w)) ->
    run inputs w = Ok (tt, w') ->
    config (game w') = config (game w) /\
    Forall (marker_in_range (config (game w))) (lane_markers (game w')).
Proof.
  induction inputs as [|i rest IH]; intros w w' Hs Hcfg Hin H.
  - simpl in H. unfold ret in H. injection H as <-. split; [reflexivity | exact Hin].
  - cbn [run] in H. step H. destruct (running (game w)).
    + step_as H E.
      destruct (frame_markers _ _ _ Hs Hcfg E) as (Hc & Hs1 & Hkeep & _).
      apply IH in H; rewrite ?Hc; try assumption.
      * rewrite Hc in H. exact H.
      * apply Hkeep, Hin.
    + unfold ret in H. injection H as <-. split; [reflexivity | exact Hin].
Qed.

(** C7, amended. For a configuration with a positive marker spacing and
    [-marker_length <= height]: right after initialisation every marker's y
    lies in [[-marker_length, height + marker_length)], so possibly below
    the screen; after the first turn of the loop and after every later one
    it lies in [[-marker_length, height]].  The update of a running frame
    adds the scroll speed to every marker and wraps a marker whose new y
    exceeds the screen height to exactly [-marker_length]. *)
Theorem lane_markers_in_range_after_update
        (conf : option GameConfig) (g : G) (w0 : World G) :
  RacingGame_init conf g = Ok w0 ->
  0 < lane_marker_length (config_of w0) + lane_marker_gap (config_of w0) ->
  - lane_marker_length (config_of w0) <= height (config_of w0) ->
  Forall (fun m => - lane_marker_length (config_of w0) <= snd m
                   < height (config_of w0) + lane_marker_length (config_of w0))
         (lane_markers (game w0)) /\
  (forall i rest w,
     run (i :: rest) w0 = Ok (tt, w) ->
     Forall (marker_in_range (config_of w0)) (lane_markers (game w))) /\
  (forall inputs w keys w',
     run inputs w0 = Ok (tt, w) ->
     game_over (game w) = false ->
     update keys w = Ok (tt, w') ->
     lane_markers (game w')
     = map (marker_step (game w)) (lane_markers (game w)) /\
     Forall (marker_in_range (config_of w0)) (lane_markers (game w'))).
Proof.
  intros Hinit Hstep Hcfg. unfold config_of in *.
  pose proof (wf_init _ _ _ Hinit) as Hwf0.
  pose proof Hinit as Hi. apply RacingGame_init_ok in Hi. cbv zeta in Hi.
  destruct Hi as (lw & cw & cx & car & delay & g1 & ms & _ & _ & _ & _ & _
                  & Hms & Hw0).
  assert (Hinit_range :
    Forall (fun m => - lane_marker_length (config (game w0)) <= snd m
                     < height (config (game w0))
                       + lane_marker_length (config (game w0)))
           (lane_markers (game w0))).
  { rewrite Hw0 in *. simpl in *. apply Forall_forall. intros m Hm.
    destruct (Hms m Hm) as (ys & Hys & Hy).
    eapply py_range_bounds; [| exact Hys | exact Hy]. exact Hstep. }
  assert (Hlow : Forall (fun m => - lane_marker_length (config (game w0)) <= snd m)
                        (lane_markers (game w0))).
  { eapply Forall_impl; [exact Hinit_range |]. intros m [Hlo _]. exact Hlo. }
  assert (Hs0 : road_scroll_speed (game w0) = 3) by apply Hwf0.
  assert (Hover0 : game_over (game w0) = false).
  { rewrite Hw0. reflexivity. }
  assert (Hon0 : running (game w0) = true).
  { rewrite Hw0. reflexivity. }
  assert (Hrun1 : forall i rest w,
    run (i :: rest) w0 = Ok (tt, w) ->
    config (game w) = config (game w0) /\
    Forall (marker_in_range (config (game w0))) (lane_markers (game w))).
  { intros i rest w H. cbn [run] in H. step H. rewrite Hon0 in H.
    step_as H E.
    destruct (frame_markers _ _ _ Hs0 Hcfg E) as (Hc & Hs1 & _ & Hfirst).
    apply run_markers in H; rewrite ?Hc; try assumption.
    - rewrite Hc in H. exact H.
    - apply Hfirst; assumption. }
  split; [exact Hinit_range |]. split.
  - intros i rest w H. apply (Hrun1 i rest w H).
  - intros inputs w keys w' Hrun Hgo Hupd.
    destruct (update_running_attrs _ _ _ Hgo Hupd) as (_ & _ & Hm & _).
    split; [exact Hm |].
    assert (Hwf : wf w) by (eapply wf_run; eassumption).
    assert (Hsw : road_scroll_speed (game w) = 3) by apply Hwf.
    rewrite Hm. apply Forall_fmap.
    assert (Hw : config (game w) = config (game w0) /\
                 Forall (fun m => - lane_marker_length (config (game w0)) <= snd m)
                        (lane_markers (game w))).
    { destruct inputs as [|i rest].
      - simpl in Hrun. unfold ret in Hrun. injection Hrun as <-.
        split; [reflexivity | exact Hlow].
      - destruct (Hrun1 i rest w Hrun) as (Hc & Hin). split; [exact Hc |].
        eapply Forall_impl; [exact Hin |]. intros m [Hlo _]. exact Hlo. }
    destruct Hw as (Hc & Hl).
    eapply Forall_impl; [exact Hl |]. intros m Hm0. simpl.
    rewrite <- Hc. apply marker_step_in_range; rewrite ?Hc; assumption.
Qed.

End Markers.

(** ** Progress: no exception in a playable session *)

Section Progress.

Context {G : Type} {RS : RandomSource G}.

Lemma handle_events_runs (evs : list Event) :
  forall (w : World G), wf w -> exists w', handle_events evs w = Ok (tt, w').
Proof.
  unfold handle_events.
  induction evs as [|e evs IH]; intros w Hwf.
  - eexists. reflexivity.
  - assert (He : exists w1, handle_event e w = Ok (tt, w1)).
    { assert (Hcase : e = KEYDOWN K_RETURN \/ e <> KEYDOWN K_RETURN).
      { destruct e as [|k|]; [right | destruct k; [left | right ..] | right];
          congruence. }
      destruct Hcase as [-> | Hne].
      - destruct (game_over (game w)) eqn:Hover.
        + rewrite handle_event_return_over by assumption.
          apply reset_game_runs. exact Hwf.
        + rewrite handle_event_return_running by assumption.
          eexists. reflexivity.
      - destruct (handle_event_other e w Hne) as (b & Hb).
        rewrite Hb. eexists. reflexivity. }
    destruct He as (w1 & Hw1).
    destruct (IH w1 (wf_handle_event _ _ _ Hwf Hw1)) as (w' & Hw').
    exists w'. cbn [for_each]. unfold bind. rewrite Hw1. exact Hw'.
Qed.

(** [update] returns from every state of a playable session. *)
Lemma update_runs (keys : Keys) (w : World G) :
  wf w -> playable (config (game w)) ->
  exists w', update keys w = Ok (tt, w').
Proof.
  intros Hwf (Hlanes & Hfps & Hfit).
  destruct (game_over (game w)) eqn:Hover.
  - exists w. apply update_over. exact Hover.
  - destruct (update_car_runs keys w Hwf) as (w1 & H1).
    pose proof (wf_update_car _ _ _ Hwf H1) as Hwf1.
    destruct (update_car_frame _ _ _ H1) as (Hg1 & _).
    pose proof (update_lane_markers_eq w1) as H2.
    pose proof (wf_update_lane_markers _ _ Hwf1 H2) as Hwf2.
    destruct (update_obstacles_runs _ Hwf2) as (w3 & H3).
    pose proof (wf_update_obstacles _ _ Hwf2 H3) as Hwf3.
    destruct (update_obstacles_attrs _ _ H3) as (l & b & Hg3).
    simpl in Hg3. rewrite Hg1 in Hg3.
    assert (Hc3 : config (game w3) = config (game w)).
    { rewrite Hg3. reflexivity. }
    destruct (maybe_spawn_runs w3 Hwf3) as (w4 & H4).
    { rewrite Hc3. exact Hlanes. }
    assert (Hc4 : config (game w4) = config (game w)).
    { apply maybe_spawn_ok in H4. cbv zeta in H4.
      destruct H4 as [[_ ->] | (_ & lane & g1 & cw & x & car & delay & g2 & _
                                 & _ & _ & _ & _ & _ & _ & ->)];
        simpl; exact Hc3. }
    destruct (update_score_runs w4) as (w5 & H5).
    { rewrite Hc4. exact Hfps. }
    { rewrite Hc4. exact Hfit. }
    exists w5. unfold update, bind. unfold gets at 1. rewrite Hover.
    cbn [negb]. cbv beta iota. rewrite H1, H2, H3, H4. exact H5.
Qed.

Lemma update_config (keys : Keys) (w w' : World G) :
  update keys w = Ok (tt, w') -> config (game w') = config (game w).
Proof.
  intros H. destruct (game_over (game w)) eqn:Hover.
  - rewrite update_over in H by assumption. injection H as <-. reflexivity.
  - apply (update_running_attrs _ _ _ Hover H).
Qed.

(** The main loop returns for every script of inputs. *)
Lemma run_runs (inputs : list FrameInput) :
  forall (w : World G),
    wf w -> playable (config (game w)) ->
    exists w', run inputs w = Ok (tt, w').
Proof.
  induction inputs as [|i rest IH]; intros w Hwf Hplay.
  - eexists. reflexivity.
  - cbn [run]. unfold bind at 1. unfold gets at 1.
    destruct (running (game w)); [| eexists; reflexivity].
    destruct (handle_events_runs (events i) w Hwf) as (w1 & H1).
    pose proof (wf_handle_events _ _ _ Hwf H1) as Hwf1.
    destruct (handle_events_attrs _ _ _ H1) as (_ & Hc1 & _).
    destruct (update_runs (keys i) w1 Hwf1) as (w2 & H2).
    { rewrite Hc1. exact Hplay. }
    pose proof (wf_update _ _ _ Hwf1 H2) as Hwf2.
    destruct (IH w2 Hwf2) as (w' & Hw').
    { rewrite (update_config _ _ _ H2), Hc1. exact Hplay. }
    exists w'. unfold bind at 1. unfold frame. unfold bind at 1.
    rewrite H1. rewrite H2. exact Hw'.
Qed.

Lemma returns_ok {A : Type} (r : result A) :
  returns r = true -> exists a, r = Ok a.
Proof.
  destruct r as [a| |]; [intros _; exists a; reflexivity | discriminate ..].
Qed.

Lemma marker_column_runs (cfg : GameConfig) (lane : Z) (w : World G) :
  lane_marker_length cfg + lane_marker_gap cfg <> 0 ->
  returns (marker_x (track_left (game w)) (lane_width (game w)) lane) = true ->
  exists ms,
    marker_column cfg lane w
    = Ok (tt, mkWorld (set_lane_markers (lane_markers (game w) ++ ms) (game w))
                      (store w) (rng w)).
Proof.
  intros Hstep Hx. apply returns_ok in Hx. destruct Hx as (x & Hx).
  unfold marker_column, bind. unfold gets. rewrite Hx. unfold lift at 1.
  unfold py_range.
  destruct (lane_marker_length cfg + lane_marker_gap cfg =? 0) eqn:E;
    [apply Z.eqb_eq in E; contradiction |].
  unfold lift. rewrite marker_rows_eq. eexists. reflexivity.
Qed.

Lemma marker_columns_run (cfg : GameConfig) (lanes : list Z) :
  forall (w : World G),
    lane_marker_length cfg + lane_marker_gap cfg <> 0 ->
    (forall lane, lane ∈ lanes ->
       returns (marker_x (track_left (game w)) (lane_width (game w)) lane)
       = true) ->
    exists w', for_each lanes (marker_column cfg) w = Ok (tt, w').
Proof.
  induction lanes as [|lane lanes IH]; intros w Hstep Hx.
  - eexists. reflexivity.
  - destruct (marker_column_runs cfg lane w Hstep) as (ms & Hms).
    { apply Hx. left. }
    cbn [for_each]. unfold bind at 1. rewrite Hms.
    apply IH; [exact Hstep |]. intros l Hl. simpl. apply Hx. right. exact Hl.
Qed.

(** The constructor returns as soon as the track geometry is computable. *)
Lemma RacingGame_init_runs (cfg : GameConfig) (g : G)
      (lw cx : float) (cw : Z) (car : Car) :
  int_truediv (width cfg - border_x cfg - border_x cfg) (lane_count cfg)
  = Ok lw ->
  py_int (PyFloat.mul lw PyFloat.f0_6) = Ok cw ->
  lane_center (border_x cfg) lw 1 = Ok cx ->
  Car_new cx (height cfg - 80) cw 40 color_player_car = Ok car ->
  lane_marker_length cfg + lane_marker_gap cfg <> 0 ->
  (forall lane, 1 <= lane < lane_count cfg ->
     returns (marker_x (border_x cfg) lw lane) = true) ->
  exists w0, RacingGame_init (Some cfg) g = Ok w0.
Proof.
  intros Hlw Hcw Hcx Hcar Hstep Hx.
  unfold RacingGame_init. cbv zeta. rewrite Hlw. cbn [rbind].
  rewrite Hcw. cbn [rbind]. rewrite Hcx. cbn [rbind]. rewrite Hcar.
  cbn [rbind].
  unfold bind at 1. unfold _next_spawn_delay, bind. unfold gets at 1.
  cbn [spawn_cooldown_range game fst snd]. unfold py_randint.
  change (60 <=? 120) with true. cbv iota. unfold draw. cbn [rng game store].
  destruct (randint 60 120 g) as [delay g1]. unfold modify at 1.
  cbn [game store rng]. unfold _init_lane_markers, bind. unfold gets at 1.
  cbn [game config set_spawn_timer]. unfold lift.
  destruct (py_range 1 (lane_count cfg) 1) as [lanes | e |] eqn:Hlanes;
    [| unfold py_range in Hlanes; simpl in Hlanes; discriminate ..].
  match goal with
  | |- context [for_each lanes (marker_column cfg) ?w] =>
      destruct (marker_columns_run cfg lanes w Hstep) as (w0 & Hw0)
  end.
  { intros lane Hin. simpl. apply Hx.
    apply (py_range_bounds 1 (lane_count cfg) 1 lanes); [lia | exact Hlanes
                                                          | exact Hin]. }
  rewrite Hw0. cbn [rbind snd]. eexists. reflexivity.
Qed.

(** With the default configuration the constructor returns, whatever the
    random source draws. *)
Lemma default_init_returns (g : G) :
  exists w0, RacingGame_init None g = Ok w0.
Proof.
  change (RacingGame_init None g)
    with (RacingGame_init (Some default_config) g).
  destruct (int_truediv 280 3) as [lw | |] eqn:Hlw;
    [| exfalso; revert Hlw; vm_compute; discriminate ..].
  assert (Hlw' := Hlw). vm_compute in Hlw'. injection Hlw' as <-.
  destruct (py_int (PyFloat.mul (S754_finite false 6567749456581973 (-46))
                                PyFloat.f0_6)) as [cw | |] eqn:Hcw;
    [| exfalso; revert Hcw; vm_compute; discriminate ..].
  destruct (lane_center 60 (S754_finite false 6567749456581973 (-46)) 1)
    as [cx | |] eqn:Hcx;
    [| exfalso; revert Hcx; vm_compute; discriminate ..].
  assert (Hcw' := Hcw). vm_compute in Hcw'. injection Hcw' as <-.
  destruct (Car_new cx 520 55 40 color_player_car) as [car | |] eqn:Hcar.
  2, 3: exfalso; revert Hcar; assert (Hcx' := Hcx); vm_compute in Hcx';
    injection Hcx' as <-; vm_compute; discriminate.
  apply (RacingGame_init_runs default_config g _ cx 55 car Hlw Hcw Hcx Hcar).
  - vm_compute. discriminate.
  - intros lane Hlane. change (lane_count default_config) with 3 in Hlane.
    assert (Hl : lane = 1 \/ lane = 2) by lia.
    destruct Hl as [-> | ->]; vm_compute; reflexivity.
Qed.

Lemma default_playable : playable default_config.
Proof.
  unfold playable. repeat split; try (vm_compute; reflexivity).
  vm_compute. discriminate.
Qed.

(** X4. A game with the default configuration never raises: the constructor
    returns and so does the main loop, for every random source and every
    script of inputs. *)
Theorem default_game_never_raises (g : G) (inputs : list FrameInput) :
  exists w0 w, RacingGame_init None g = Ok w0 /\ run inputs w0 = Ok (tt, w).
Proof.
  destruct (default_init_returns g) as (w0 & Hinit).
  pose proof (wf_init _ _ _ Hinit) as Hwf.
  assert (Hcfg : config (game w0) = default_config).
  { apply RacingGame_init_ok in Hinit. cbv zeta in Hinit.
    destruct Hinit as (lw & cw & cx & car & delay & g1 & ms & _ & _ & _ & _
                       & _ & _ & ->). reflexivity. }
  destruct (run_runs inputs w0 Hwf) as (w & Hrun).
  { rewrite Hcfg. exact default_playable. }
  exists w0, w. split; assumption.
Qed.

End Progress.

Lemma before_crash_reachable : reachable before_crash.
Proof.
  exists None, crash_script, (hold no_keys 235), (start None crash_script).
  split; vm_compute; reflexivity.
Qed.

Lemma collision_frame_effects_witness :
  (exists w1 pre r post,
     _update_car no_keys before_crash = Ok (tt, w1) /\
     obstacles (game before_crash) = pre ++ r :: post /\
     (forall q, q ∈ pre -> overlaps_after_move w1 q = false) /\
     overlaps_after_move w1 r = true /\
     (forall q, q ∈ post -> store after_crash !! q = store before_crash !! q)) /\
  (exists q, float_div_int PyFloat.one (fps (config (game before_crash))) = Ok q /\
             score (game after_crash) = PyFloat.add (score (game before_crash)) q) /\
  (0 < spawn_timer (game before_crash) - 1 ->
     spawn_timer (game after_crash) = spawn_timer (game before_crash) - 1 /\
     obstacles (game after_crash) = obstacles (game before_crash)) /\
  (spawn_timer (game before_crash) - 1 <= 0 ->
     60 <= spawn_timer (game after_crash) <= 120 /\
     obstacles (game after_crash)
     = obstacles (game before_crash) ++ [length (store before_crash)]) /\
  (forall inputs, no_restart inputs ->
     exists b, run inputs after_crash
               = Ok (tt, mkWorld (set_running b (game after_crash))
                                 (store after_crash) (rng after_crash))).
Proof.
  apply (collision_frame_effects before_crash after_crash no_keys).
  - apply wf_reachable, before_crash_reachable.
  - vm_compute. reflexivity.
  - vm_compute. reflexivity.
  - vm_compute. reflexivity.
Defined.

(** C1 as stated fails in frame 236 of the sample session: the obstacle in
    the player's lane arrives, and in the same frame the score still grows
    and the spawn timer, at 1, still runs out and adds an obstacle. *)
Lemma collision_frame_still_spawns_and_scores :
  ~ collision_halts_frame (G := list Z).
Proof.
  intros H.
  assert (Hne : score (game after_crash) <> score (game before_crash)
                /\ spawn_timer (game after_crash) <> spawn_timer (game before_crash)
                /\ obstacles (game after_crash) <> obstacles (game before_crash)).
  { vm_compute. repeat split; discriminate. }
  destruct Hne as (Hs & _).
  apply Hs. apply (H before_crash after_crash no_keys).
  - apply before_crash_reachable.
  - vm_compute. reflexivity.
  - vm_compute. reflexivity.
  - vm_compute. reflexivity.
Qed.


Lemma before_exit_reachable : reachable before_exit.
Proof.
  exists None, calm_script, (hold no_keys 276), (start None calm_script).
  split; vm_compute; reflexivity.
Qed.

Lemma obstacle_removed_iff_centre_below_witness :
  (game_over (game exit_pass) = false ->
     obstacles (game exit_pass)
     = List.filter (fun r => negb (centre_below exit_pass r))
                   (obstacles (game before_exit)) /\
     forall r, r ∈ obstacles (game before_exit) ->
       exists c', moved_to before_exit r c' /\ store exit_pass !! r = Some c') /\
  (game_over (game exit_pass) = true ->
     obstacles (game exit_pass) = obstacles (game before_exit)) /\
  (forall r, r ∈ obstacles (game before_exit) ->
     (r ∉ obstacles (game exit_pass) <->
      game_over (game exit_pass) = false /\ centre_below exit_pass r = true)).
Proof.
  apply (obstacle_removed_iff_centre_below before_exit exit_pass).
  - apply wf_reachable, before_exit_reachable.
  - vm_compute. reflexivity.
  - vm_compute. reflexivity.
Defined.

(** C3 as stated fails in frame 277 of the quiet session: the obstacle
    spawned in frame 60 has its centre at 601 and its top edge at 576, still
    24 pixels above the bottom of the screen, and it is removed. *)
Lemma removed_with_top_edge_on_screen :
  ~ removed_iff_top_edge_below (G := list Z).
Proof.
  intros H.
  assert (Hin : 1%nat ∈ obstacles (game before_exit)).
  { replace (obstacles (game before_exit)) with [1%nat; 2%nat; 3%nat; 4%nat]
      by (vm_compute; reflexivity).
    apply elem_of_cons. left. reflexivity. }
  assert (Hout : 1%nat ∉ obstacles (game after_exit)).
  { replace (obstacles (game after_exit)) with [2%nat; 3%nat; 4%nat]
      by (vm_compute; reflexivity).
    intros Hx. repeat (apply elem_of_cons in Hx; destruct Hx as [Hx | Hx];
                       [discriminate |]).
    inversion Hx. }
  assert (Hedge : top_edge_below after_exit 1%nat = false)
    by (vm_compute; reflexivity).
  assert (Hst : top_edge_below after_exit 1%nat = true).
  { apply (H before_exit after_exit no_keys).
    - apply before_exit_reachable.
    - vm_compute. reflexivity.
    - vm_compute. reflexivity.
    - exact Hin.
    - exact Hout. }
  congruence.
Qed.




Lemma start_reachable : reachable (start None calm_script).
Proof.
  exists None, calm_script, [], (start None calm_script).
  split; vm_compute; reflexivity.
Qed.


Lemma wf_set_score (w : World (list Z)) (s : float) :
  wf w -> wf (mkWorld (set_score s (game w)) (store w) (rng w)).
Proof.
  intros Hwf.
  apply (wf_pointwise w); try reflexivity; try exact Hwf; simpl.
  - intros q c' Hq. exists c'. split; [exact Hq | left; reflexivity].
  - apply Hwf.
  - intros r Hr. exact Hr.
Qed.

Lemma late_session_wf : wf late_session.
Proof.
  unfold late_session. apply wf_set_score, wf_reachable, start_reachable.
Qed.

(** C8 as stated fails twice.  In the third frame of a session the score
    goes from 0.03333333333333333 to 0.05, which is not an increase by
    0.016666666666666666: the sum was rounded.  And a score of 2^53 does not
    increase at all: the increment is absorbed. *)
Lemma score_increment_is_rounded :
  ~ score_rises_by_frame_time (G := list Z) /\
  ~ score_always_rises (G := list Z).
Proof.
  split.
  - intros H.
    assert (E : float_div_int PyFloat.one (fps (config_of after_two))
                <> Ok (PyFloat.sub (score (game after_three))
                                   (score (game after_two)))).
    { vm_compute. discriminate. }
    apply E. apply (H after_two after_three no_keys).
    + exists None, calm_script, (hold no_keys 2), (start None calm_script).
      split; vm_compute; reflexivity.
    + vm_compute. reflexivity.
    + vm_compute. reflexivity.
  - intros H.
    assert (E : PyFloat.ltb (score (game late_session))
                            (score (game late_frame)) = false)
      by (vm_compute; reflexivity).
    assert (Hst : PyFloat.ltb (score (game late_session))
                              (score (game late_frame)) = true).
    { apply (H late_session late_frame no_keys).
      - apply late_session_wf.
      - vm_compute. reflexivity.
      - vm_compute. reflexivity. }
    congruence.
Qed.

Lemma lane_markers_in_range_after_update_witness :
  Forall (fun m => - lane_marker_length (config_of (start None calm_script))
                   <= snd m
                   < height (config_of (start None calm_script))
                     + lane_marker_length (config_of (start None calm_script)))
         (lane_markers (game (start None calm_script))) /\
  (forall i rest w,
     run (i :: rest) (start None calm_script) = Ok (tt, w) ->
     Forall (marker_in_range (config_of (start None calm_script)))
            (lane_markers (game w))) /\
  (forall inputs w keys w',
     run inputs (start None calm_script) = Ok (tt, w) ->
     game_over (game w) = false ->
     update keys w = Ok (tt, w') ->
     lane_markers (game w')
     = map (marker_step (game w)) (lane_markers (game w)) /\
     Forall (marker_in_range (config_of (start None calm_script)))
            (lane_markers (game w'))).
Proof.
  apply (lane_markers_in_range_after_update None calm_script).
  - vm_compute. reflexivity.
  - vm_compute. reflexivity.
  - vm_compute. discriminate.
Defined.

(** C7 as stated fails for a marker gap of 82: the outer range of the
    initialisation then reaches y = 602 on a screen 600 pixels high. *)
Lemma marker_below_screen_after_init :
  ~ markers_always_in_range (G := list Z).
Proof.
  intros [H _].
  assert (Hinit : RacingGame_init (Some wide_gap_config) calm_script
                  = Ok (start (Some wide_gap_config) calm_script))
    by (vm_compute; reflexivity).
  specialize (H _ _ _ Hinit). rewrite Forall_forall in H.
  assert (Hin : (153, 602) ∈ lane_markers
                               (game (start (Some wide_gap_config) calm_script))).
  { replace (lane_markers (game (start (Some wide_gap_config) calm_script)))
      with [(153, -48); (153, 82); (153, 212); (153, 342); (153, 472);
            (153, 602); (246, -48); (246, 82); (246, 212); (246, 342);
            (246, 472); (246, 602)] by (vm_compute; reflexivity).
    do 5 (apply elem_of_cons; right). apply elem_of_cons. left. reflexivity. }
  assert (Hh : height (config_of (start (Some wide_gap_config) calm_script))
               = 600) by (vm_compute; reflexivity).
  destruct (H _ Hin) as [_ Hhi]. rewrite Hh in Hhi. simpl in Hhi. lia.
Qed.

(** C2 fails on the narrow track.  The player's car is 17 pixels wide and
    starts centred at x = 103; with the right key held it moves 5 pixels a
    frame.  The seventh move, to x = 138, passes the test
    [138 + 17 // 2 <= 146] and is carried out: the rectangle then spans
    [130, 147) and its right edge is beyond [track_right = 146]. *)
Theorem odd_width_car_crosses_track_right :
  reachable at_right_edge /\
  update hold_right near_right_edge = Ok (tt, at_right_edge) /\
  store near_right_edge !! player_car (game near_right_edge)
  = Some near_edge_car /\
  store at_right_edge !! player_car (game at_right_edge) = Some edge_car /\
  PyFloat.eq_int (car_x near_edge_car) 133 = true /\
  PyFloat.eq_int (car_x edge_car) 138 = true /\
  track_left (game at_right_edge) = 60 /\
  track_right (game at_right_edge) = 146 /\
  rect_x (car_rect edge_car) + rect_w (car_rect edge_car) = 147 /\
  track_right (game at_right_edge)
  < rect_x (car_rect edge_car) + rect_w (car_rect edge_car).
Proof.
  split.
  - exists (Some narrow_config), calm_script, (hold hold_right 7),
           (start (Some narrow_config) calm_script).
    split; vm_compute; reflexivity.
  - repeat match goal with |- _ /\ _ => split end; vm_compute; reflexivity.
Qed.

(** With the right key held the default player stops at x = 310, its
    rectangle on [283, 338). *)
Lemma default_player_stays_in_track_witness :
  rect_in_track (game right_lane_session) (car_rect (default_player 310)).
Proof.
  apply (default_player_stays_in_track calm_script (hold hold_right 30)
           (start None calm_script) right_lane_session (default_player 310));
    vm_compute; reflexivity.
Defined.

(** There the move to x = 315 fails the test [315 + 27 <= 340]. *)
Lemma rejected_move_changes_nothing_witness :
  _update_car hold_right right_lane_session = Ok (tt, right_lane_session).
Proof.
  apply (rejected_move_changes_nothing hold_right right_lane_session
           (default_player 310)); vm_compute; reflexivity.
Defined.

(** The seventh move on the narrow track: the left edge goes to 130, right
    of [track_left = 60]. *)
Lemma accepted_move_keeps_left_edge_witness :
  track_left (game near_right_edge) <= rect_x (car_rect edge_car).
Proof.
  apply (accepted_move_keeps_left_edge (game near_right_edge) near_edge_car
           edge_car 5 130 (PyFloat.round_int 8)); vm_compute; reflexivity.
Defined.

(** ** Invariants of a whole session *)

(** Splits a conjunction into its parts, and nothing else. *)
Ltac conjs := repeat match goal with |- _ /\ _ => split end.

Section Session.

Context {G : Type} {RS : RandomSource G}.

(** What one event does: a restart, or nothing but a write to [running]. *)
Lemma handle_event_cases (e : Event) (w w' : World G) :
  handle_event e w = Ok (tt, w') ->
  (game_over (game w) = true /\ e = KEYDOWN K_RETURN /\
   _reset_game w = Ok (tt, w')) \/
  (exists b, w' = mkWorld (set_running b (game w)) (store w) (rng w)).
Proof.
  intros H.
  assert (He : e = KEYDOWN K_RETURN \/ e <> KEYDOWN K_RETURN).
  { destruct e as [|k|]; [right | destruct k; [left | right ..] | right];
      congruence. }
  destruct He as [-> | Hne].
  - destruct (game_over (game w)) eqn:Hover.
    + left. rewrite handle_event_return_over in H by assumption.
      repeat split; assumption.
    + right. rewrite handle_event_return_running in H by assumption.
      injection H as <-. exists (running (game w)).
      destruct w as [g st r]. destruct g. reflexivity.
  - right. destruct (handle_event_other e w Hne) as (b & Hb).
    rewrite Hb in H. injection H as <-. exists b. reflexivity.
Qed.

(** A property kept by every event and every update holds throughout. *)
Lemma handle_events_invariant (P : World G -> Prop) :
  (forall e w w', P w -> handle_event e w = Ok (tt, w') -> P w') ->
  forall evs w w', P w -> handle_events evs w = Ok (tt, w') -> P w'.
Proof.
  intros He. unfold handle_events.
  induction evs as [|e evs IH]; intros w w' Hp H.
  - simpl in H. unfold ret in H. injection H as <-. exact Hp.
  - cbn [for_each] in H. step_as H E.
    eapply IH; [| exact H]. eapply He; eassumption.
Qed.

Lemma run_invariant (P : World G -> Prop) :
  (forall e w w', P w -> handle_event e w = Ok (tt, w') -> P w') ->
  (forall keys w w', P w -> update keys w = Ok (tt, w') -> P w') ->
  forall inputs w w', P w -> run inputs w = Ok (tt, w') -> P w'.
Proof.
  intros He Hu.
  induction inputs as [|i rest IH]; intros w w' Hp H.
  - simpl in H. unfold ret in H. injection H as <-. exact Hp.
  - cbn [run] in H. step H. destruct (running (game w)).
    + step_as H E. eapply IH; [| exact H].
      unfold frame in E. step_as E E1.
      eapply Hu; [| exact E].
      eapply (handle_events_invariant P He); eassumption.
    + unfold ret in H. injection H as <-. exact Hp.
Qed.

(** The five steps of a running frame, with the invariant at each. *)
Lemma update_chain (keys : Keys) (w w' : World G) :
  wf w -> game_over (game w) = false ->
  update keys w = Ok (tt, w') ->
  exists w1 w2 w3 w4,
    _update_car keys w = Ok (tt, w1) /\
    _update_lane_markers w1 = Ok (tt, w2) /\
    _update_obstacles w2 = Ok (tt, w3) /\
    _maybe_spawn_obstacle w3 = Ok (tt, w4) /\
    _update_score w4 = Ok (tt, w') /\
    wf w1 /\ wf w2 /\ wf w3 /\ wf w4 /\ wf w'.
Proof.
  intros Hwf Hover H.
  apply update_running_ok in H; [| assumption].
  destruct H as (w1 & w2 & w3 & w4 & H1 & H2 & H3 & H4 & H5).
  pose proof (wf_update_car _ _ _ Hwf H1) as Hwf1.
  pose proof (wf_update_lane_markers _ _ Hwf1 H2) as Hwf2.
  pose proof (wf_update_obstacles _ _ Hwf2 H3) as Hwf3.
  pose proof (wf_maybe_spawn _ _ Hwf3 H4) as Hwf4.
  pose proof (wf_update_score _ _ Hwf4 H5) as Hwf5.
  exists w1, w2, w3, w4. conjs; assumption.
Qed.

(** The game attributes across the first three steps of a running frame. *)
Lemma update_prefix_game (keys : Keys) (w w1 w2 w3 : World G) :
  _update_car keys w = Ok (tt, w1) ->
  _update_lane_markers w1 = Ok (tt, w2) ->
  _update_obstacles w2 = Ok (tt, w3) ->
  exists l b ms,
    game w3 = set_game_over b (set_obstacles l (set_lane_markers ms (game w))).
Proof.
  intros H1 H2 H3.
  destruct (update_car_frame _ _ _ H1) as (Hg1 & _).
  rewrite update_lane_markers_eq in H2. injection H2 as <-.
  destruct (update_obstacles_attrs _ _ H3) as (l & b & Hg3).
  simpl in Hg3. rewrite Hg1 in Hg3. eauto.
Qed.

(** *** The spawn timer *)

Lemma timer_reset_game (w w' : World G) :
  wf w -> _reset_game w = Ok (tt, w') ->
  60 <= spawn_timer (game w') <= 120.
Proof.
  intros Hwf H. apply reset_game_ok in H. cbv zeta in H.
  destruct H as (delay & g1 & x & c & c' & Hle & Hd & _ & _ & _ & ->).
  rewrite (wf_cooldown _ Hwf) in Hd, Hle. simpl in Hd, Hle |- *.
  pose proof (randint_range 60 120 (rng w) Hle) as Hr.
  rewrite Hd in Hr. exact Hr.
Qed.

Lemma timer_maybe_spawn (w w' : World G) :
  wf w -> _maybe_spawn_obstacle w = Ok (tt, w') ->
  (0 < spawn_timer (game w) - 1 /\
   spawn_timer (game w') = spawn_timer (game w) - 1) \/
  (spawn_timer (game w) - 1 <= 0 /\ 60 <= spawn_timer (game w') <= 120).
Proof.
  intros Hwf H. apply maybe_spawn_ok in H. cbv zeta in H.
  destruct H as [[Ht ->] | (Ht & lane & g1 & cw & x & car & delay & g2 & _
                            & _ & _ & _ & _ & Hle & Hd & ->)].
  - left. split; [exact Ht | reflexivity].
  - right. split; [exact Ht |].
    rewrite (wf_cooldown _ Hwf) in Hd, Hle. simpl in Hd, Hle |- *.
    pose proof (randint_range 60 120 g1 Hle) as Hr.
    rewrite Hd in Hr. exact Hr.
Qed.

Lemma timer_update (keys : Keys) (w w' : World G) :
  wf w -> game_over (game w) = false ->
  update keys w = Ok (tt, w') ->
  (0 < spawn_timer (game w) - 1 /\
   spawn_timer (game w') = spawn_timer (game w) - 1) \/
  (spawn_timer (game w) - 1 <= 0 /\ 60 <= spawn_timer (game w') <= 120).
Proof.
  intros Hwf Hover H.
  destruct (update_chain _ _ _ Hwf Hover H)
    as (w1 & w2 & w3 & w4 & H1 & H2 & H3 & H4 & H5 & _ & _ & Hwf3 & _).
  destruct (update_prefix_game _ _ _ _ _ H1 H2 H3) as (l & b & ms & Hg3).
  assert (Ht3 : spawn_timer (game w3) = spawn_timer (game w)).
  { rewrite Hg3. reflexivity. }
  apply update_score_ok in H5. destruct H5 as (q & _ & ->). simpl.
  rewrite <- Ht3. apply timer_maybe_spawn; assumption.
Qed.

Lemma timer_invariant (conf : option GameConfig) (g : G)
      (inputs : list FrameInput) (w0 w : World G) :
  RacingGame_init conf g = Ok w0 ->
  run inputs w0 = Ok (tt, w) ->
  wf w /\ 1 <= spawn_timer (game w) <= 120.
Proof.
  intros Hinit Hrun.
  apply (run_invariant
           (fun w => wf w /\ 1 <= spawn_timer (game w) <= 120))
    with (inputs := inputs) (w := w0); [| | | exact Hrun].
  - intros e w1 w2 [Hwf Ht] He.
    split; [eapply wf_handle_event; eassumption |].
    destruct (handle_event_cases _ _ _ He) as [(_ & _ & Hr) | (b & ->)].
    + pose proof (timer_reset_game _ _ Hwf Hr). lia.
    + exact Ht.
  - intros keys w1 w2 [Hwf Ht] Hu.
    split; [eapply wf_update; eassumption |].
    destruct (game_over (game w1)) eqn:Hover.
    + rewrite update_over in Hu by assumption. injection Hu as <-. exact Ht.
    + destruct (timer_update _ _ _ Hwf Hover Hu) as [[? ->] | [? ?]]; lia.
  - split; [eapply wf_init; exact Hinit |].
    apply RacingGame_init_ok in Hinit. cbv zeta in Hinit.
    destruct Hinit as (lw & cw & cx & car & delay & g1 & ms & _ & _ & _ & _
                       & Hd & _ & ->). simpl.
    pose proof (randint_range 60 120 g ltac:(lia)) as Hr.
    rewrite Hd in Hr. simpl in Hr. lia.
Qed.

(** X5. At the start of every turn of the main loop the spawn timer is between
    1 and 120: an obstacle appears at most every 60 and at least every 120
    running frames. *)
Theorem spawn_timer_bounds (conf : option GameConfig) (g : G)
        (inputs : list FrameInput) (w0 w : World G) :
  RacingGame_init conf g = Ok w0 ->
  run inputs w0 = Ok (tt, w) ->
  1 <= spawn_timer (game w) <= 120.
Proof.
  intros Hinit Hrun. apply (timer_invariant conf g inputs w0 w Hinit Hrun).
Qed.

(** *** The crash flag and the rectangles *)

Lemma existsb_eq_in {A : Type} (f h : A -> bool) (l : list A) :
  (forall x, x ∈ l -> f x = h x) -> existsb f l = existsb h l.
Proof.
  induction l as [|a l IH]; intros Hfh; [reflexivity |].
  simpl. rewrite (Hfh a) by left. rewrite IH; [reflexivity |].
  intros x Hx. apply Hfh. right. exact Hx.
Qed.

Lemma overlaps_now_frame (w1 w : World G) (r : ref) :
  store w1 !! r = store w !! r ->
  player_car (game w1) = player_car (game w) ->
  store w1 !! player_car (game w) = store w !! player_car (game w) ->
  overlaps_now w1 r = overlaps_now w r.
Proof.
  intros Hr Hp Hpc. unfold overlaps_now. rewrite Hp, Hpc, Hr. reflexivity.
Qed.

Lemma flag_transfer (w w' : World G) :
  obstacles (game w') = obstacles (game w) ->
  player_car (game w') = player_car (game w) ->
  store w' !! player_car (game w) = store w !! player_car (game w) ->
  (forall r, r ∈ obstacles (game w) -> store w' !! r = store w !! r) ->
  existsb (overlaps_now w') (obstacles (game w'))
  = existsb (overlaps_now w) (obstacles (game w)).
Proof.
  intros Ho Hp Hpc Hst. rewrite Ho. apply existsb_eq_in.
  intros r Hr. apply overlaps_now_frame; auto.
Qed.

(** Two rectangles of which one ends above the top of the other do not
    collide. *)
Lemma colliderect_above (a b : Rect) :
  0 <= rect_h a -> 0 <= rect_h b ->
  rect_y b + rect_h b <= rect_y a ->
  colliderect a b = false.
Proof.
  intros Ha Hb Hab. unfold colliderect.
  destruct ((rect_w a =? 0) || (rect_h a =? 0) || (rect_w b =? 0)
            || (rect_h b =? 0)); [reflexivity |].
  assert (Hy : (Z.min (rect_y a) (rect_y a + rect_h a)
                <? Z.max (rect_y b) (rect_y b + rect_h b)) = false).
  { apply Z.ltb_ge. lia. }
  rewrite Hy. rewrite andb_false_r. reflexivity.
Qed.

(** The rectangle of the player: 40 high, its top 100 above the bottom of
    the screen. *)
Lemma player_rect_rows (w : World G) (pc : Car) :
  wf w -> store w !! player_car (game w) = Some pc ->
  rect_y (car_rect pc) = height (config (game w)) - 100 /\
  rect_h (car_rect pc) = 40.
Proof.
  intros Hwf Hpc.
  destruct (wf_player_geom _ Hwf _ Hpc) as [Hy Hh].
  pose proof (wf_rects _ Hwf) as Hall. rewrite Forall_lookup in Hall.
  destruct (Hall _ _ Hpc) as (hw & _ & _ & Hry & _ & Hrh).
  rewrite Hry, Hrh, Hy, Hh. change (40 `div` 2) with 20. lia.
Qed.

(** The rectangle of an obstacle: 50 high around its centre. *)
Lemma obstacle_rect_rows (w : World G) (r : ref) (c : Car) :
  wf w -> r ∈ obstacles (game w) -> store w !! r = Some c ->
  rect_y (car_rect c) = car_y c - 25 /\ rect_h (car_rect c) = 50.
Proof.
  intros Hwf Hr Hc.
  pose proof (wf_obstacle_geom _ Hwf _ _ Hr Hc) as Hh.
  pose proof (wf_rects _ Hwf) as Hall. rewrite Forall_lookup in Hall.
  destruct (Hall _ _ Hc) as (hw & _ & _ & Hry & _ & Hrh).
  rewrite Hry, Hrh, Hh. change (50 `div` 2) with 25. lia.
Qed.

Lemma flag_update_obstacles (w w' : World G) :
  wf w -> game_over (game w) = false ->
  _update_obstacles w = Ok (tt, w') ->
  game_over (game w') = existsb (overlaps_now w') (obstacles (game w')).
Proof.
  intros Hwf Hover H.
  pose proof (update_obstacles_ok _ _ (wf_nodup _ Hwf)
                (wf_player_apart _ Hwf) H) as (_ & _ & Hst & _).
  pose proof (Hst _ (wf_player_apart _ Hwf)) as Hplayer.
  destruct (lookup_lt_is_Some_2 _ _ (wf_player _ Hwf)) as (pc & Hpc).
  assert (Hnow : forall r c', moved_to w r c' -> store w' !! r = Some c' ->
                   player_car (game w') = player_car (game w) ->
                   overlaps_now w' r = overlaps_after_move w r).
  { intros r c' Hm Hs Hp. rewrite (overlaps_eq _ _ _ _ Hpc Hm).
    unfold overlaps_now. rewrite Hp, Hplayer, Hpc, Hs. reflexivity. }
  destruct (update_obstacles_cases _ _ Hwf Hover H)
    as [(Hov' & Hg & Hall)
       | (Hov' & Hg & pre & r & post & Hobs & _ & Hhit & Hmv & _)].
  - rewrite Hov'. symmetry. apply not_true_is_false. intros Hex.
    apply existsb_exists in Hex. destruct Hex as (r & Hr & Hr').
    rewrite Hg in Hr. simpl in Hr. apply List.filter_In in Hr.
    destruct Hr as [Hr _]. apply list_elem_of_In in Hr.
    destruct (Hall r Hr) as (Hno & c' & Hm & Hs).
    rewrite (Hnow r c' Hm Hs) in Hr' by (rewrite Hg; reflexivity).
    congruence.
  - rewrite Hov'. symmetry. apply existsb_exists. exists r. split.
    + rewrite Hg. simpl. rewrite Hobs. apply List.in_app_iff. right. left.
      reflexivity.
    + destruct (Hmv r) as (c' & Hm & Hs).
      { apply elem_of_app. right. apply list_elem_of_singleton. reflexivity. }
      rewrite (Hnow r c' Hm Hs) by (rewrite Hg; reflexivity). exact Hhit.
Qed.

Lemma flag_maybe_spawn (w w' : World G) :
  wf w -> 75 <= height (config (game w)) ->
  _maybe_spawn_obstacle w = Ok (tt, w') ->
  game_over (game w') = game_over (game w) /\
  existsb (overlaps_now w') (obstacles (game w'))
  = existsb (overlaps_now w) (obstacles (game w)).
Proof.
  intros Hwf Hh H. apply maybe_spawn_ok in H. cbv zeta in H.
  destruct H as [[_ ->] | (_ & lane & g1 & cw & x & car & delay & g2 & _
                           & _ & _ & _ & Hcar & _ & _ & ->)].
  - split; reflexivity.
  - split; [reflexivity |]. simpl.
    destruct (lookup_lt_is_Some_2 _ _ (wf_player _ Hwf)) as (pc & Hpc).
    rewrite existsb_app. simpl. rewrite orb_false_r.
    assert (Hnew : overlaps_now
                     {| game :=
                          set_spawn_timer delay
                            (set_obstacles
                               (obstacles (game w) ++ [length (store w)])
                               (set_spawn_timer (spawn_timer (game w) - 1)
                                  (game w)));
                        store := store w ++ [car]; rng := g2 |}
                     (length (store w)) = false).
    { unfold overlaps_now. simpl.
      rewrite lookup_app_l by apply (wf_player _ Hwf). rewrite Hpc.
      rewrite lookup_app_r by lia. rewrite Nat.sub_diag. simpl.
      destruct (player_rect_rows _ _ Hwf Hpc) as [Hpy Hph].
      apply Car_new_ok in Hcar.
      destruct Hcar as ((hw & _ & _ & Hry & _ & Hrh) & _ & Hy & _ & Hch & _).
      apply colliderect_above.
      - lia.
      - lia.
      - rewrite Hry, Hrh, Hy, Hch, Hpy. change (50 `div` 2) with 25. lia. }
    rewrite Hnew. rewrite orb_false_r.
    apply existsb_eq_in. intros r Hr. unfold overlaps_now. simpl.
    rewrite lookup_app_l by apply (wf_player _ Hwf).
    rewrite lookup_app_l; [reflexivity |].
    pose proof (wf_obstacles _ Hwf) as Hall. rewrite Forall_forall in Hall.
    apply Hall. exact Hr.
Qed.

Lemma flag_invariant (conf : option GameConfig) (g : G)
      (inputs : list FrameInput) (w0 w : World G) :
  RacingGame_init conf g = Ok w0 ->
  75 <= height (config (game w0)) ->
  run inputs w0 = Ok (tt, w) ->
  wf w /\ config (game w) = config (game w0) /\
  game_over (game w) = existsb (overlaps_now w) (obstacles (game w)).
Proof.
  intros Hinit Hh Hrun.
  apply (run_invariant
           (fun w => wf w /\ config (game w) = config (game w0) /\
                     game_over (game w)
                     = existsb (overlaps_now w) (obstacles (game w))))
    with (inputs := inputs) (w := w0); [| | | exact Hrun].
  - intros e w1 w2 (Hwf & Hc & Hq) He.
    split; [eapply wf_handle_event; eassumption |].
    destruct (handle_event_cases _ _ _ He) as [(_ & _ & Hr) | (b & ->)].
    + apply reset_game_ok in Hr. cbv zeta in Hr.
      destruct Hr as (delay & g1 & x & c & c' & _ & _ & _ & _ & _ & ->).
      split; [exact Hc | reflexivity].
    + split; [exact Hc | exact Hq].
  - intros keys w1 w2 (Hwf & Hc & Hq) Hu.
    split; [eapply wf_update; eassumption |].
    destruct (game_over (game w1)) eqn:Hover.
    + rewrite update_over in Hu by assumption. injection Hu as <-.
      split; [exact Hc | rewrite Hover; exact Hq].
    + destruct (update_chain _ _ _ Hwf Hover Hu)
        as (v1 & v2 & v3 & v4 & H1 & H2 & H3 & H4 & H5
            & Hwf1 & Hwf2 & Hwf3 & Hwf4 & _).
      destruct (update_prefix_game _ _ _ _ _ H1 H2 H3) as (l & b & ms & Hg3).
      assert (Hc3 : config (game v3) = config (game w1)).
      { rewrite Hg3. reflexivity. }
      assert (Hover2 : game_over (game v2) = false).
      { destruct (update_car_frame _ _ _ H1) as (Hg1 & _).
        rewrite update_lane_markers_eq in H2. injection H2 as <-.
        simpl. rewrite Hg1. exact Hover. }
      pose proof (flag_update_obstacles _ _ Hwf2 Hover2 H3) as Hq3.
      destruct (flag_maybe_spawn _ _ Hwf3 ltac:(rewrite Hc3, Hc; exact Hh) H4)
        as [Hov4 Hex4].
      assert (Hc4 : config (game v4) = config (game w1)).
      { apply maybe_spawn_ok in H4. cbv zeta in H4.
        destruct H4 as [[_ ->] | (_ & lane & g1 & cw & x & car & delay & g2
                                  & _ & _ & _ & _ & _ & _ & _ & ->)];
          simpl; exact Hc3. }
      apply update_score_ok in H5. destruct H5 as (q & _ & ->).
      split; [simpl; congruence |].
      change (game_over (game v4)
              = existsb (overlaps_now v4) (obstacles (game v4))).
      congruence.
  - split; [eapply wf_init; exact Hinit |]. split; [reflexivity |].
    apply RacingGame_init_ok in Hinit. cbv zeta in Hinit.
    destruct Hinit as (lw & cw & cx & car & delay & g1 & ms & _ & _ & _ & _
                       & _ & _ & ->). reflexivity.
Qed.

(** X6. At the start of every turn of the main loop of a game whose screen is
    at least 75 pixels high, the session is in the game-over state exactly
    when the rectangle of some obstacle of the list overlaps the
    player's. *)
Theorem game_over_iff_overlap (conf : option GameConfig) (g : G)
        (inputs : list FrameInput) (w0 w : World G) :
  RacingGame_init conf g = Ok w0 ->
  75 <= height (config (game w0)) ->
  run inputs w0 = Ok (tt, w) ->
  game_over (game w) = existsb (overlaps_now w) (obstacles (game w)).
Proof.
  intros Hinit Hh Hrun.
  apply (flag_invariant conf g inputs w0 w Hinit Hh Hrun).
Qed.

(** *** How the obstacles are spread over the screen *)

Lemma spaced_weaken (gap gap' : Z) (ys : list Z) :
  gap' <= gap -> spaced gap ys -> spaced gap' ys.
Proof.
  intros Hle. induction ys as [|y ys IH]; simpl; [trivial |].
  intros [Hall Hs]. split; [| apply IH, Hs].
  eapply Forall_impl; [exact Hall |]. simpl. intros; lia.
Qed.

Lemma spaced_map_filter {A : Type} (f : A -> Z) (p : A -> bool) (gap : Z)
      (l : list A) :
  spaced gap (map f l) -> spaced gap (map f (List.filter p l)).
Proof.
  induction l as [|a l IH]; simpl; [trivial |].
  intros [Hall Hs]. destruct (p a); [| apply IH, Hs].
  simpl. split; [| apply IH, Hs].
  apply List.Forall_forall. intros y Hy.
  apply List.in_map_iff in Hy. destruct Hy as (x & <- & Hx).
  apply List.filter_In in Hx. destruct Hx as [Hx _].
  rewrite List.Forall_forall in Hall. apply Hall. apply List.in_map. exact Hx.
Qed.

Lemma spaced_map_shift {A : Type} (f h : A -> Z) (d gap : Z) (l : list A) :
  (forall x, In x l -> f x = h x + d) ->
  spaced gap (map h l) -> spaced gap (map f l).
Proof.
  induction l as [|a l IH]; simpl; [trivial |].
  intros Hfh [Hall Hs]. split.
  - apply List.Forall_forall. intros y Hy.
    apply List.in_map_iff in Hy. destruct Hy as (x & <- & Hx).
    rewrite List.Forall_forall in Hall.
    pose proof (Hall (h x) (List.in_map h l x Hx)) as Hgap.
    rewrite (Hfh x) by (right; exact Hx). rewrite (Hfh a) by (left; reflexivity).
    lia.
  - apply IH; [| exact Hs]. intros x Hx. apply Hfh. right. exact Hx.
Qed.

Lemma spaced_snoc (gap y0 : Z) (ys : list Z) :
  spaced gap ys -> Forall (fun y => y0 + gap <= y) ys ->
  spaced gap (ys ++ [y0]).
Proof.
  induction ys as [|y ys IH]; simpl.
  - intros _ _. split; [constructor | trivial].
  - intros [Hall Hs] Hf. inversion Hf as [|? ? Hy Hf']; subst. split.
    + apply Forall_app. split; [exact Hall |].
      constructor; [exact Hy | constructor].
    + apply IH; assumption.
Qed.

(** The first entry of a spaced list is far above the lowest bound. *)
Lemma spaced_head_bound (gap lo : Z) (rest : list Z) :
  forall y, spaced gap (y :: rest) -> Forall (fun v => lo <= v) (y :: rest) ->
            lo + gap * Z.of_nat (length rest) <= y.
Proof.
  induction rest as [|y2 rest IH]; intros y Hs Hlo.
  - inversion Hlo; subst. simpl. lia.
  - destruct Hs as [Hall Hs]. inversion Hlo as [|? ? Hy Hlo']; subst.
    inversion Hall as [|? ? Hy2 _]; subst.
    pose proof (IH y2 Hs Hlo') as Hb.
    change (length (y2 :: rest)) with (S (length rest)).
    rewrite Nat2Z.inj_succ. lia.
Qed.

Lemma spaced_length (gap lo hi : Z) (ys : list Z) :
  0 < gap -> lo <= hi -> spaced gap ys ->
  Forall (fun v => lo <= v <= hi) ys ->
  Z.of_nat (length ys) <= (hi - lo) / gap + 1.
Proof.
  intros Hgap Hlohi Hs Hr.
  assert (Hq : 0 <= (hi - lo) / gap) by (apply Z.div_pos; lia).
  destruct ys as [|y rest]; [simpl; lia |].
  assert (Hlo : Forall (fun v => lo <= v) (y :: rest)).
  { eapply Forall_impl; [exact Hr |]. simpl. intros; lia. }
  pose proof (spaced_head_bound gap lo rest y Hs Hlo) as Hb.
  inversion Hr as [|? ? Hy _]; subst.
  assert (Z.of_nat (length rest) <= (hi - lo) / gap).
  { apply Z.div_le_lower_bound; [exact Hgap | lia]. }
  change (length (y :: rest)) with (S (length rest)).
  rewrite Nat2Z.inj_succ. lia.
Qed.

(** Two rectangles that collide share a row. *)
Lemma colliderect_rows (a b : Rect) :
  colliderect a b = true -> 0 <= rect_h a -> 0 <= rect_h b ->
  rect_y a < rect_y b + rect_h b /\ rect_y b < rect_y a + rect_h a.
Proof.
  unfold colliderect.
  destruct ((rect_w a =? 0) || (rect_h a =? 0) || (rect_w b =? 0)
            || (rect_h b =? 0)); [discriminate |].
  intros H Ha Hb.
  apply andb_true_iff in H. destruct H as [H H4].
  apply andb_true_iff in H. destruct H as [H H3].
  apply andb_true_iff in H. destruct H as [_ H2].
  apply Z.ltb_lt in H2. apply Z.ltb_lt in H4. lia.
Qed.

Lemma obstacle_ys_same (w w' : World G) :
  obstacles (game w') = obstacles (game w) ->
  (forall r, r ∈ obstacles (game w) -> store w' !! r = store w !! r) ->
  obstacle_ys w' = obstacle_ys w.
Proof.
  intros Ho Hst. unfold obstacle_ys. rewrite Ho. apply List.map_ext_in.
  intros r Hr. unfold obstacle_y. rewrite Hst; [reflexivity |].
  apply list_elem_of_In. exact Hr.
Qed.

(** A moved obstacle is 3 pixels lower. *)
Lemma obstacle_y_moved (w w' : World G) (r : ref) (c' : Car) :
  wf w -> moved_to w r c' -> store w' !! r = Some c' ->
  obstacle_y w' r = obstacle_y w r + 3.
Proof.
  intros Hwf Hm Hs.
  destruct (moved_to_derived _ _ _ Hwf Hm) as (c & Hc & _ & _ & Hy).
  destruct (wf_speeds _ Hwf) as (_ & _ & Hv). rewrite Hv in Hy.
  unfold obstacle_y. rewrite Hs, Hc. exact Hy.
Qed.

(** The obstacle pass of a running frame, on obstacles that are spread
    out: either nothing is hit, or the obstacle hit is the oldest one and
    no older obstacle was waiting to be removed. *)
Lemma spread_update_obstacles (w w' : World G) (t : Z) :
  wf w ->
  spaced 180 (obstacle_ys w) ->
  Forall (fun y => - 50 <= y <= height (config (game w)) /\ 130 <= y + 3 * t)
         (obstacle_ys w) ->
  _update_obstacles w = Ok (tt, w') ->
  (game_over (game w') = game_over (game w) /\
   spaced 180 (obstacle_ys w') /\
   Forall (fun y => - 50 <= y <= height (config (game w)) /\ 133 <= y + 3 * t)
          (obstacle_ys w'))
  \/
  (game_over (game w') = true /\
   spaced 177 (obstacle_ys w') /\
   Forall (fun y => - 50 <= y <= height (config (game w)) /\ 130 <= y + 3 * t)
          (obstacle_ys w') /\
   exists r post c',
     obstacles (game w) = r :: post /\
     obstacles (game w') = r :: post /\
     moved_to w r c' /\ store w' !! r = Some c' /\
     overlaps_after_move w r = true /\
     forall q, q ∈ post -> store w' !! q = store w !! q).
Proof.
  intros Hwf Hsp Hrange H.
  pose proof (wf_update_obstacles _ _ Hwf H) as Hwf'.
  destruct (update_obstacles_ok _ _ (wf_nodup _ Hwf)
              (wf_player_apart _ Hwf) H)
    as (_ & _ & Hst
        & [[Hg Hall]
          | (Hg & pre & r & post & Hobs & Hmv & _ & Hrb & Hhit & Hpost)]).
  - left. split; [rewrite Hg; reflexivity |].
    assert (Hy : forall r, In r (obstacles (game w)) ->
                   obstacle_y w' r = obstacle_y w r + 3).
    { intros r Hr. apply list_elem_of_In in Hr.
      destruct (Hall r Hr) as (c' & Hm & Hs & _).
      eapply obstacle_y_moved; eassumption. }
    unfold obstacle_ys. rewrite Hg. simpl. split.
    + apply spaced_map_filter.
      apply (spaced_map_shift _ (obstacle_y w) 3); [exact Hy | exact Hsp].
    + apply List.Forall_forall. intros y Hin.
      apply List.in_map_iff in Hin. destruct Hin as (r & <- & Hr).
      apply List.filter_In in Hr. destruct Hr as [Hr Hb].
      unfold obstacle_ys in Hrange. rewrite List.Forall_forall in Hrange.
      pose proof (Hrange _ (List.in_map (obstacle_y w) _ _ Hr)) as Hold.
      rewrite (Hy r Hr).
      assert (Hle : obstacle_y w r + 3 <= height (config (game w))).
      { rewrite <- (Hy r Hr). apply negb_true_iff in Hb.
        apply list_elem_of_In in Hr.
        destruct (Hall r Hr) as (c' & _ & Hs & _).
        rewrite (centre_below_eq _ _ _ Hs) in Hb. apply Z.ltb_ge in Hb.
        rewrite Hg in Hb. simpl in Hb.
        unfold obstacle_y. rewrite Hs. exact Hb. }
      lia.
  - right. split; [rewrite Hg; reflexivity |].
    destruct (Hmv r) as (c' & Hm & Hs).
    { apply elem_of_app. right. apply list_elem_of_singleton. reflexivity. }
    assert (Hr_in : r ∈ obstacles (game w)).
    { rewrite Hobs. apply elem_of_app. right. left. }
    assert (Hyr : obstacle_y w' r = obstacle_y w r + 3).
    { eapply obstacle_y_moved; eassumption. }
    assert (Hlow : height (config (game w)) - 128 < obstacle_y w r).
    { destruct (lookup_lt_is_Some_2 _ _ (wf_player _ Hwf)) as (pc & Hpc).
      rewrite (overlaps_eq _ _ _ _ Hpc Hm) in Hhit.
      destruct (player_rect_rows _ _ Hwf Hpc) as [Hpy Hph].
      assert (Hr_in' : r ∈ obstacles (game w')).
      { rewrite Hg. simpl. exact Hr_in. }
      destruct (obstacle_rect_rows _ _ _ Hwf' Hr_in' Hs) as [Hoy Hoh].
      apply colliderect_rows in Hhit; [| lia | lia].
      rewrite Hpy, Hoy, Hoh in Hhit.
      assert (Hc' : obstacle_y w' r = car_y c').
      { unfold obstacle_y. rewrite Hs. reflexivity. }
      lia. }
    assert (Hpre : pre = []).
    { destruct pre as [|q pre']; [reflexivity | exfalso].
      unfold obstacle_ys in Hsp, Hrange. rewrite Hobs in Hsp, Hrange.
      simpl in Hsp, Hrange. destruct Hsp as [Hall _].
      inversion Hrange as [|? ? [[_ Hq] _] _]; subst.
      rewrite List.Forall_forall in Hall.
      assert (Hin : In (obstacle_y w r)
                       (map (obstacle_y w) (pre' ++ r :: post))).
      { apply List.in_map. apply List.in_app_iff. right. left. reflexivity. }
      pose proof (Hall _ Hin). lia. }
    subst pre. simpl in Hobs.
    assert (Hnd : r ∉ post).
    { pose proof (wf_nodup _ Hwf) as Hnd. rewrite Hobs in Hnd.
      apply NoDup_cons in Hnd. apply Hnd. }
    assert (Hyp : forall q, In q post -> obstacle_y w' q = obstacle_y w q + 0).
    { intros q Hq. apply list_elem_of_In in Hq.
      unfold obstacle_y. rewrite (Hpost q Hq). lia. }
    unfold obstacle_ys in Hsp, Hrange |- *. rewrite Hg. simpl.
    rewrite Hobs in Hsp, Hrange |- *. simpl in Hsp, Hrange |- *.
    destruct Hsp as [Hall Hsp].
    inversion Hrange as [|? ? Hr0 Hrest]; subst.
    assert (Hmap : map (obstacle_y w') post = map (obstacle_y w) post).
    { apply List.map_ext_in. intros q Hq. rewrite (Hyp q Hq). lia. }
    rewrite Hmap, Hyr. conjs.
    + eapply Forall_impl; [exact Hall |]. simpl. intros; lia.
    + apply (spaced_weaken 180); [lia | exact Hsp].
    + constructor; [| exact Hrest].
      rewrite (centre_below_eq _ _ _ Hs) in Hrb.
      apply Z.ltb_ge in Hrb. rewrite Hg in Hrb. simpl in Hrb.
      assert (Hc' : obstacle_y w' r = car_y c').
      { unfold obstacle_y. rewrite Hs. reflexivity. }
      lia.
    + exists r, post, c'. conjs; try assumption; reflexivity.
Qed.

Lemma spread_maybe_spawn (gap k : Z) (w w' : World G) :
  gap <= k + 47 -> k <= 133 ->
  wf w -> - 50 <= height (config (game w)) -> 1 <= spawn_timer (game w) ->
  spaced gap (obstacle_ys w) ->
  Forall (fun y => - 50 <= y <= height (config (game w))
                   /\ k <= y + 3 * spawn_timer (game w))
         (obstacle_ys w) ->
  _maybe_spawn_obstacle w = Ok (tt, w') ->
  spaced gap (obstacle_ys w') /\
  Forall (fun y => - 50 <= y <= height (config (game w))
                   /\ k - 3 <= y + 3 * spawn_timer (game w'))
         (obstacle_ys w').
Proof.
  intros Hgap Hk Hwf Hh Ht Hsp Hrange H.
  pose proof (timer_maybe_spawn _ _ Hwf H) as Htimer.
  apply maybe_spawn_ok in H. cbv zeta in H.
  destruct H as [[Hpos ->] | (Hzero & lane & g1 & cw & x & car & delay & g2
                              & _ & _ & _ & _ & Hcar & _ & _ & ->)].
  - split; [exact Hsp |]. simpl.
    eapply Forall_impl; [exact Hrange |]. simpl. intros; lia.
  - destruct Htimer as [[? _] | [_ Hdelay]]; [lia |]. simpl in Hdelay.
    match goal with
    | |- spaced _ (obstacle_ys ?W) /\ _ =>
        assert (Hys : obstacle_ys W = obstacle_ys w ++ [- 50])
    end.
    { unfold obstacle_ys. simpl. rewrite List.map_app. simpl. f_equal.
      - apply List.map_ext_in. intros r Hr. unfold obstacle_y. simpl.
        rewrite lookup_app_l; [reflexivity |].
        pose proof (wf_obstacles _ Hwf) as Hall.
        rewrite Forall_forall in Hall.
        apply Hall. apply list_elem_of_In. exact Hr.
      - unfold obstacle_y. simpl. rewrite lookup_app_r by lia.
        rewrite Nat.sub_diag. simpl. apply Car_new_ok in Hcar.
        destruct Hcar as (_ & _ & Hy & _). rewrite Hy. reflexivity. }
    rewrite Hys. cbn [spawn_timer game set_spawn_timer]. split.
    + apply spaced_snoc; [exact Hsp |].
      eapply Forall_impl; [exact Hrange |]. simpl. intros; lia.
    + apply Forall_app. split.
      * eapply Forall_impl; [exact Hrange |]. simpl. intros; lia.
      * constructor; [lia | constructor].
Qed.

Lemma maybe_spawn_flags (w w' : World G) :
  _maybe_spawn_obstacle w = Ok (tt, w') ->
  game_over (game w') = game_over (game w) /\
  config (game w') = config (game w).
Proof.
  intros H. apply maybe_spawn_ok in H. cbv zeta in H.
  destruct H as [[_ ->] | (_ & lane & g1 & cw & x & car & delay & g2 & _
                           & _ & _ & _ & _ & _ & _ & ->)];
    split; reflexivity.
Qed.

Lemma spread_update_running (cfg : GameConfig) (keys : Keys)
      (w w' : World G) :
  - 50 <= height cfg -> spread_out cfg w -> game_over (game w) = false ->
  update keys w = Ok (tt, w') -> spread_out cfg w'.
Proof.
  intros Hh (Hwf & Hcfg & Ht & _ & Hrange & Hrun) Hover Hu.
  destruct (Hrun Hover) as [Hsp Hslack].
  pose proof (timer_update _ _ _ Hwf Hover Hu) as Htimer.
  destruct (update_chain _ _ _ Hwf Hover Hu)
    as (w1 & w2 & w3 & w4 & H1 & H2 & H3 & H4 & H5
        & Hwf1 & Hwf2 & Hwf3 & Hwf4 & Hwf').
  destruct (update_prefix_game _ _ _ _ _ H1 H2 H3) as (l & b & ms & Hg3).
  destruct (update_car_frame _ _ _ H1) as (Hg1 & _ & _ & Hst1).
  assert (Hys2 : obstacle_ys w2 = obstacle_ys w).
  { rewrite update_lane_markers_eq in H2. injection H2 as <-.
    apply obstacle_ys_same; simpl.
    - rewrite Hg1. reflexivity.
    - intros r Hr. apply Hst1. intros ->.
      apply (wf_player_apart _ Hwf). exact Hr. }
  assert (Hg2 : config (game w2) = cfg /\ game_over (game w2) = false).
  { rewrite update_lane_markers_eq in H2. injection H2 as <-.
    simpl. rewrite Hg1. split; assumption. }
  destruct Hg2 as [Hcfg2 Hover2].
  assert (Hin : Forall (fun y => - 50 <= y <= height (config (game w2))
                                 /\ 130 <= y + 3 * spawn_timer (game w))
                       (obstacle_ys w2)).
  { rewrite Hys2, Hcfg2. apply Forall_and. split; assumption. }
  rewrite <- Hys2 in Hsp.
  assert (Ht3 : spawn_timer (game w3) = spawn_timer (game w)).
  { rewrite Hg3. reflexivity. }
  assert (Hcfg3 : config (game w3) = cfg).
  { rewrite Hg3. exact Hcfg. }
  destruct (maybe_spawn_flags _ _ H4) as [Hov4 Hcfg4].
  apply update_score_ok in H5. destruct H5 as (q & _ & ->).
  assert (Hys' : forall gm, obstacle_ys (mkWorld (set_score gm (game w4))
                                                 (store w4) (rng w4))
                            = obstacle_ys w4) by reflexivity.
  unfold spread_out. rewrite Hys'.
  cbn [game set_score config spawn_timer game_over] in Htimer |- *.
  assert (Hh3 : - 50 <= height (config (game w3))) by (rewrite Hcfg3; exact Hh).
  assert (Ht3' : 1 <= spawn_timer (game w3)) by lia.
  destruct (spread_update_obstacles _ _ _ Hwf2 Hsp Hin H3)
    as [(Hov3 & Hsp3 & Hr3) | (Hov3 & Hsp3 & Hr3 & _)];
    rewrite Hcfg2, <- Hcfg3, <- Ht3 in Hr3.
  - destruct (spread_maybe_spawn 180 133 _ _ ltac:(lia) ltac:(lia) Hwf3
                Hh3 Ht3' Hsp3 Hr3 H4) as [Hsp4 Hr4].
    rewrite Hcfg3 in Hr4. apply Forall_and in Hr4. destruct Hr4 as [Hr4 Hs4].
    conjs; try assumption; try lia.
    + congruence.
    + apply (spaced_weaken 180); [lia | exact Hsp4].
    + intros _. split; [exact Hsp4 |].
      eapply Forall_impl; [exact Hs4 |]. simpl. intros; lia.
  - destruct (spread_maybe_spawn 177 130 _ _ ltac:(lia) ltac:(lia) Hwf3
                Hh3 Ht3' Hsp3 Hr3 H4) as [Hsp4 Hr4].
    rewrite Hcfg3 in Hr4. apply Forall_and in Hr4. destruct Hr4 as [Hr4 _].
    conjs; try assumption; try lia.
    + congruence.
    + intros Hrunning. congruence.
Qed.

Lemma spread_handle_event (cfg : GameConfig) (e : Event) (w w' : World G) :
  spread_out cfg w -> handle_event e w = Ok (tt, w') -> spread_out cfg w'.
Proof.
  intros (Hwf & Hcfg & Ht & Hsp & Hrange & Hrun) He.
  pose proof (wf_handle_event _ _ _ Hwf He) as Hwf'.
  destruct (handle_event_cases _ _ _ He) as [(_ & _ & Hr) | (b & ->)].
  - pose proof (timer_reset_game _ _ Hwf Hr) as Htimer.
    apply reset_game_ok in Hr. cbv zeta in Hr.
    destruct Hr as (delay & g1 & x & c & c' & _ & _ & _ & _ & _ & ->).
    unfold spread_out, obstacle_ys. simpl in Htimer |- *.
    conjs; try assumption; try lia; try constructor.
    all: constructor.
  - unfold spread_out. conjs; try assumption; simpl; lia.
Qed.

Lemma spread_update (cfg : GameConfig) (keys : Keys) (w w' : World G) :
  - 50 <= height cfg -> spread_out cfg w ->
  update keys w = Ok (tt, w') -> spread_out cfg w'.
Proof.
  intros Hh Hs Hu. destruct (game_over (game w)) eqn:Hover.
  - rewrite update_over in Hu by assumption. injection Hu as <-. exact Hs.
  - eapply spread_update_running; eassumption.
Qed.

Lemma spread_invariant (conf : option GameConfig) (g : G)
      (inputs : list FrameInput) (w0 w : World G) :
  RacingGame_init conf g = Ok w0 ->
  - 50 <= height (config (game w0)) ->
  run inputs w0 = Ok (tt, w) ->
  spread_out (config (game w0)) w.
Proof.
  intros Hinit Hh Hrun.
  apply (run_invariant (spread_out (config (game w0))))
    with (inputs := inputs) (w := w0); [| | | exact Hrun].
  - intros e w1 w2. apply spread_handle_event.
  - intros keys w1 w2. apply spread_update. exact Hh.
  - destruct (timer_invariant conf g [] w0 w0 Hinit eq_refl) as [Hwf Ht].
    apply RacingGame_init_ok in Hinit. cbv zeta in Hinit.
    destruct Hinit as (lw & cw & cx & car & delay & g1 & ms & _ & _ & _ & _
                       & _ & _ & ->).
    unfold spread_out, obstacle_ys. simpl in Ht |- *.
    conjs; try assumption; try lia; try constructor.
    all: constructor.
Qed.

(** X7. At the start of every turn of the main loop the obstacles of the list
    are ordered from the lowest to the highest, each at least 177 pixels
    above the one before it, and all of them have their centre between the
    spawn height -50 and the bottom of the screen (the screen being at
    least -50 high). *)
Theorem obstacles_spread_out (conf : option GameConfig) (g : G)
        (inputs : list FrameInput) (w0 w : World G) :
  RacingGame_init conf g = Ok w0 ->
  - 50 <= height (config (game w0)) ->
  run inputs w0 = Ok (tt, w) ->
  spaced 177 (obstacle_ys w) /\
  Forall (fun y => - 50 <= y <= height (config (game w0))) (obstacle_ys w).
Proof.
  intros Hinit Hh Hrun.
  destruct (spread_invariant conf g inputs w0 w Hinit Hh Hrun)
    as (_ & _ & _ & Hsp & Hrange & _).
  split; assumption.
Qed.

(** X8. So the obstacle list never holds more than
    [(height + 50) // 177 + 1] cars: four in the default game. *)
Theorem obstacle_count_bound (conf : option GameConfig) (g : G)
        (inputs : list FrameInput) (w0 w : World G) :
  RacingGame_init conf g = Ok w0 ->
  - 50 <= height (config (game w0)) ->
  run inputs w0 = Ok (tt, w) ->
  Z.of_nat (length (obstacles (game w)))
  <= (height (config (game w0)) + 50) / 177 + 1.
Proof.
  intros Hinit Hh Hrun.
  destruct (spread_invariant conf g inputs w0 w Hinit Hh Hrun)
    as (_ & _ & _ & Hsp & Hrange & _).
  pose proof (spaced_length 177 (- 50) (height (config (game w0)))
                (obstacle_ys w) ltac:(lia) Hh Hsp Hrange) as Hlen.
  unfold obstacle_ys in Hlen. rewrite length_map in Hlen.
  replace (height (config (game w0)) + 50)
    with (height (config (game w0)) - - 50) by lia.
  exact Hlen.
Qed.

(** X9. A collision is always with the oldest obstacle: in a turn of the main
    loop that ends the game, the obstacle that reaches the player is the
    first of the list, so no other obstacle is moved in that frame and none
    was below the screen waiting to be removed. *)
Theorem collision_hits_oldest_obstacle (conf : option GameConfig) (g : G)
        (inputs : list FrameInput) (evs : list Event) (keys : Keys)
        (w0 w wa w' : World G) :
  RacingGame_init conf g = Ok w0 ->
  - 50 <= height (config (game w0)) ->
  run inputs w0 = Ok (tt, w) ->
  handle_events evs w = Ok (tt, wa) ->
  game_over (game wa) = false ->
  update keys wa = Ok (tt, w') ->
  game_over (game w') = true ->
  exists w1 w2 w3 r post,
    _update_car keys wa = Ok (tt, w1) /\
    _update_lane_markers w1 = Ok (tt, w2) /\
    _update_obstacles w2 = Ok (tt, w3) /\
    obstacles (game wa) = r :: post /\
    overlaps_after_move w2 r = true /\
    obstacle_y w3 r = obstacle_y wa r + 3 /\
    (forall q, q ∈ post -> store w3 !! q = store wa !! q) /\
    Forall (fun q => centre_below w3 q = false) (obstacles (game wa)).
Proof.
  intros Hinit Hh Hrun Hev Hover Hu Hover'.
  pose proof (spread_invariant conf g inputs w0 w Hinit Hh Hrun) as Hs.
  pose proof (handle_events_invariant (spread_out (config (game w0)))
                (fun e w1 w2 => spread_handle_event _ e w1 w2)
                evs w wa Hs Hev) as (Hwf & Hcfg & Ht & _ & Hrange & Hrunning).
  destruct (Hrunning Hover) as [Hsp Hslack].
  destruct (update_chain _ _ _ Hwf Hover Hu)
    as (w1 & w2 & w3 & w4 & H1 & H2 & H3 & H4 & H5
        & Hwf1 & Hwf2 & Hwf3 & Hwf4 & Hwf').
  destruct (update_car_frame _ _ _ H1) as (Hg1 & _ & _ & Hst1).
  assert (Hw2 : game w2 = set_lane_markers
                            (map (marker_step (game w1))
                                 (lane_markers (game w1))) (game w1)
                /\ store w2 = store w1).
  { rewrite update_lane_markers_eq in H2. injection H2 as <-.
    split; reflexivity. }
  destruct Hw2 as [Hg2 Hst2].
  assert (Hapart : forall r, r ∈ obstacles (game wa) ->
                             store w2 !! r = store wa !! r).
  { intros r Hr. rewrite Hst2. apply Hst1. intros ->.
    apply (wf_player_apart _ Hwf). exact Hr. }
  assert (Hobs2 : obstacles (game w2) = obstacles (game wa)).
  { rewrite Hg2. simpl. rewrite Hg1. reflexivity. }
  assert (Hys2 : obstacle_ys w2 = obstacle_ys wa).
  { apply obstacle_ys_same; assumption. }
  assert (Hcfg2 : config (game w2) = config (game w0)).
  { rewrite Hg2. simpl. rewrite Hg1. exact Hcfg. }
  assert (Hin : Forall (fun y => - 50 <= y <= height (config (game w2))
                                 /\ 130 <= y + 3 * spawn_timer (game wa))
                       (obstacle_ys w2)).
  { rewrite Hys2, Hcfg2. apply Forall_and. split; assumption. }
  rewrite <- Hys2 in Hsp.
  destruct (maybe_spawn_flags _ _ H4) as [Hov4 _].
  assert (Hov3 : game_over (game w3) = true).
  { apply update_score_ok in H5. destruct H5 as (q & _ & ->).
    simpl in Hover'. congruence. }
  assert (Hover2 : game_over (game w2) = false).
  { rewrite Hg2. simpl. rewrite Hg1. exact Hover. }
  destruct (spread_update_obstacles _ _ _ Hwf2 Hsp Hin H3)
    as [(Hsame & _) | (_ & _ & Hr3 & r & post & c' & Ho2 & Ho3 & Hm & Hs3
                       & Hhit & Hpost)]; [congruence |].
  exists w1, w2, w3, r, post. conjs; try assumption.
  - congruence.
  - rewrite (obstacle_y_moved _ _ _ _ Hwf2 Hm Hs3).
    unfold obstacle_y. rewrite Hapart; [reflexivity |].
    rewrite <- Hobs2, Ho2. left.
  - intros q Hq. rewrite (Hpost q Hq). apply Hapart.
    rewrite <- Hobs2, Ho2. right. exact Hq.
  - rewrite <- Hobs2, Ho2, <- Ho3.
    unfold obstacle_ys in Hr3. rewrite Forall_map in Hr3.
    eapply Forall_impl; [exact Hr3 |]. simpl. intros q [[_ Hq] _].
    unfold centre_below. unfold obstacle_y in Hq.
    destruct (store w3 !! q); [| reflexivity].
    apply Z.ltb_ge. pose proof (update_obstacles_attrs _ _ H3) as (l & b & Hg3).
    rewrite Hg3. simpl. exact Hq.
Qed.

(** *** Which configurations raise, and where *)

Lemma float_of_int_raise (z : Z) (e : exn) :
  float_of_int z = Raise e -> e = OverflowError.
Proof.
  unfold float_of_int. destruct (Z.abs z <? PyFloat.int_limit);
    [discriminate | congruence].
Qed.

Lemma py_int_raise (f : float) (e : exn) :
  py_int f = Raise e -> e = ValueError \/ e = OverflowError.
Proof.
  unfold py_int. destruct f as [s | s | | s m x]; simpl; intros H;
    try discriminate.
  - right. congruence.
  - left. congruence.
Qed.

Lemma lane_center_raise (tl : Z) (lw : float) (lane : Z) (e : exn) :
  lane_center tl lw lane = Raise e -> e = OverflowError.
Proof.
  unfold lane_center.
  destruct (float_of_int lane) as [fl | e1 |] eqn:E1; cbn [rbind];
    [| intros [= <-]; eapply float_of_int_raise; exact E1 | discriminate].
  destruct (float_of_int tl) as [ftl | e2 |] eqn:E2; cbn [rbind];
    [discriminate | intros [= <-]; eapply float_of_int_raise; exact E2
     | discriminate].
Qed.

Lemma marker_x_raise (tl : Z) (lw : float) (lane : Z) (e : exn) :
  marker_x tl lw lane = Raise e -> e = ValueError \/ e = OverflowError.
Proof.
  unfold marker_x.
  destruct (float_of_int lane) as [fl | e1 |] eqn:E1; cbn [rbind];
    [| intros [= <-]; right; eapply float_of_int_raise; exact E1
     | discriminate].
  destruct (float_of_int tl) as [ftl | e2 |] eqn:E2; cbn [rbind];
    [apply py_int_raise
    | intros [= <-]; right; eapply float_of_int_raise; exact E2
    | discriminate].
Qed.

Lemma Car_new_raise (x : float) (y cw h : Z) (col : Color) (e : exn) :
  Car_new x y cw h col = Raise e -> e = OverflowError.
Proof.
  unfold Car_new.
  destruct (float_of_int (cw / 2)) as [hw | e1 |] eqn:E1; cbn [rbind];
    [discriminate | intros [= <-]; eapply float_of_int_raise; exact E1
     | discriminate].
Qed.

Lemma int_truediv_zero (a : Z) : int_truediv a 0 = Raise ZeroDivisionError.
Proof. reflexivity. Qed.

Lemma int_truediv_raise (a b : Z) (e : exn) :
  b <> 0 -> int_truediv a b = Raise e -> e = OverflowError.
Proof.
  intros Hb. unfold int_truediv.
  destruct (b =? 0) eqn:E; [apply Z.eqb_eq in E; contradiction |].
  destruct (PyFloat.div (PyFloat.raw_int a) (PyFloat.raw_int b));
    try discriminate. congruence.
Qed.

Lemma marker_column_raise (cfg : GameConfig) (lane : Z) (w : World G)
      (e : exn) :
  marker_column cfg lane w = Raise e -> e = ValueError \/ e = OverflowError.
Proof.
  unfold marker_column, bind. unfold gets. unfold lift at 1.
  destruct (marker_x (track_left (game w)) (lane_width (game w)) lane)
    as [x | e1 |] eqn:E1;
    [| intros [= <-]; eapply marker_x_raise; exact E1 | discriminate].
  unfold lift. unfold py_range.
  destruct (lane_marker_length cfg + lane_marker_gap cfg =? 0).
  - intros [= <-]. left. reflexivity.
  - rewrite marker_rows_eq. discriminate.
Qed.

Lemma marker_columns_raise (cfg : GameConfig) (lanes : list Z) :
  forall (w : World G) (e : exn),
    for_each lanes (marker_column cfg) w = Raise e ->
    e = ValueError \/ e = OverflowError.
Proof.
  induction lanes as [|lane lanes IH]; intros w e; [discriminate |].
  cbn [for_each]. unfold bind at 1.
  destruct (marker_column cfg lane w) as [[u w1] | e1 |] eqn:E1;
    [apply IH | intros [= <-]; eapply marker_column_raise; exact E1
     | discriminate].
Qed.

(** X10. Of the three exceptions [__init__] can raise, [ZeroDivisionError] is
    the one of a configuration without lanes, and of no other. *)
Theorem init_zero_division_iff (conf : option GameConfig) (g : G) :
  RacingGame_init conf g = Raise ZeroDivisionError <->
  lane_count (config_or_default conf) = 0.
Proof.
  unfold RacingGame_init. cbv zeta.
  fold (config_or_default conf). set (cfg := config_or_default conf).
  split.
  - intros H.
    destruct (Z.eq_dec (lane_count cfg) 0) as [Hz | Hnz]; [exact Hz |].
    exfalso.
    destruct (int_truediv (width cfg - border_x cfg - border_x cfg)
                          (lane_count cfg)) as [lw | e1 |] eqn:E1;
      cbn [rbind] in H;
      [| injection H as ->; apply int_truediv_raise in E1;
         [discriminate | exact Hnz]
       | discriminate].
    destruct (py_int (PyFloat.mul lw PyFloat.f0_6)) as [cw | e2 |] eqn:E2;
      cbn [rbind] in H;
      [| injection H as ->; apply py_int_raise in E2;
         destruct E2; discriminate
       | discriminate].
    destruct (lane_center (border_x cfg) lw 1) as [cx | e3 |] eqn:E3;
      cbn [rbind] in H;
      [| injection H as ->; apply lane_center_raise in E3; discriminate
       | discriminate].
    destruct (Car_new cx (height cfg - 80) cw 40 color_player_car)
      as [car | e4 |] eqn:E4; cbn [rbind] in H;
      [| injection H as ->; apply Car_new_raise in E4; discriminate
       | discriminate].
    revert H. unfold bind at 1. unfold _next_spawn_delay, bind.
    unfold gets at 1. cbn [spawn_cooldown_range game fst snd].
    unfold py_randint. change (60 <=? 120) with true. cbv iota.
    unfold draw. cbn [rng game store].
    destruct (randint 60 120 g) as [delay g1]. unfold modify at 1.
    cbn [game store rng]. unfold _init_lane_markers, bind.
    unfold gets at 1. cbn [game config set_spawn_timer]. unfold lift.
    destruct (py_range 1 (lane_count cfg) 1) as [lanes | e5 |] eqn:E5;
      [| unfold py_range in E5; simpl in E5; discriminate ..].
    match goal with
    | |- context [for_each lanes (marker_column cfg) ?w] =>
        destruct (for_each lanes (marker_column cfg) w)
          as [[u w1] | e6 |] eqn:E6
    end; cbn [rbind]; try discriminate.
    intros [= ->]. apply marker_columns_raise in E6.
    destruct E6; discriminate.
  - intros Hz. rewrite Hz. rewrite int_truediv_zero. reflexivity.
Qed.

Lemma py_range_from_one (n : Z) :
  2 <= n -> exists rest, py_range 1 n 1 = Ok (1 :: rest).
Proof.
  intros Hn. unfold py_range, range_len. simpl.
  replace (n - 1 + 1 - 1) with (n - 1) by lia. rewrite Z.div_1_r.
  destruct (Z.to_nat (n - 1)) as [|k] eqn:E; [lia |].
  simpl. eexists. reflexivity.
Qed.

(** X11. A configuration with two lanes or more whose marker length and gap add
    up to zero makes [__init__] raise [ValueError], the zero step of the
    [range] of [_init_lane_markers]. *)
Theorem init_zero_marker_step_raises (cfg : GameConfig) (g : G)
        (lw cx : float) (cw x1 : Z) (car : Car) :
  int_truediv (width cfg - border_x cfg - border_x cfg) (lane_count cfg)
  = Ok lw ->
  py_int (PyFloat.mul lw PyFloat.f0_6) = Ok cw ->
  lane_center (border_x cfg) lw 1 = Ok cx ->
  Car_new cx (height cfg - 80) cw 40 color_player_car = Ok car ->
  marker_x (border_x cfg) lw 1 = Ok x1 ->
  2 <= lane_count cfg ->
  lane_marker_length cfg + lane_marker_gap cfg = 0 ->
  RacingGame_init (Some cfg) g = Raise ValueError.
Proof.
  intros Hlw Hcw Hcx Hcar Hx Hlanes Hstep.
  unfold RacingGame_init. cbv zeta. rewrite Hlw. cbn [rbind].
  rewrite Hcw. cbn [rbind]. rewrite Hcx. cbn [rbind]. rewrite Hcar.
  cbn [rbind].
  unfold bind at 1. unfold _next_spawn_delay, bind. unfold gets at 1.
  cbn [spawn_cooldown_range game fst snd]. unfold py_randint.
  change (60 <=? 120) with true. cbv iota. unfold draw. cbn [rng game store].
  destruct (randint 60 120 g) as [delay g1]. unfold modify at 1.
  cbn [game store rng]. unfold _init_lane_markers, bind. unfold gets at 1.
  cbn [game config set_spawn_timer]. unfold lift at 1.
  destruct (py_range_from_one _ Hlanes) as (rest & ->).
  cbn [for_each]. unfold bind at 1. unfold marker_column, bind.
  unfold gets. cbn [game track_left lane_width set_spawn_timer]. rewrite Hx.
  unfold lift. unfold py_range. rewrite Hstep. reflexivity.
Qed.






(** *** Leaving the main loop *)

Lemma reset_game_running (w w' : World G) :
  _reset_game w = Ok (tt, w') -> running (game w') = running (game w).
Proof.
  intros H. apply reset_game_ok in H. cbv zeta in H.
  destruct H as (delay & g1 & x & c & c' & _ & _ & _ & _ & _ & ->).
  reflexivity.
Qed.

Lemma handle_event_running (e : Event) (w w' : World G) :
  handle_event e w = Ok (tt, w') ->
  (is_quit e = true -> running (game w') = false) /\
  (running (game w) = false -> running (game w') = false).
Proof.
  destruct e as [| k |]; simpl.
  - intros [= <-]. split; reflexivity.
  - unfold bind at 1. unfold gets at 1.
    destruct (is_return k && game_over (game w)) eqn:Er.
    + intros H. apply reset_game_running in H. rewrite H.
      destruct k; try discriminate. split; [discriminate | trivial].
    + destruct k; simpl; intros [= <-]; split; trivial; discriminate.
  - intros [= <-]. split; [discriminate | trivial].
Qed.

Lemma handle_events_running (evs : list Event) :
  forall (w w' : World G),
    handle_events evs w = Ok (tt, w') ->
    (existsb is_quit evs = true -> running (game w') = false) /\
    (running (game w) = false -> running (game w') = false).
Proof.
  unfold handle_events.
  induction evs as [|e evs IH]; intros w w' H.
  - simpl in H. unfold ret in H. injection H as <-.
    split; [discriminate | trivial].
  - cbn [for_each] in H. step_as H E.
    destruct (handle_event_running _ _ _ E) as [Hq Hoff].
    destruct (IH _ _ H) as [Hq' Hoff'].
    split; [| intros Hw; apply Hoff', Hoff, Hw].
    simpl. intros Hex. apply orb_true_iff in Hex.
    destruct Hex as [He | Hex]; [apply Hoff', Hq, He | apply Hq', Hex].
Qed.

Lemma update_running_flag (keys : Keys) (w w' : World G) :
  update keys w = Ok (tt, w') -> running (game w') = running (game w).
Proof.
  intros H. destruct (game_over (game w)) eqn:Hover.
  - rewrite update_over in H by assumption. injection H as <-. reflexivity.
  - apply update_running_ok in H; [| assumption].
    destruct H as (w1 & w2 & w3 & w4 & H1 & H2 & H3 & H4 & H5).
    destruct (update_prefix_game _ _ _ _ _ H1 H2 H3) as (l & b & ms & Hg3).
    apply update_score_ok in H5. destruct H5 as (q & _ & ->).
    apply maybe_spawn_ok in H4. cbv zeta in H4.
    destruct H4 as [[_ ->] | (_ & lane & g1 & cw & x & car & delay & g2 & _
                              & _ & _ & _ & _ & _ & _ & ->)];
      simpl; rewrite Hg3; reflexivity.
Qed.

(** X15. A turn of the main loop that receives a quit event (the window is
    closed, or Escape is pressed) is the last one: the loop still carries
    out that turn, its update included, and then ends with [running]
    false, whatever inputs would follow. *)
Theorem quit_ends_loop (i : FrameInput) (rest : list FrameInput)
        (w : World G) :
  running (game w) = true ->
  existsb is_quit (events i) = true ->
  run (i :: rest) w = frame i w /\
  forall w', frame i w = Ok (tt, w') -> running (game w') = false.
Proof.
  intros Hon Hquit.
  assert (Hoff : forall w', frame i w = Ok (tt, w') ->
                            running (game w') = false).
  { intros w' H. unfold frame in H. step_as H E.
    rewrite (update_running_flag _ _ _ H).
    apply (proj1 (handle_events_running _ _ _ E)). exact Hquit. }
  split; [| exact Hoff].
  cbn [run]. unfold bind at 1. unfold gets at 1. rewrite Hon.
  unfold bind at 1.
  destruct (frame i w) as [[[] w'] | e |] eqn:E; try reflexivity.
  pose proof (Hoff w' eq_refl) as Hw'.
  destruct rest as [|i2 rest]; [reflexivity |].
  cbn [run]. unfold bind at 1. unfold gets at 1. rewrite Hw'. reflexivity.
Qed.

(** *** The session [__init__] builds *)


(** *** The lane markers *)

Lemma marker_columns_layout (cfg : GameConfig) (lanes : list Z) :
  forall (w w' : World G),
    for_each lanes (marker_column cfg) w = Ok (tt, w') ->
    exists xs,
      Forall2 (fun lane x =>
                 marker_x (track_left (game w)) (lane_width (game w)) lane
                 = Ok x) lanes xs /\
      forall ys,
        lanes = [] \/
        py_range (- lane_marker_length cfg)
                 (height cfg + lane_marker_length cfg)
                 (lane_marker_length cfg + lane_marker_gap cfg) = Ok ys ->
        w' = mkWorld (set_lane_markers
                        (lane_markers (game w) ++ marker_grid xs ys) (game w))
                     (store w) (rng w).
Proof.
  induction lanes as [|lane lanes IH]; intros w w' H.
  - simpl in H. unfold ret in H. injection H as <-. exists []. split.
    + constructor.
    + intros ys _. unfold marker_grid. simpl. rewrite app_nil_r.
      destruct w as [gm st r]. destruct gm. reflexivity.
  - cbn [for_each] in H. step_as H E.
    unfold marker_column in E. step E. step E.
    step_as E Ex. apply lift_ok in Ex. destruct Ex as [Hx ->].
    step_as E Ey. apply lift_ok in Ey. destruct Ey as [Hys ->].
    rewrite marker_rows_eq in E. injection E as <-.
    destruct (IH _ _ H) as (xs & Hxs & Hw').
    eexists (_ :: xs). split.
    + constructor; [exact Hx | exact Hxs].
    + intros ys [Hnil | Hys']; [discriminate |].
      rewrite Hys' in Hys. injection Hys as <-.
      rewrite (Hw' ys (or_intror Hys')). simpl.
      unfold marker_grid. simpl. rewrite <- app_assoc. reflexivity.
Qed.

Lemma py_range_unit_length (n : Z) (lanes : list Z) :
  py_range 1 n 1 = Ok lanes -> length lanes = Z.to_nat (n - 1).
Proof.
  unfold py_range, range_len. simpl. intros [= <-].
  rewrite length_map, length_seq. f_equal.
  replace (n - 1 + 1 - 1) with (n - 1) by lia. apply Z.div_1_r.
Qed.

Lemma init_tail_layout (self : RacingGame) (car : Car) (g : G)
      (w0 : World G) :
  lane_markers self = [] ->
  bind _next_spawn_delay
       (fun delay => bind (modify (set_spawn_timer delay))
                          (fun _ => _init_lane_markers))
       (mkWorld self [car] g) = Ok (tt, w0) ->
  exists lanes xs,
    py_range 1 (lane_count (config self)) 1 = Ok lanes /\
    Forall2 (fun lane x =>
               marker_x (track_left self) (lane_width self) lane = Ok x)
            lanes xs /\
    config (game w0) = config self /\
    track_left (game w0) = track_left self /\
    lane_width (game w0) = lane_width self /\
    (lanes = [] -> lane_markers (game w0) = []) /\
    (lanes <> [] ->
     exists ys0,
       py_range (- lane_marker_length (config self))
                (height (config self) + lane_marker_length (config self))
                (lane_marker_length (config self)
                 + lane_marker_gap (config self)) = Ok ys0) /\
    forall ys,
      py_range (- lane_marker_length (config self))
               (height (config self) + lane_marker_length (config self))
               (lane_marker_length (config self)
                + lane_marker_gap (config self)) = Ok ys ->
      lane_markers (game w0) = marker_grid xs ys.
Proof.
  intros Hempty Hrun.
  step_as Hrun Ed. apply next_spawn_delay_ok in Ed.
  destruct Ed as (_ & g1 & _ & ->).
  step Hrun. unfold _init_lane_markers in Hrun. step Hrun.
  apply bind_ok in Hrun. destruct Hrun as (lanes & wl & El & Hrun).
  apply lift_ok in El. destruct El as [Hlanes ->]. cbv beta in Hrun.
  simpl in Hlanes.
  destruct (marker_columns_layout _ _ _ _ Hrun) as (xs & Hxs & Hw1).
  simpl in Hxs, Hw1. rewrite Hempty in Hw1. simpl in Hw1.
  exists lanes, xs. split; [exact Hlanes |]. split; [exact Hxs |].
  assert (Hex : lanes <> [] ->
                exists ys0,
                  py_range (- lane_marker_length (config self))
                           (height (config self)
                            + lane_marker_length (config self))
                           (lane_marker_length (config self)
                            + lane_marker_gap (config self)) = Ok ys0).
  { intros Hne. destruct lanes as [|l0 lanes']; [contradiction |].
    cbn [for_each] in Hrun. step_as Hrun E.
    unfold marker_column in E. step E. step E. step_as E Ex.
    step_as E Ey. apply lift_ok in Ey. destruct Ey as [Hys _].
    eexists. exact Hys. }
  destruct lanes as [|l0 lanes'].
  - rewrite (Hw1 [] (or_introl eq_refl)). inversion Hxs; subst xs. simpl.
    conjs; first [reflexivity | intros Hne; contradiction].
  - destruct (Hex ltac:(discriminate)) as (ys0 & Hys0).
    rewrite (Hw1 ys0 (or_intror Hys0)). simpl.
    conjs; first [reflexivity | discriminate
                 | intros _; exists ys0; exact Hys0
                 | intros ys Hys; congruence].
Qed.

Lemma marker_grid_length (xs ys : list Z) :
  length (marker_grid xs ys) = (length xs * length ys)%nat.
Proof.
  unfold marker_grid. induction xs as [|x xs IH]; [reflexivity |].
  simpl. rewrite length_app, length_map, IH. reflexivity.
Qed.

(** X17. [_init_lane_markers] puts one column of markers on each of the
    [lane_count - 1] inner lane boundaries, the same heights in every
    column, column after column; a track of one lane or none gets no
    marker, and then the heights are not even computed. *)
Theorem init_lane_markers_layout (conf : option GameConfig) (g : G)
        (w0 : World G) :
  RacingGame_init conf g = Ok w0 ->
  exists lanes xs,
    py_range 1 (lane_count (config (game w0))) 1 = Ok lanes /\
    length xs = Z.to_nat (lane_count (config (game w0)) - 1) /\
    Forall2 (fun lane x =>
               marker_x (track_left (game w0)) (lane_width (game w0)) lane
               = Ok x) lanes xs /\
    (lane_count (config (game w0)) <= 1 -> lane_markers (game w0) = []) /\
    forall ys,
      py_range (- lane_marker_length (config (game w0)))
               (height (config (game w0))
                + lane_marker_length (config (game w0)))
               (lane_marker_length (config (game w0))
                + lane_marker_gap (config (game w0))) = Ok ys ->
      lane_markers (game w0) = marker_grid xs ys /\
      length (lane_markers (game w0)) = (length xs * length ys)%nat.
Proof.
  unfold RacingGame_init. cbv zeta. intros H.
  apply rbind_ok in H. destruct H as (lw & _ & H).
  apply rbind_ok in H. destruct H as (cw & _ & H).
  apply rbind_ok in H. destruct H as (cx & _ & H).
  apply rbind_ok in H. destruct H as (car & _ & H).
  apply rbind_ok in H. destruct H as ([u w1] & Hrun & H).
  injection H as <-. simpl snd. destruct u.
  apply init_tail_layout in Hrun; [| reflexivity].
  destruct Hrun as (lanes & xs & Hlanes & Hxs & Hc & Htl & Hlw & Hnil & _
                    & Hgrid).
  cbn [config track_left lane_width] in Hlanes, Hxs, Hc, Htl, Hlw, Hgrid.
  rewrite Hc, Htl, Hlw.
  pose proof (py_range_unit_length _ _ Hlanes) as Hlen.
  pose proof (Forall2_length _ _ _ Hxs) as Hlen2.
  exists lanes, xs. conjs; try assumption.
  - congruence.
  - intros Hle. apply Hnil. destruct lanes; [reflexivity |].
    simpl in Hlen. lia.
  - intros ys Hys. rewrite (Hgrid ys Hys). split; [reflexivity |].
    apply marker_grid_length.
Qed.

Lemma marker_step_keeps_x (gm : RacingGame) (ms : list (Z * Z)) :
  map fst (map (marker_step gm) ms) = map fst ms.
Proof.
  rewrite List.map_map. apply List.map_ext. intros m. reflexivity.
Qed.

(** X18. Markers only ever move vertically: throughout a session the list holds
    the same markers in the same order with the x-coordinates [__init__]
    gave them; none is added and none is dropped. *)
Theorem lane_markers_keep_columns (conf : option GameConfig) (g : G)
        (inputs : list FrameInput) (w0 w : World G) :
  RacingGame_init conf g = Ok w0 ->
  run inputs w0 = Ok (tt, w) ->
  map fst (lane_markers (game w)) = map fst (lane_markers (game w0)).
Proof.
  intros _ Hrun.
  apply (run_invariant
           (fun w => map fst (lane_markers (game w))
                     = map fst (lane_markers (game w0))))
    with (inputs := inputs) (w := w0); [| | reflexivity | exact Hrun].
  - intros e w1 w2 Hp He.
    destruct (handle_event_attrs _ _ _ He) as (Hms & _). rewrite Hms. exact Hp.
  - intros keys w1 w2 Hp Hu. destruct (game_over (game w1)) eqn:Hover.
    + rewrite update_over in Hu by assumption. injection Hu as <-. exact Hp.
    + destruct (update_running_attrs _ _ _ Hover Hu) as (_ & _ & Hms & _).
      rewrite Hms, marker_step_keeps_x. exact Hp.
Qed.

(** *** A car that moves vertically *)



(** *** The obstacles of the default game *)












(** *** What never changes *)

Lemma same_constants_update (keys : Keys) (w w' : World G) :
  update keys w = Ok (tt, w') -> same_constants (game w) (game w').
Proof.
  intros H. destruct (game_over (game w)) eqn:Hover.
  - rewrite update_over in H by assumption. injection H as <-.
    unfold same_constants. conjs; reflexivity.
  - apply update_running_ok in H; [| assumption].
    destruct H as (w1 & w2 & w3 & w4 & H1 & H2 & H3 & H4 & H5).
    destruct (update_prefix_game _ _ _ _ _ H1 H2 H3) as (l & b & ms & Hg3).
    apply update_score_ok in H5. destruct H5 as (q & _ & ->).
    apply maybe_spawn_ok in H4. cbv zeta in H4.
    destruct H4 as [[_ ->] | (_ & lane & g1 & cw & x & car & delay & g2 & _
                              & _ & _ & _ & _ & _ & _ & ->)];
      unfold same_constants; simpl; rewrite Hg3; conjs; reflexivity.
Qed.

Lemma same_constants_handle_event (e : Event) (w w' : World G) :
  handle_event e w = Ok (tt, w') -> same_constants (game w) (game w').
Proof.
  intros He.
  destruct (handle_event_cases _ _ _ He) as [(_ & _ & Hr) | (b & ->)].
  - apply reset_game_ok in Hr. cbv zeta in Hr.
    destruct Hr as (delay & g1 & x & c & c' & _ & _ & _ & _ & _ & ->).
    unfold same_constants. conjs; reflexivity.
  - unfold same_constants. conjs; reflexivity.
Qed.

Lemma same_constants_trans (g0 g1 g2 : RacingGame) :
  same_constants g0 g1 -> same_constants g1 g2 -> same_constants g0 g2.
Proof.
  unfold same_constants.
  intros (A1 & A2 & A3 & A4 & A5 & A6 & A7 & A8 & A9)
         (B1 & B2 & B3 & B4 & B5 & B6 & B7 & B8 & B9).
  conjs; congruence.
Qed.

(** X21. The configuration, the track bounds, the lane width, the three speeds,
    the spawn delay range and the player's car object are the ones
    [__init__] set, throughout the session: no method writes them again. *)
Theorem session_constants (conf : option GameConfig) (g : G)
        (inputs : list FrameInput) (w0 w : World G) :
  RacingGame_init conf g = Ok w0 ->
  run inputs w0 = Ok (tt, w) ->
  same_constants (game w0) (game w) /\
  car_speed (game w) = 5 /\ road_scroll_speed (game w) = 3 /\
  obstacle_speed (game w) = 3 /\ spawn_cooldown_range (game w) = (60, 120).
Proof.
  intros Hinit Hrun. split.
  - apply (run_invariant (fun w => same_constants (game w0) (game w)))
      with (inputs := inputs) (w := w0); [| | | exact Hrun].
    + intros e w1 w2 Hp He. eapply same_constants_trans; [exact Hp |].
      eapply same_constants_handle_event; exact He.
    + intros keys w1 w2 Hp Hu. eapply same_constants_trans; [exact Hp |].
      eapply same_constants_update; exact Hu.
    + unfold same_constants. conjs; reflexivity.
  - pose proof (wf_run _ _ _ (wf_init _ _ _ Hinit) Hrun) as Hwf.
    destruct (wf_speeds _ Hwf) as (H1 & H2 & H3).
    conjs; try assumption. apply (wf_cooldown _ Hwf).
Qed.

(** X22. The obstacle list never holds the same car twice and never the player's
    car, and every entry refers to a car that exists, 50 high; the player's
    car stays 40 high on its row, 80 pixels above the bottom of the
    screen. *)
Theorem vehicles_well_formed (conf : option GameConfig) (g : G)
        (inputs : list FrameInput) (w0 w : World G) :
  RacingGame_init conf g = Ok w0 ->
  run inputs w0 = Ok (tt, w) ->
  NoDup (obstacles (game w)) /\
  (player_car (game w) ∉ obstacles (game w)) /\
  (forall r, r ∈ obstacles (game w) ->
     exists c, store w !! r = Some c /\ car_height c = 50 /\
               car_y c - 25 = rect_y (car_rect c)) /\
  exists pc, store w !! player_car (game w) = Some pc /\
             car_height pc = 40 /\
             car_y pc = height (config (game w0)) - 80 /\
             rect_y (car_rect pc) = height (config (game w0)) - 100.
Proof.
  intros Hinit Hrun.
  pose proof (wf_run _ _ _ (wf_init _ _ _ Hinit) Hrun) as Hwf.
  assert (Hcfg : config (game w) = config (game w0)).
  { apply (run_invariant (fun w => config (game w) = config (game w0)))
      with (inputs := inputs) (w := w0); [| | reflexivity | exact Hrun].
    - intros e w1 w2 Hp He.
      destruct (same_constants_handle_event _ _ _ He) as (Hc & _). congruence.
    - intros keys w1 w2 Hp Hu.
      destruct (same_constants_update _ _ _ Hu) as (Hc & _). congruence. }
  conjs.
  - apply (wf_nodup _ Hwf).
  - apply (wf_player_apart _ Hwf).
  - intros r Hr. pose proof (wf_obstacles _ Hwf) as Hall.
    rewrite Forall_forall in Hall.
    destruct (lookup_lt_is_Some_2 _ _ (Hall r Hr)) as (c & Hc).
    exists c. split; [exact Hc |].
    destruct (obstacle_rect_rows _ _ _ Hwf Hr Hc) as [Hy _].
    split; [apply (wf_obstacle_geom _ Hwf _ _ Hr Hc) | lia].
  - destruct (lookup_lt_is_Some_2 _ _ (wf_player _ Hwf)) as (pc & Hpc).
    exists pc. split; [exact Hpc |].
    destruct (wf_player_geom _ Hwf _ Hpc) as [Hy Hh].
    destruct (player_rect_rows _ _ Hwf Hpc) as [Hry _].
    rewrite <- Hcfg. conjs; assumption.
Qed.

(** *** The obstacle list as a queue *)

Lemma filter_keeps_all {A : Type} (p : A -> bool) (l : list A) :
  (forall x, In x l -> p x = true) -> List.filter p l = l.
Proof.
  induction l as [|a l IH]; intros Hp; [reflexivity |].
  simpl. rewrite (Hp a) by (left; reflexivity). f_equal.
  apply IH. intros x Hx. apply Hp. right. exact Hx.
Qed.

(** Of obstacles 180 apart and on the screen, a step of 3 pixels can take
    only the first one below the bottom. *)
Lemma filter_head_only (y y' : ref -> Z) (top : Z) (obs : list ref) :
  spaced 180 (map y obs) ->
  Forall (fun v => v <= top) (map y obs) ->
  (forall r, In r obs -> y' r = y r + 3) ->
  List.filter (fun r => negb (top <? y' r)) obs = obs \/
  exists r, obs = r :: List.filter (fun r => negb (top <? y' r)) obs.
Proof.
  intros Hsp Htop Hy. destruct obs as [|r post]; [left; reflexivity |].
  simpl in Hsp, Htop. destruct Hsp as [Hall _].
  inversion Htop as [|? ? Hr _]; subst.
  assert (Hpost : List.filter (fun r => negb (top <? y' r)) post = post).
  { apply filter_keeps_all. intros q Hq.
    rewrite List.Forall_forall in Hall.
    pose proof (Hall _ (List.in_map y post q Hq)) as Hgap.
    rewrite (Hy q) by (right; exact Hq).
    apply negb_true_iff. apply Z.ltb_ge. lia. }
  simpl. rewrite Hpost.
  destruct (top <? y' r); simpl; [right; exists r; reflexivity
                                 | left; reflexivity].
Qed.

(** X23. The obstacle list works as a queue.  In every running frame at
    most one obstacle leaves the list, and it is the first, and at most one
    is added, at the end; the others keep their places. *)
Theorem obstacle_queue_step (conf : option GameConfig) (g : G)
        (inputs : list FrameInput) (evs : list Event) (keys : Keys)
        (w0 w wa w' : World G) :
  RacingGame_init conf g = Ok w0 ->
  - 50 <= height (config (game w0)) ->
  run inputs w0 = Ok (tt, w) ->
  handle_events evs w = Ok (tt, wa) ->
  game_over (game wa) = false ->
  update keys wa = Ok (tt, w') ->
  exists kept added,
    obstacles (game w') = kept ++ added /\
    (kept = obstacles (game wa) \/ exists r, obstacles (game wa) = r :: kept) /\
    (length added <= 1)%nat.
Proof.
  intros Hinit Hh Hrun Hev Hover Hu.
  pose proof (spread_invariant conf g inputs w0 w Hinit Hh Hrun) as Hs.
  pose proof (handle_events_invariant (spread_out (config (game w0)))
                (fun e w1 w2 => spread_handle_event _ e w1 w2)
                evs w wa Hs Hev) as (Hwf & Hcfg & Ht & _ & Hrange & Hrunning).
  destruct (Hrunning Hover) as [Hsp _].
  destruct (update_chain _ _ _ Hwf Hover Hu)
    as (w1 & w2 & w3 & w4 & H1 & H2 & H3 & H4 & H5
        & Hwf1 & Hwf2 & Hwf3 & Hwf4 & Hwf').
  destruct (update_car_frame _ _ _ H1) as (Hg1 & _ & _ & Hst1).
  assert (Hw2 : game w2 = set_lane_markers
                            (map (marker_step (game w1))
                                 (lane_markers (game w1))) (game w1)
                /\ store w2 = store w1).
  { rewrite update_lane_markers_eq in H2. injection H2 as <-.
    split; reflexivity. }
  destruct Hw2 as [Hg2 Hst2].
  assert (Hobs2 : obstacles (game w2) = obstacles (game wa)).
  { rewrite Hg2. simpl. rewrite Hg1. reflexivity. }
  assert (Hys2 : obstacle_ys w2 = obstacle_ys wa).
  { apply obstacle_ys_same; [exact Hobs2 |].
    intros r Hr. rewrite Hst2. apply Hst1. intros ->.
    apply (wf_player_apart _ Hwf). exact Hr. }
  assert (Hcfg2 : config (game w2) = config (game w0)).
  { rewrite Hg2. simpl. rewrite Hg1. exact Hcfg. }
  assert (H3shape : obstacles (game w3) = obstacles (game wa) \/
                    exists r, obstacles (game wa) = r :: obstacles (game w3)).
  { rewrite <- Hobs2.
    destruct (update_obstacles_ok _ _ (wf_nodup _ Hwf2)
                (wf_player_apart _ Hwf2) H3)
      as (_ & _ & _ & [[Hg3 Hall] | (Hg3 & _)]).
    - assert (Hy : forall r, In r (obstacles (game w2)) ->
                     obstacle_y w3 r = obstacle_y w2 r + 3).
      { intros r Hr. apply list_elem_of_In in Hr.
        destruct (Hall r Hr) as (c' & Hm & Hs3 & _).
        eapply obstacle_y_moved; eassumption. }
      assert (Hfilter :
                List.filter (fun r => negb (centre_below w3 r))
                            (obstacles (game w2))
                = List.filter
                    (fun r => negb (height (config (game w0))
                                    <? obstacle_y w3 r))
                    (obstacles (game w2))).
      { apply List.filter_ext_in. intros r Hr. apply list_elem_of_In in Hr.
        destruct (Hall r Hr) as (c' & _ & Hs3 & _).
        rewrite (centre_below_eq _ _ _ Hs3). unfold obstacle_y.
        rewrite Hs3, Hg3. simpl. rewrite Hcfg2. reflexivity. }
      rewrite Hg3. simpl. rewrite Hfilter.
      apply (filter_head_only (obstacle_y w2)); [| | exact Hy].
      + fold (obstacle_ys w2). rewrite Hys2. exact Hsp.
      + fold (obstacle_ys w2). rewrite Hys2.
        eapply Forall_impl; [exact Hrange |]. simpl. intros; lia.
    - left. rewrite Hg3. reflexivity. }
  apply update_score_ok in H5. destruct H5 as (q & _ & ->).
  apply maybe_spawn_ok in H4. cbv zeta in H4.
  destruct H4 as [[_ ->] | (_ & lane & g1 & cw & x & car & delay & g2 & _
                            & _ & _ & _ & _ & _ & _ & ->)]; simpl.
  - exists (obstacles (game w3)), []. rewrite app_nil_r.
    split; [reflexivity |]. split; [| simpl; lia].
    destruct H3shape as [-> | (r & Hr)]; [left; reflexivity |].
    right. exists r. exact Hr.
  - exists (obstacles (game w3)), [length (store w3)].
    split; [reflexivity |]. split; [| simpl; lia].
    destruct H3shape as [-> | (r & Hr)]; [left; reflexivity |].
    right. exists r. exact Hr.
Qed.
End Session.

(** ** The invariants on the sample sessions *)

(** Closes a goal about concrete data by evaluation. *)
Ltac concrete :=
  vm_compute;
  repeat match goal with |- _ /\ _ => split end;
  first [reflexivity | discriminate].

Lemma calm_start : RacingGame_init None calm_script
                   = Ok (start None calm_script).
Proof. vm_compute. reflexivity. Qed.

Lemma crash_start : RacingGame_init None crash_script
                    = Ok (start None crash_script).
Proof. vm_compute. reflexivity. Qed.

Lemma busy_run :
  run (hold no_keys 300) (start None calm_script) = Ok (tt, busy_session).
Proof. vm_compute. reflexivity. Qed.

Lemma crash_run :
  run (hold no_keys 235) (start None crash_script) = Ok (tt, before_crash).
Proof. vm_compute. reflexivity. Qed.

Lemma crashed_run :
  run (hold no_keys 236) (start None crash_script) = Ok (tt, after_crash).
Proof. vm_compute. reflexivity. Qed.

(** After 300 quiet frames the timer is at 60 again. *)
Lemma spawn_timer_bounds_witness :
  1 <= spawn_timer (game busy_session) <= 120.
Proof.
  apply (spawn_timer_bounds None calm_script (hold no_keys 300)
           (start None calm_script) busy_session).
  - exact calm_start.
  - exact busy_run.
Defined.

(** The crashed session has the flag set and an obstacle on the player. *)
Lemma game_over_iff_overlap_witness :
  game_over (game after_crash)
  = existsb (overlaps_now after_crash) (obstacles (game after_crash)).
Proof.
  apply (game_over_iff_overlap None crash_script (hold no_keys 236)
           (start None crash_script) after_crash).
  - exact crash_start.
  - concrete.
  - exact crashed_run.
Defined.

Lemma obstacles_spread_out_witness :
  spaced 177 (obstacle_ys busy_session) /\
  Forall (fun y => - 50 <= y <= height (config (game (start None calm_script))))
         (obstacle_ys busy_session).
Proof.
  apply (obstacles_spread_out None calm_script (hold no_keys 300)
           (start None calm_script) busy_session).
  - exact calm_start.
  - concrete.
  - exact busy_run.
Defined.

Lemma obstacle_count_bound_witness :
  Z.of_nat (length (obstacles (game busy_session)))
  <= (height (config (game (start None calm_script))) + 50) / 177 + 1.
Proof.
  apply (obstacle_count_bound None calm_script (hold no_keys 300)
           (start None calm_script) busy_session).
  - exact calm_start.
  - concrete.
  - exact busy_run.
Defined.

(** Frame 236 of the sample session: the obstacle that arrives is the first
    of the list. *)
Lemma collision_hits_oldest_obstacle_witness :
  exists w1 w2 w3 r post,
    _update_car no_keys before_crash = Ok (tt, w1) /\
    _update_lane_markers w1 = Ok (tt, w2) /\
    _update_obstacles w2 = Ok (tt, w3) /\
    obstacles (game before_crash) = r :: post /\
    overlaps_after_move w2 r = true /\
    obstacle_y w3 r = obstacle_y before_crash r + 3 /\
    (forall q, q ∈ post -> store w3 !! q = store before_crash !! q) /\
    Forall (fun q => centre_below w3 q = false) (obstacles (game before_crash)).
Proof.
  apply (collision_hits_oldest_obstacle None crash_script (hold no_keys 235)
           [] no_keys (start None crash_script) before_crash before_crash
           after_crash).
  - exact crash_start.
  - concrete.
  - exact crash_run.
  - reflexivity.
  - concrete.
  - concrete.
  - concrete.
Defined.

Lemma init_zero_marker_step_raises_witness :
  RacingGame_init (Some zero_step_config) calm_script = Raise ValueError.
Proof.
  apply (init_zero_marker_step_raises zero_step_config calm_script
           default_lane_width (PyFloat.round_int 200) 55 153
           (default_player 200)); concrete.
Defined.






Lemma quit_ends_loop_witness :
  run (closing_turn :: hold hold_right 10) (start None calm_script)
  = frame closing_turn (start None calm_script) /\
  forall w', frame closing_turn (start None calm_script) = Ok (tt, w') ->
             running (game w') = false.
Proof.
  apply (quit_ends_loop closing_turn (hold hold_right 10)
           (start None calm_script)); concrete.
Defined.

Lemma lane_markers_keep_columns_witness :
  map fst (lane_markers (game busy_session))
  = map fst (lane_markers (game (start None calm_script))).
Proof.
  apply (lane_markers_keep_columns None calm_script (hold no_keys 300)
           (start None calm_script) busy_session).
  - exact calm_start.
  - exact busy_run.
Defined.




Lemma session_constants_witness :
  same_constants (game (start None crash_script)) (game after_crash) /\
  car_speed (game after_crash) = 5 /\
  road_scroll_speed (game after_crash) = 3 /\
  obstacle_speed (game after_crash) = 3 /\
  spawn_cooldown_range (game after_crash) = (60, 120).
Proof.
  apply (session_constants None crash_script (hold no_keys 236)
           (start None crash_script) after_crash).
  - exact crash_start.
  - exact crashed_run.
Defined.

Lemma vehicles_well_formed_witness :
  NoDup (obstacles (game after_crash)) /\
  (player_car (game after_crash) ∉ obstacles (game after_crash)) /\
  (forall r, r ∈ obstacles (game after_crash) ->
     exists c, store after_crash !! r = Some c /\ car_height c = 50 /\
               car_y c - 25 = rect_y (car_rect c)) /\
  exists pc, store after_crash !! player_car (game after_crash) = Some pc /\
             car_height pc = 40 /\
             car_y pc = height (config (game (start None crash_script))) - 80 /\
             rect_y (car_rect pc)
             = height (config (game (start None crash_script))) - 100.
Proof.
  apply (vehicles_well_formed None crash_script (hold no_keys 236)
           (start None crash_script) after_crash).
  - exact crash_start.
  - exact crashed_run.
Defined.


(** The default game: two columns of six markers. *)
Lemma init_lane_markers_layout_witness :
  exists lanes xs,
    py_range 1 (lane_count (config (game (start None calm_script)))) 1
    = Ok lanes /\
    length xs
    = Z.to_nat (lane_count (config (game (start None calm_script))) - 1) /\
    Forall2 (fun lane x =>
               marker_x (track_left (game (start None calm_script)))
                        (lane_width (game (start None calm_script))) lane
               = Ok x) lanes xs /\
    (lane_count (config (game (start None calm_script))) <= 1 ->
     lane_markers (game (start None calm_script)) = []) /\
    forall ys,
      py_range (- lane_marker_length (config (game (start None calm_script))))
               (height (config (game (start None calm_script)))
                + lane_marker_length (config (game (start None calm_script))))
               (lane_marker_length (config (game (start None calm_script)))
                + lane_marker_gap (config (game (start None calm_script))))
      = Ok ys ->
      lane_markers (game (start None calm_script)) = marker_grid xs ys /\
      length (lane_markers (game (start None calm_script)))
      = (length xs * length ys)%nat.
Proof.
  apply (init_lane_markers_layout None calm_script (start None calm_script)).
  exact calm_start.
Defined.

(** Frame 301 of the quiet game: nobody leaves, nobody comes. *)
Lemma obstacle_queue_step_witness :
  exists kept added,
    obstacles (game (play None calm_script (hold no_keys 301)))
    = kept ++ added /\
    (kept = obstacles (game busy_session)
     \/ exists r, obstacles (game busy_session) = r :: kept) /\
    (length added <= 1)%nat.
Proof.
  apply (obstacle_queue_step None calm_script (hold no_keys 300) [] no_keys
           (start None calm_script) busy_session busy_session
           (play None calm_script (hold no_keys 301))).
  - exact calm_start.
  - concrete.
  - exact busy_run.
  - reflexivity.
  - concrete.
  - concrete.
Defined.
